(** * CyDER worker functions: a shallow embedding of [functions.py]

    The module [web/docker_django/worker/functions.py] is a script layer over
    the CymDIST scripting interface [cympy].  Every function is a sequence
    of vendor calls with a little Python in between.  The embedding keeps
    that shape:

    - Python values are a small dynamic universe [pyval];
    - the vendor runtime is an interface [Cympy]: a state and a response
      function, which may raise;
    - a function of the module is a computation in the monad [M]: it reads
      and updates the world (vendor session, file system, dataframe heap),
      returns or raises, and emits the list of vendor calls it issued, each
      with the response it got.

    Numbers are rationals: the module has [from __future__ import division],
    so [/] is true division on every number; rounding of binary floating
    point is not modelled. *)

From Stdlib Require Import QArith Qround Sorted Lqa.
From stdpp Require Import gmap strings list fin_maps pretty.

Local Open Scope string_scope.
Local Open Scope list_scope.

(** ** Python values *)

(** Constants of [cympy.enums] that the module names. *)
Inductive cympy_enum :=
| Location_FirstAvailable
| DeviceType_Photovoltaic
| LoadValueType_KW_KVAR.

#[warnings="-register-all"]
Inductive pyval :=
| PyNone
| PyBool (b : bool)
| PyNum (q : Q)
| PyStr (s : string)
| PyList (l : list pyval)
| PyEnum (e : cympy_enum)
| PyObj (attrs : list (string * pyval)).

Inductive exn :=
| KeyError (key : string)
| IndexError
| TypeError
| ValueError
| ZeroDivisionError
| AttributeError (name : string)
| VendorError (code : nat).

Inductive result (A : Type) :=
| Ret (a : A)
| Raise (e : exn).
Arguments Ret {A} a.
Arguments Raise {A} e.

(** Truth value of an object, as [if temp:] tests it. *)
Definition py_truthy (v : pyval) : bool :=
  match v with
  | PyNone => false
  | PyBool b => b
  | PyNum q => negb (Qeq_bool q 0)
  | PyStr s => negb (String.eqb s "")
  | PyList l => match l with [] => false | _ :: _ => true end
  | PyEnum _ => true
  | PyObj _ => true
  end.

(** [x is ''] in the cast lambdas: CPython keeps one empty string object,
    so the identity test holds exactly for the empty string. *)
Definition is_empty_str (v : pyval) : bool :=
  match v with
  | PyStr s => String.eqb s ""
  | _ => false
  end.

Fixpoint chars (s : string) : list pyval :=
  match s with
  | EmptyString => []
  | String c s' => PyStr (String c EmptyString) :: chars s'
  end.

(** [list(x)] *)
Definition py_list (v : pyval) : result (list pyval) :=
  match v with
  | PyList l => Ret l
  | PyStr s => Ret (chars s)
  | _ => Raise TypeError
  end.

(** [x[0]] *)
Definition py_getitem0 (v : pyval) : result pyval :=
  match v with
  | PyList (x :: _) => Ret x
  | PyList [] => Raise IndexError
  | PyStr (String c _) => Ret (PyStr (String c EmptyString))
  | PyStr EmptyString => Raise IndexError
  | _ => Raise TypeError
  end.

(** [int(q)] on a number truncates toward zero. *)
Definition trunc (q : Q) : Z := Z.quot (Qnum q) (Zpos (Qden q)).

(** [x.name] on a vendor object. *)
Fixpoint assoc (name : string) (l : list (string * pyval)) : option pyval :=
  match l with
  | [] => None
  | (k, v) :: l' => if String.eqb k name then Some v else assoc name l'
  end.

Definition py_getattr (v : pyval) (name : string) : result pyval :=
  match v with
  | PyObj attrs =>
      match assoc name attrs with
      | Some x => Ret x
      | None => Raise (AttributeError name)
      end
  | _ => Raise (AttributeError name)
  end.

Definition is_obj (v : pyval) : bool :=
  match v with PyObj _ => true | _ => false end.

(** The parsing half of [float(s)] and [int(s)] on a string is left to the
    runtime. *)
Class PyRuntime := {
  parse_float : string -> option Q;
  parse_int : string -> option Z
}.

(** [float(x)] *)
Definition py_float {py : PyRuntime} (v : pyval) : result Q :=
  match v with
  | PyNum q => Ret q
  | PyBool b => Ret (if b then 1 else 0)%Q
  | PyStr s => match parse_float s with Some q => Ret q | None => Raise ValueError end
  | _ => Raise TypeError
  end.

(** [int(x)] *)
Definition py_int {py : PyRuntime} (v : pyval) : result Z :=
  match v with
  | PyNum q => Ret (trunc q)
  | PyBool b => Ret (if b then 1 else 0)%Z
  | PyStr s => match parse_int s with Some z => Ret z | None => Raise ValueError end
  | _ => Raise TypeError
  end.

(** [enumerate(xs)] *)
Fixpoint enumerate_from {A} (i : nat) (xs : list A) : list (nat * A) :=
  match xs with
  | [] => []
  | x :: xs' => (i, x) :: enumerate_from (S i) xs'
  end.
Definition enumerate {A} (xs : list A) : list (nat * A) := enumerate_from 0 xs.

(** [zip(a, b, c)] *)
Fixpoint zip3 {A B C} (a : list A) (b : list B) (c : list C) : list (A * B * C) :=
  match a, b, c with
  | x :: a', y :: b', z :: c' => (x, y, z) :: zip3 a' b' c'
  | _, _, _ => []
  end.

(** [str(n)] for a non-negative integer. *)
Definition str (n : nat) : string := pretty n.

(** ** The demand objects of [cympy.sim]

    [cympy.sim.Meter()] and [cympy.sim.LoadValue()] are attribute
    containers: an assignment stores the value, a later read returns it.
    A field that was never assigned is [None]. *)
Record LoadValue := {
  Value1 : option Q;
  Value2 : option Q
}.

Record Meter := {
  IsTotalDemand : option bool;
  DemandA : option LoadValue;
  DemandB : option LoadValue;
  DemandC : option LoadValue;
  LoadValueType : option cympy_enum
}.

(** ** Vendor calls *)

Inductive call :=
| Open (model_filename : string)
| ListNetworks
| SetValueTopo (value : Q) (keyword : string) (network : pyval)
| AddDevice (name : string) (device_type : pyval) (section_id : string)
    (optional : option (string * cympy_enum * bool))
| QueryInfoDevice (keyword : string) (device_number : pyval) (device_type : Z)
| SetValueDevice (value : Q) (keyword : string) (device_number : string)
    (device_type : Z)
| Device_SetValue (device : pyval) (value : Q) (keyword : string)
| LoadFlow
| LoadFlow_Run (lf : pyval)
| QueryInfoNode (keyword : string) (node_id : pyval)
| LoadAllocation
| LoadAllocation_SetDemand (la : pyval) (network : pyval) (demand : Meter)
| LoadAllocation_Run (la : pyval) (networks : list pyval)
| ListNodes.

(** A call together with what the vendor answered. *)
Abbreviation event := (call * result pyval)%type.

(** The vendor runtime: one implicitly global session. *)
Class Cympy (V : Type) := {
  respond : V -> call -> result pyval * V
}.

(** ** Dataframes *)

Record frame := {
  index : list Z;
  columns : list (string * list pyval)
}.

Definition len (f : frame) : nat := length (index f).

Definition has_column (name : string) (f : frame) : bool :=
  existsb (fun c => String.eqb (fst c) name) (columns f).

Fixpoint put_column (name : string) (values : list pyval)
    (cols : list (string * list pyval)) : list (string * list pyval) :=
  match cols with
  | [] => [(name, values)]
  | (k, old) :: cols' =>
      if String.eqb k name then (k, values) :: cols'
      else (k, old) :: put_column name values cols'
  end.

Fixpoint get_column (name : string) (cols : list (string * list pyval))
    : option (list pyval) :=
  match cols with
  | [] => None
  | (k, values) :: cols' =>
      if String.eqb k name then Some values else get_column name cols'
  end.

(** [frame[name] = values]: an existing column is replaced where it stands,
    a new one is added last; the lengths must agree. *)
Definition set_column (name : string) (values : list pyval) (f : frame)
    : result frame :=
  if Nat.eqb (length values) (len f)
  then Ret {| index := index f; columns := put_column name values (columns f) |}
  else Raise ValueError.

(** One tuple of [frame.itertuples()]: the index label and the cells by
    column name. *)
Record row := {
  Index : Z;
  fields : list (string * pyval)
}.

Definition row_at (f : frame) (i : nat) (label : Z) : row :=
  {| Index := label;
     fields := map (fun c => (fst c, default PyNone (snd c !! i))) (columns f) |}.

Definition itertuples (f : frame) : list row :=
  map (fun '(i, label) => row_at f i label) (enumerate (index f)).

(** [value.name] on a row tuple. *)
Definition row_attr (value : row) (name : string) : result pyval :=
  match assoc name (fields value) with
  | Some x => Ret x
  | None => Raise (AttributeError name)
  end.

(** Write [v] at every position whose label is [label]. *)
Fixpoint write_at (label : Z) (v : pyval) (idx : list Z) (values : list pyval)
    : list pyval :=
  match idx, values with
  | l :: idx', x :: values' =>
      (if Z.eqb l label then v else x) :: write_at label v idx' values'
  | _, _ => values
  end.

(** [frame.loc[label, name] = v].  pandas enlarges the frame when the column
    or the label is not there; the cells it creates hold the missing-value
    marker, written [PyNone] here. *)
Definition loc_set (label : Z) (name : string) (v : pyval) (f : frame) : frame :=
  let f1 :=
    if has_column name f then f
    else {| index := index f;
            columns := columns f ++ [(name, repeat PyNone (len f))] |} in
  let f2 :=
    if existsb (Z.eqb label) (index f1) then f1
    else {| index := index f1 ++ [label];
            columns := map (fun c => (fst c, snd c ++ [PyNone])) (columns f1) |} in
  {| index := index f2;
     columns :=
       map (fun c =>
              if String.eqb (fst c) name
              then (fst c, write_at label v (index f2) (snd c))
              else c)
         (columns f2) |}.

(** [Series.apply(cast)] on a list of cells: the first failure raises. *)
Fixpoint apply_cells (cast : pyval -> result pyval) (cells : list pyval)
    : result (list pyval) :=
  match cells with
  | [] => Ret []
  | x :: cells' =>
      match cast x with
      | Raise e => Raise e
      | Ret y =>
          match apply_cells cast cells' with
          | Raise e => Raise e
          | Ret ys => Ret (y :: ys)
          end
      end
  end.

(** [lambda x: None if x is '' else float(x) / scale] *)
Definition cast_scaled {py : PyRuntime} (scale : Q) (x : pyval) : result pyval :=
  if is_empty_str x then Ret PyNone
  else match py_float x with
       | Ret q => Ret (PyNum (q / scale))
       | Raise e => Raise e
       end.

(** [lambda x: None if x is '' else float(x)] *)
Definition cast_float {py : PyRuntime} (x : pyval) : result pyval :=
  if is_empty_str x then Ret PyNone
  else match py_float x with
       | Ret q => Ret (PyNum q)
       | Raise e => Raise e
       end.

(** ** The world and the monad *)

Record world (V : Type) := {
  session : V;
  files : list (string * list pyval);
  frames : list frame
}.
Arguments session {V} w.
Arguments files {V} w.
Arguments frames {V} w.

Definition M (V A : Type) : Type := world V -> result A * world V * list event.

Definition ret {V A} (a : A) : M V A := fun w => (Ret a, w, []).

Definition raise {V A} (e : exn) : M V A := fun w => (Raise e, w, []).

Definition bind {V A B} (m : M V A) (k : A -> M V B) : M V B :=
  fun w =>
    match m w with
    | (Ret a, w1, t1) =>
        match k a w1 with
        | (r, w2, t2) => (r, w2, t1 ++ t2)
        end
    | (Raise e, w1, t1) => (Raise e, w1, t1)
    end.

(** [try: m except: h] with a bare [except]. *)
Definition try_except {V A} (m : M V A) (h : M V A) : M V A :=
  fun w =>
    match m w with
    | (Ret a, w1, t1) => (Ret a, w1, t1)
    | (Raise _, w1, t1) =>
        match h w1 with
        | (r, w2, t2) => (r, w2, t1 ++ t2)
        end
    end.

Definition lift {V A} (r : result A) : M V A := fun w => (r, w, []).

Declare Scope py_scope.
Delimit Scope py_scope with py.
Notation "x <- m ;; k" := (bind m (fun x => k))
  (at level 20, m at level 99, k at level 200, only parsing) : py_scope.
Notation "m ;; k" := (bind m (fun _ => k))
  (at level 100, k at level 200, only parsing, right associativity) : py_scope.
Local Open Scope py_scope.

(** [for x in xs: body x] *)
Fixpoint for_each {V A} (xs : list A) (body : A -> M V unit) : M V unit :=
  match xs with
  | [] => ret tt
  | x :: xs' => body x ;; for_each xs' body
  end.

(** [for x in xs: acc = body acc x] *)
Fixpoint for_fold {V A S} (xs : list A) (acc : S) (body : S -> A -> M V S) : M V S :=
  match xs with
  | [] => ret acc
  | x :: xs' => acc' <- body acc x ;; for_fold xs' acc' body
  end.

(** The dictionaries built by [_input_loads] and [_input_pvs]. *)
Module Load.
Record t := {
  section_id : string;
  active_power : Q;
  parameter_name : string
}.
End Load.

Module Pv.
Record t := {
  section_id : string;
  generation : Q;
  parameter_name : string
}.
End Pv.

Definition OperatingVoltage1 : string :=
  "Sources[0].EquivalentSourceModels[0].EquivalentSource.OperatingVoltage1".
Definition OperatingVoltage2 : string :=
  "Sources[0].EquivalentSourceModels[0].EquivalentSource.OperatingVoltage2".
Definition OperatingVoltage3 : string :=
  "Sources[0].EquivalentSourceModels[0].EquivalentSource.OperatingVoltage3".

Section Model.
Context {V : Type} {cympy : Cympy V} {py : PyRuntime}.

(** A call into [cympy]: the session answers and the call is logged. *)
Definition vendor (c : call) : M V pyval :=
  fun w =>
    match respond (session w) c with
    | (r, v') =>
        (r, {| session := v'; files := files w; frames := frames w |}, [(c, r)])
    end.

(** A method call [obj.name(args)]: the attribute is looked up first
    (only a vendor object has methods), then the arguments are evaluated,
    then the vendor is called. *)
Definition method (obj : pyval) (name : string) (args : M V call) : M V pyval :=
  if is_obj obj then c <- args ;; vendor c else raise (AttributeError name).

(** [if cond: body] *)
Definition when {A} (cond : bool) (body : M V A) : M V unit :=
  if cond then body ;; ret tt else ret tt.

(** [a / n] with [n] a length. *)
Definition divide (a : Q) (n : nat) : M V Q :=
  match n with
  | O => raise ZeroDivisionError
  | S _ => ret (a / inject_Z (Z.of_nat n))%Q
  end.

(** [pickle.dump(data, open(filename, 'wb'))] *)
Definition pickle_dump (filename : string) (data : list pyval) : M V unit :=
  fun w =>
    (Ret tt,
     {| session := session w; files := (filename, data) :: files w;
        frames := frames w |},
     []).

(** [d[key]] on a dictionary. *)
Definition getitem (d : gmap string Q) (key : string) : M V Q :=
  match d !! key with
  | Some v => ret v
  | None => raise (KeyError key)
  end.

(** *** [fmu_wrapper] and its local functions *)

Definition _input_voltages (voltage_names : list string) (voltage_values : list Q)
  : gmap string Q :=
  foldl (fun voltages '(name, value) => <[name := value]> voltages) ∅
    (zip voltage_names voltage_values).

Definition _input_loads (load_sections load_parameter_names : list string)
    (load_values : list Q) : list Load.t :=
  map (fun '(section, parameter, value) =>
         {| Load.section_id := section; Load.active_power := value;
            Load.parameter_name := parameter |})
    (zip3 load_sections load_parameter_names load_values).

Definition _input_pvs (pv_sections pv_parameter_names : list string)
    (pv_values : list Q) : list Pv.t :=
  map (fun '(section, parameter, value) =>
         {| Pv.section_id := section; Pv.generation := value;
            Pv.parameter_name := parameter |})
    (zip3 pv_sections pv_parameter_names pv_values).

Definition _set_voltages (voltages : gmap string Q) : M V bool :=
  networks <- vendor ListNetworks ;;
  vmag_a <- getitem voltages "VMAG_A" ;;
  network <- lift (py_getitem0 networks) ;;
  vendor (SetValueTopo (vmag_a / 1000)%Q OperatingVoltage1 network) ;;
  vmag_b <- getitem voltages "VMAG_B" ;;
  network <- lift (py_getitem0 networks) ;;
  vendor (SetValueTopo (vmag_b / 1000)%Q OperatingVoltage2 network) ;;
  vmag_c <- getitem voltages "VMAG_C" ;;
  network <- lift (py_getitem0 networks) ;;
  vendor (SetValueTopo (vmag_c / 1000)%Q OperatingVoltage3 network) ;;
  ret true.

Definition load_name (index : nat) : string := "MY_LOAD_" +:+ str index.

Definition load_kw_keyword (phase : nat) : string :=
  "CustomerLoads[0].CustomerLoadModels[0].CustomerLoadValues[" +:+ str phase
    +:+ "].LoadValue.KW".

(** The body of the loop of [_add_loads]. *)
Definition _add_loads_body (index : nat) (load : Load.t) : M V unit :=
  (* Add load and overwrite *)
  vendor (AddDevice (load_name index) (PyNum 14) (Load.section_id load)
            (Some ("DEFAULT", Location_FirstAvailable, true))) ;;
  (* Set power demand *)
  response <- vendor (QueryInfoDevice "Phase" (PyStr (load_name index)) 14) ;;
  phases <- lift (py_list response) ;;
  power <- divide (Load.active_power load) (length phases) ;;
  for_each (seq 0 (length phases)) (fun phase =>
    vendor (SetValueDevice power (load_kw_keyword phase) (load_name index) 14) ;;
    ret tt).

Definition _add_loads (loads : list Load.t) : M V bool :=
  for_each (enumerate loads) (fun '(index, load) => _add_loads_body index load) ;;
  ret true.

Definition pv_name (index : nat) : string := "my_pv_" +:+ str index.

(** [int((generation + 30) / (23 * 0.08))] *)
Definition pv_panels (generation : Q) : Z :=
  trunc ((generation + 30) / (23 * 0.08))%Q.

(** The body of the loop of [_add_pvs]. *)
Definition _add_pvs_body (index : nat) (pv : Pv.t) : M V unit :=
  (* Add PVs *)
  device <- vendor (AddDevice (pv_name index) (PyEnum DeviceType_Photovoltaic)
                      (Pv.section_id pv) None) ;;
  (* Set PV size (add + 30 to make sure rated power is above generated power) *)
  method device "SetValue"
    (ret (Device_SetValue device (inject_Z (pv_panels (Pv.generation pv))) "Np")) ;;
  method device "SetValue"
    (ret (Device_SetValue device (Pv.generation pv)
            "GenerationModels[0].ActiveGeneration")) ;;
  (* Set inverter size *)
  method device "SetValue"
    (ret (Device_SetValue device (Pv.generation pv) "Inverter.ActivePowerRating")) ;;
  method device "SetValue"
    (ret (Device_SetValue device (Pv.generation pv) "Inverter.ReactivePowerRating")) ;;
  ret tt.

Definition _add_pvs (pvs : list Pv.t) : M V bool :=
  for_each (enumerate pvs) (fun '(index, pv) => _add_pvs_body index pv) ;;
  ret true.

(** The body is commented out in the source: nothing is dumped. *)
Definition _write_results (model_filename : string) : M V bool :=
  ret true.

Definition _output_values (output_nodes output_names : list string)
    (DEFAULT_VALUE : pyval) : M V (list pyval) :=
  for_fold (zip output_nodes output_names) [] (fun output '(node_id, category) =>
    try_except
      (temp <- vendor (QueryInfoNode category (PyStr node_id)) ;;
       if py_truthy temp then ret (output ++ [temp])
       else ret (output ++ [DEFAULT_VALUE]))
      (ret (output ++ [DEFAULT_VALUE]))).

(** [if loads: _add_loads(loads)], where [loads] is [False] or a list. *)
Definition set_new_loads (loads : option (list Load.t)) : M V unit :=
  match loads with
  | Some ((_ :: _) as loads) => _add_loads loads ;; ret tt
  | _ => ret tt
  end.

(** [if pvs: _add_pvs(pvs)] *)
Definition set_new_pvs (pvs : option (list Pv.t)) : M V unit :=
  match pvs with
  | Some ((_ :: _) as pvs) => _add_pvs pvs ;; ret tt
  | _ => ret tt
  end.

(** [lf = cympy.sim.LoadFlow(); lf.Run()] *)
Definition run_power_flow : M V unit :=
  lf <- vendor LoadFlow ;;
  method lf "Run" (ret (LoadFlow_Run lf)) ;;
  ret tt.

Definition fmu_wrapper (model_filename : string)
    (voltage_names : list string) (voltage_values : list Q)
    (load_sections load_parameter_names : list string) (load_values : list Q)
    (pv_sections pv_parameter_names : list string) (pv_values : list Q)
    (output_names output_nodes : list string) (write_result : string)
  : M V (list pyval) :=
  (* Process input and check for validity *)
  let voltages := _input_voltages voltage_names voltage_values in
  let loads :=
    if (0 <? length load_sections)%nat
    then Some (_input_loads load_sections load_parameter_names load_values)
    else None in
  let pvs :=
    if (0 <? length pv_sections)%nat
    then Some (_input_pvs pv_sections pv_parameter_names pv_values)
    else None in
  let write_result := existsb (String.eqb write_result) ["True"; "true"; "1"] in
  (* Open the model *)
  vendor (Open model_filename) ;;
  (* Set voltage set point *)
  _set_voltages voltages ;;
  (* Set new loads *)
  set_new_loads loads ;;
  (* Set new pvs *)
  set_new_pvs pvs ;;
  (* Run the power flow *)
  run_power_flow ;;
  (* Write full results? *)
  when write_result (_write_results model_filename) ;;
  (* Return the right values *)
  output <- _output_values output_nodes output_names (PyNum 0) ;;
  ret output.

(** *** [load_allocation] *)

Definition new_LoadValue : LoadValue := {| Value1 := None; Value2 := None |}.

Definition new_Meter : Meter :=
  {| IsTotalDemand := None; DemandA := None; DemandB := None; DemandC := None;
     LoadValueType := None |}.

Definition set_Value1 (x : Q) (lv : LoadValue) : LoadValue :=
  {| Value1 := Some x; Value2 := Value2 lv |}.
Definition set_Value2 (x : Q) (lv : LoadValue) : LoadValue :=
  {| Value1 := Value1 lv; Value2 := Some x |}.

Definition set_IsTotalDemand (b : bool) (m : Meter) : Meter :=
  {| IsTotalDemand := Some b; DemandA := DemandA m; DemandB := DemandB m;
     DemandC := DemandC m; LoadValueType := LoadValueType m |}.
Definition set_DemandA (lv : LoadValue) (m : Meter) : Meter :=
  {| IsTotalDemand := IsTotalDemand m; DemandA := Some lv; DemandB := DemandB m;
     DemandC := DemandC m; LoadValueType := LoadValueType m |}.
Definition set_DemandB (lv : LoadValue) (m : Meter) : Meter :=
  {| IsTotalDemand := IsTotalDemand m; DemandA := DemandA m; DemandB := Some lv;
     DemandC := DemandC m; LoadValueType := LoadValueType m |}.
Definition set_DemandC (lv : LoadValue) (m : Meter) : Meter :=
  {| IsTotalDemand := IsTotalDemand m; DemandA := DemandA m; DemandB := DemandB m;
     DemandC := Some lv; LoadValueType := LoadValueType m |}.
Definition set_LoadValueType (e : cympy_enum) (m : Meter) : Meter :=
  {| IsTotalDemand := IsTotalDemand m; DemandA := DemandA m; DemandB := DemandB m;
     DemandC := DemandC m; LoadValueType := Some e |}.

(** [demand.DemandX.attr = x]: read the phase demand (an unset one is
    [None], which has no attributes), update it in place. *)
Definition in_demand (attr : string) (get : Meter -> option LoadValue)
    (set : LoadValue -> Meter -> Meter) (f : LoadValue -> LoadValue)
    (demand : Meter) : M V Meter :=
  match get demand with
  | Some lv => ret (set (f lv) demand)
  | None => raise (AttributeError attr)
  end.

Definition load_allocation (values : gmap string Q) : M V unit :=
  (* Create Load Allocation object *)
  la <- vendor LoadAllocation ;;
  (* Create the Demand object *)
  let demand := new_Meter in
  (* Fill in the demand values *)
  let demand := set_IsTotalDemand false demand in
  let demand := set_DemandA new_LoadValue demand in
  p_a <- getitem values "P_A" ;;
  demand <- in_demand "Value1" DemandA set_DemandA (set_Value1 p_a) demand ;;
  q_a <- getitem values "Q_A" ;;
  demand <- in_demand "Value2" DemandA set_DemandA (set_Value2 q_a) demand ;;
  let demand := set_DemandB new_LoadValue demand in
  p_b <- getitem values "P_B" ;;
  demand <- in_demand "Value1" DemandB set_DemandB (set_Value1 p_b) demand ;;
  q_b <- getitem values "Q_B" ;;
  demand <- in_demand "Value2" DemandB set_DemandB (set_Value2 q_b) demand ;;
  let demand := set_DemandC new_LoadValue demand in
  p_c <- getitem values "P_C" ;;
  demand <- in_demand "Value1" DemandC set_DemandC (set_Value1 p_c) demand ;;
  q_c <- getitem values "Q_C" ;;
  demand <- in_demand "Value2" DemandC set_DemandC (set_Value2 q_c) demand ;;
  let demand := set_LoadValueType LoadValueType_KW_KVAR demand in
  (* Get a list of networks *)
  networks <- vendor ListNetworks ;;
  (* Set the first feeders demand *)
  method la "SetDemand"
    (network <- lift (py_getitem0 networks) ;;
     ret (LoadAllocation_SetDemand la network demand)) ;;
  (* Set up the right voltage [V to kV] *)
  vmag_a <- getitem values "VMAG_A" ;;
  network <- lift (py_getitem0 networks) ;;
  vendor (SetValueTopo (vmag_a / 1000)%Q OperatingVoltage1 network) ;;
  vmag_b <- getitem values "VMAG_B" ;;
  network <- lift (py_getitem0 networks) ;;
  vendor (SetValueTopo (vmag_b / 1000)%Q OperatingVoltage2 network) ;;
  vmag_c <- getitem values "VMAG_C" ;;
  network <- lift (py_getitem0 networks) ;;
  vendor (SetValueTopo (vmag_c / 1000)%Q OperatingVoltage3 network) ;;
  (* Run the load allocation *)
  method la "Run"
    (network <- lift (py_getitem0 networks) ;;
     ret (LoadAllocation_Run la [network])) ;;
  ret tt.

(** *** The dataframe heap

    A dataframe variable holds a reference; [copy] allocates, column
    assignment and [.loc] assignment update in place. *)

Definition with_frames (w : world V) (fs : list frame) : world V :=
  {| session := session w; files := files w; frames := fs |}.

Definition frame_read (r : nat) : M V frame :=
  fun w =>
    match frames w !! r with
    | Some f => (Ret f, w, [])
    | None => (Raise (AttributeError "DataFrame"), w, [])
    end.

Definition frame_write (r : nat) (f : frame) : M V unit :=
  fun w => (Ret tt, with_frames w (<[r := f]> (frames w)), []).

Definition frame_new (f : frame) : M V nat :=
  fun w => (Ret (length (frames w)), with_frames w (frames w ++ [f]), []).

(** [frame.copy()] *)
Definition frame_copy (r : nat) : M V nat :=
  f <- frame_read r ;; frame_new f.

(** [frame[name] = [0] * len(frame)] *)
Definition reset_column (r : nat) (name : string) : M V unit :=
  f <- frame_read r ;;
  f' <- lift (set_column name (repeat (PyNum 0) (len f)) f) ;;
  frame_write r f'.

(** [frame[target] = frame[source].apply(cast)] *)
Definition assign_apply (r : nat) (target source : string)
    (cast : pyval -> result pyval) : M V unit :=
  f <- frame_read r ;;
  cells <- lift (match get_column source (columns f) with
                 | Some cells => Ret cells
                 | None => Raise (KeyError source)
                 end) ;;
  cells' <- lift (apply_cells cast cells) ;;
  f' <- lift (set_column target cells' f) ;;
  frame_write r f'.

(** [target.loc[value.Index, column] =
       cympy.study.QueryInfoDevice(keyword, value.device_number,
                                   int(value.device_type_id))] *)
Definition query_device_into (target : nat) (value : row)
    (column keyword : string) : M V unit :=
  device_number <- lift (row_attr value "device_number") ;;
  device_type_id <- lift (row_attr value "device_type_id") ;;
  device_type <- lift (py_int device_type_id) ;;
  x <- vendor (QueryInfoDevice keyword device_number device_type) ;;
  f <- frame_read target ;;
  frame_write target (loc_set (Index value) column x f).

(** [target.loc[value.Index, column] =
       cympy.study.QueryInfoNode(keyword, value.node_id)] *)
Definition query_node_into (target : nat) (value : row)
    (column keyword : string) : M V unit :=
  node_id <- lift (row_attr value "node_id") ;;
  x <- vendor (QueryInfoNode keyword node_id) ;;
  f <- frame_read target ;;
  frame_write target (loc_set (Index value) column x f).

(** [for value in frame.itertuples(): body value].  The tuples are those
    of the frame when the loop starts; the loops below never write a
    column or a label that they read from the tuple. *)
Definition for_itertuples (r : nat) (body : row -> M V unit) : M V unit :=
  f <- frame_read r ;; for_each (itertuples f) body.

(** *** Result extraction *)

Definition get_voltage (frame : nat) (is_node : bool) : M V nat :=
  (* Create a new frame to hold the results *)
  voltage <- frame_copy frame ;;
  (* Reset or create new columns to hold the result *)
  reset_column voltage "voltage_A" ;;
  reset_column voltage "voltage_B" ;;
  reset_column voltage "voltage_C" ;;
  for_itertuples frame (fun value =>
    if negb is_node then
      query_device_into voltage value "voltage_A" "VpuA" ;;
      query_device_into voltage value "voltage_B" "VpuB" ;;
      query_device_into voltage value "voltage_C" "VpuC"
    else
      query_node_into voltage value "voltage_A" "VpuA" ;;
      query_node_into voltage value "voltage_B" "VpuB" ;;
      query_node_into voltage value "voltage_C" "VpuC") ;;
  (* Cast the right type *)
  for_each ["voltage_A"; "voltage_B"; "voltage_C"] (fun column =>
    assign_apply voltage column column cast_float) ;;
  ret voltage.

Definition get_overload (devices : nat) : M V nat :=
  overload <- frame_copy devices ;;
  reset_column overload "overload_A" ;;
  reset_column overload "overload_B" ;;
  reset_column overload "overload_C" ;;
  for_itertuples devices (fun device =>
    query_device_into overload device "overload_A" "OverloadAmpsA" ;;
    query_device_into overload device "overload_B" "OverloadAmpsB" ;;
    query_device_into overload device "overload_C" "OverloadAmpsC") ;;
  for_each ["overload_A"; "overload_B"; "overload_C"] (fun column =>
    assign_apply overload column column cast_float) ;;
  ret overload.

Definition get_load (devices : nat) : M V nat :=
  load <- frame_copy devices ;;
  reset_column load "MWA" ;;
  reset_column load "MWB" ;;
  reset_column load "MWC" ;;
  reset_column load "MWTOT" ;;
  reset_column load "MVARA" ;;
  reset_column load "MVARB" ;;
  reset_column load "MVARC" ;;
  reset_column load "MVARTOT" ;;
  for_itertuples devices (fun device =>
    query_device_into load device "MWA" "MWA" ;;
    query_device_into load device "MWB" "MWB" ;;
    query_device_into load device "MWC" "MWC" ;;
    query_device_into load device "MWTOT" "MWTOT" ;;
    query_device_into load device "MVARA" "MVARA" ;;
    query_device_into load device "MVARB" "MVARB" ;;
    query_device_into load device "MVARC" "MVARC" ;;
    query_device_into load device "MVARTOT" "MVARTOT") ;;
  for_each ["MWA"; "MWB"; "MWC"; "MWTOT"; "MVARA"; "MVARB"; "MVARC"; "MVARTOT"]
    (fun column => assign_apply load column column cast_float) ;;
  ret load.

Definition get_distance (devices : nat) : M V nat :=
  distance <- frame_copy devices ;;
  reset_column distance "distance" ;;
  for_itertuples devices (fun device =>
    query_device_into distance device "distance" "Distance") ;;
  for_each ["distance"] (fun column =>
    assign_apply distance column column cast_float) ;;
  ret distance.

Definition get_coordinates (devices : nat) : M V nat :=
  coordinates <- frame_copy devices ;;
  reset_column coordinates "latitude" ;;
  reset_column coordinates "longitude" ;;
  reset_column coordinates "section_id" ;;
  for_itertuples devices (fun device =>
    query_device_into coordinates device "latitude" "CoordY" ;;
    query_device_into coordinates device "longitude" "CoordX" ;;
    query_device_into coordinates device "section_id" "SectionId") ;;
  for_each ["latitude"] (fun column =>
    assign_apply coordinates column column (cast_scaled (1.26 * 100000))) ;;
  for_each ["longitude"] (fun column =>
    assign_apply coordinates column column (cast_scaled 100000)) ;;
  ret coordinates.

(** [pandas.DataFrame(nodes, columns=['node_object'])] *)
Definition DataFrame (data : pyval) (column : string) : M V nat :=
  match data with
  | PyList objects =>
      frame_new {| index := map Z.of_nat (seq 0 (length objects));
                   columns := [(column, objects)] |}
  | _ => raise ValueError
  end.

Definition list_nodes : M V nat :=
  (* Get all nodes *)
  nodes <- vendor ListNodes ;;
  (* Create a frame *)
  nodes <- DataFrame nodes "node_object" ;;
  assign_apply nodes "node_id" "node_object" (fun x => py_getattr x "ID") ;;
  reset_column nodes "section_id" ;;
  reset_column nodes "latitude" ;;
  reset_column nodes "longitude" ;;
  reset_column nodes "distance" ;;
  for_itertuples nodes (fun node =>
    query_node_into nodes node "section_id" "SectionId" ;;
    query_node_into nodes node "latitude" "CoordY" ;;
    query_node_into nodes node "longitude" "CoordX" ;;
    query_node_into nodes node "distance" "Distance") ;;
  for_each ["latitude"] (fun column =>
    assign_apply nodes column column (cast_scaled (1.26 * 100000))) ;;
  for_each ["longitude"] (fun column =>
    assign_apply nodes column column (cast_scaled 100000)) ;;
  for_each ["distance"] (fun column =>
    assign_apply nodes column column cast_float) ;;
  ret nodes.

End Model.

(** ** Concrete vendors and runtimes for the examples *)

Module Demo.

(** A session without memory: the answer depends on the call alone. *)
Definition stateless (answer : call -> result pyval) : Cympy unit :=
  {| respond := fun v c => (answer c, v) |}.

(** A runtime that parses unsigned decimal integers only. *)
Fixpoint digits (acc : Z) (s : string) : option Z :=
  match s with
  | EmptyString => Some acc
  | String c s' =>
      let d := (Z.of_nat (Ascii.nat_of_ascii c) - 48)%Z in
      if ((0 <=? d) && (d <=? 9))%Z then digits (10 * acc + d)%Z s' else None
  end.

Definition parse_digits (s : string) : option Z :=
  match s with
  | EmptyString => None
  | _ => digits 0 s
  end.

Definition runtime : PyRuntime :=
  {| parse_float := fun s => inject_Z <$> parse_digits s;
     parse_int := parse_digits |}.

Definition world0 : world unit := {| session := tt; files := []; frames := [] |}.

(** A two-phase feeder: one network, every device on phases A and B,
    every node query answers its keyword. *)
Definition feeder (c : call) : result pyval :=
  match c with
  | ListNetworks => Ret (PyList [PyStr "FEEDER_1"; PyStr "FEEDER_2"])
  | AddDevice name _ _ _ => Ret (PyObj [("DeviceNumber", PyStr name)])
  | QueryInfoDevice "Phase" _ _ => Ret (PyStr "AB")
  | QueryInfoDevice _ _ _ => Ret (PyStr "7")
  | QueryInfoNode "KWB" _ => Ret (PyStr "")
  | QueryInfoNode "KWC" _ => Raise (VendorError 1)
  | QueryInfoNode keyword _ => Ret (PyStr keyword)
  | LoadFlow => Ret (PyObj [])
  | LoadAllocation => Ret (PyObj [])
  | ListNodes => Ret (PyList [PyObj [("ID", PyStr "N1")]; PyObj [("ID", PyStr "N2")]])
  | _ => Ret PyNone
  end.

(** A vendor whose queries all fail. *)
Definition failing (c : call) : result pyval :=
  match c with
  | QueryInfoDevice _ _ _ => Raise (VendorError 2)
  | QueryInfoNode _ _ => Raise (VendorError 2)
  | c => feeder c
  end.

(** The call of the docstring of [fmu_wrapper], with three output nodes
    for four output names. *)
Definition voltage_names : list string :=
  ["VMAG_A"; "VMAG_B"; "VMAG_C"; "VANG_A"; "VANG_B"; "VANG_C"].
Definition voltage_values : list Q := [2520; 2520; 2520; 0; -120; 120]%Q.

Definition fmu_example : M unit (list pyval) :=
  @fmu_wrapper unit (stateless feeder) "BU0001.sxst"
    voltage_names voltage_values
    ["800033503"] ["KW"] [100%Q]
    ["800033503"] ["KW"] [100%Q]
    ["KWA"; "KWB"; "KWC"; "KVARA"] ["800036819"; "800036819"; "800036819"]
    "False".

Definition fmu_example_trace : list event :=
  Eval vm_compute in snd (fmu_example world0).

(** One load of 100 kW, on a device that has the phases A and B. *)
Definition load_example : Load.t :=
  {| Load.section_id := "800033503"; Load.active_power := 100;
     Load.parameter_name := "KW" |}.

Definition load_example_trace : list event :=
  Eval vm_compute in
    snd (@_add_loads_body unit (stateless feeder) 0 load_example world0).

(** One PV of 100 kW. *)
Definition pv_example : Pv.t :=
  {| Pv.section_id := "800033503"; Pv.generation := 100;
     Pv.parameter_name := "KW" |}.

Definition pv_example_trace : list event :=
  Eval vm_compute in
    snd (@_add_pvs_body unit (stateless feeder) 0 pv_example world0).

(** A frame of two devices that already has a column [voltage_A], in a
    world that holds this frame alone. *)
Definition devices : frame :=
  {| index := [0; 1]%Z;
     columns := [("device_number", [PyStr "L1"; PyStr "L2"]);
                 ("device_type_id", [PyNum 10; PyNum 10]);
                 ("voltage_A", [PyNum 5; PyNum 6])] |}.

Definition world1 : world unit := {| session := tt; files := []; frames := [devices] |}.

(** Measured demand and source voltages for [load_allocation]. *)
Definition allocation_values : gmap string Q :=
  list_to_map
    [("P_A", 110%Q); ("Q_A", 12%Q); ("P_B", 120%Q); ("Q_B", 14%Q);
     ("P_C", 130%Q); ("Q_C", 16%Q);
     ("VMAG_A", 7200%Q); ("VMAG_B", 7210%Q); ("VMAG_C", 7190%Q)].

Definition allocation_example : M unit unit :=
  @load_allocation unit (stateless feeder) allocation_values.

Definition allocation_example_trace : list event :=
  Eval vm_compute in snd (allocation_example world0).

(** The coordinates of the two devices of [devices]. *)
Definition coordinates_example_world : world unit :=
  Eval vm_compute in
    snd (fst (@get_coordinates unit (stateless feeder) runtime 0 world1)).

Definition coordinates_example_trace : list event :=
  Eval vm_compute in
    snd (@get_coordinates unit (stateless feeder) runtime 0 world1).

(** A feeder whose nodes have coordinates: a node query answers 12, but for
    CoordX at node N2, which has none. *)
Definition surveyed (c : call) : result pyval :=
  match c with
  | QueryInfoNode "CoordX" (PyStr "N2") => Ret (PyStr "")
  | QueryInfoNode _ _ => Ret (PyStr "12")
  | c => feeder c
  end.

Definition nodes_example_world : world unit :=
  Eval vm_compute in snd (fst (@list_nodes unit (stateless surveyed) runtime world0)).

Definition nodes_example_trace : list event :=
  Eval vm_compute in snd (@list_nodes unit (stateless surveyed) runtime world0).

End Demo.

(** ** Vocabulary of the statements *)

(** The stage of [fmu_wrapper] a vendor call belongs to: open the model (0),
    set the source voltages (1), add loads (2), add PVs (3), run the load
    flow (4), query the outputs (5).  The two forms of [AddDevice] are told
    apart by the optional arguments that only [_add_loads] passes. *)
Definition phase (c : call) : nat :=
  match c with
  | Open _ => 0
  | ListNetworks => 1
  | SetValueTopo _ _ _ => 1
  | AddDevice _ _ _ (Some _) => 2
  | QueryInfoDevice _ _ _ => 2
  | SetValueDevice _ _ _ _ => 2
  | AddDevice _ _ _ None => 3
  | Device_SetValue _ _ _ => 3
  | LoadFlow => 4
  | LoadFlow_Run _ => 4
  | QueryInfoNode _ _ => 5
  | LoadAllocation => 6
  | LoadAllocation_SetDemand _ _ _ => 6
  | LoadAllocation_Run _ _ => 6
  | ListNodes => 6
  end.

Definition in_phase (p : nat) (ev : event) : Prop := phase (fst ev) = p.

(** Events in stage order: an earlier event never belongs to a later stage
    than a later event. *)
Definition stage_ordered (t : list event) : Prop :=
  StronglySorted (fun e1 e2 => phase (fst e1) <= phase (fst e2)) t.

(** Every event of [t] that satisfies [Q] comes after an event that
    satisfies [P]. *)
Definition preceded_by (P Q : event -> Prop) (t : list event) : Prop :=
  forall pre ev post, t = pre ++ ev :: post -> Q ev ->
    exists ev', In ev' pre /\ P ev'.

(** The [loads] and [pvs] variables of [fmu_wrapper]: [False] or a list. *)
Definition input_loads (load_sections load_parameter_names : list string)
    (load_values : list Q) : option (list Load.t) :=
  if (0 <? length load_sections)%nat
  then Some (_input_loads load_sections load_parameter_names load_values)
  else None.

Definition input_pvs (pv_sections pv_parameter_names : list string)
    (pv_values : list Q) : option (list Pv.t) :=
  if (0 <? length pv_sections)%nat
  then Some (_input_pvs pv_sections pv_parameter_names pv_values)
  else None.

(** The node queries of [_output_values], in input order. *)
Definition output_queries (output_nodes output_names : list string) : list call :=
  map (fun '(node_id, category) => QueryInfoNode category (PyStr node_id))
    (zip output_nodes output_names).

(** What [_output_values] appends for a response. *)
Definition default_fill (DEFAULT_VALUE : pyval) (r : result pyval) : pyval :=
  match r with
  | Ret temp => if py_truthy temp then temp else DEFAULT_VALUE
  | Raise _ => DEFAULT_VALUE
  end.

(** The source-voltage writes of a trace, in order. *)
Definition topo_write (c : call) : option (Q * string * pyval) :=
  match c with
  | SetValueTopo v k n => Some (v, k, n)
  | _ => None
  end.

Definition topo_writes (t : list event) : list (Q * string * pyval) :=
  omap topo_write (map fst t).

(** The event writes [VMAG_X / 1000] to the operating voltage of phase X of
    network [n0], for one of the three phases. *)
Definition writes_source_voltage (values : gmap string Q) (n0 : pyval)
    (ev : event) : Prop :=
  match fst ev with
  | SetValueTopo v k n =>
      n = n0 /\
      exists x, v = (x / 1000)%Q /\
        ((k = OperatingVoltage1 /\ values !! "VMAG_A" = Some x) \/
         (k = OperatingVoltage2 /\ values !! "VMAG_B" = Some x) \/
         (k = OperatingVoltage3 /\ values !! "VMAG_C" = Some x))
  | _ => False
  end.

(** The three writes [VMAG_X / 1000] to network [n0]. *)
Definition source_voltage_writes (vmag_a vmag_b vmag_c : Q) (n0 : pyval)
    : list (Q * string * pyval) :=
  [((vmag_a / 1000)%Q, OperatingVoltage1, n0);
   ((vmag_b / 1000)%Q, OperatingVoltage2, n0);
   ((vmag_c / 1000)%Q, OperatingVoltage3, n0)].

Definition source_voltage_calls (vmag_a vmag_b vmag_c : Q) (n0 : pyval) : list call :=
  [SetValueTopo (vmag_a / 1000) OperatingVoltage1 n0;
   SetValueTopo (vmag_b / 1000) OperatingVoltage2 n0;
   SetValueTopo (vmag_c / 1000) OperatingVoltage3 n0].

(** The demand meter that [load_allocation] has built when it reaches
    [SetDemand]: per phase, [Value1 = P_X] and [Value2 = Q_X]. *)
Definition expected_demand (values : gmap string Q) : Meter :=
  {| IsTotalDemand := Some false;
     DemandA := Some {| Value1 := values !! "P_A"; Value2 := values !! "Q_A" |};
     DemandB := Some {| Value1 := values !! "P_B"; Value2 := values !! "Q_B" |};
     DemandC := Some {| Value1 := values !! "P_C"; Value2 := values !! "Q_C" |};
     LoadValueType := Some LoadValueType_KW_KVAR |}.

(** What [load_allocation] may do once it has its solver [la] and the
    first network [n0]: assign the demand to [n0], write the source
    voltages of [n0], run the allocation on [[n0]]. *)
Definition allocates (values : gmap string Q) (la n0 : pyval) (ev : event) : Prop :=
  match fst ev with
  | LoadAllocation_SetDemand la' n d =>
      la' = la /\ n = n0 /\ d = expected_demand values
  | LoadAllocation_Run la' ns => la' = la /\ ns = [n0]
  | SetValueTopo _ _ _ => writes_source_voltage values n0 ev
  | _ => False
  end.

(** The calls of a [load_allocation] that returns. *)
Definition allocation_calls (values : gmap string Q) (la n0 : pyval)
    (vmag_a vmag_b vmag_c : Q) : list call :=
  [LoadAllocation; ListNetworks;
   LoadAllocation_SetDemand la n0 (expected_demand values)] ++
  source_voltage_calls vmag_a vmag_b vmag_c n0 ++
  [LoadAllocation_Run la [n0]].

(** The per-phase load writes of a trace, in order. *)
Definition kw_write (c : call) : option (Q * string * string * Z) :=
  match c with
  | SetValueDevice x k d ty => Some (x, k, d, ty)
  | _ => None
  end.

Definition kw_writes (t : list event) : list (Q * string * string * Z) :=
  omap kw_write (map fst t).

(** The attribute writes on PV devices of a trace, in order. *)
Definition pv_write (c : call) : option (pyval * Q * string) :=
  match c with
  | Device_SetValue device x k => Some (device, x, k)
  | _ => None
  end.

Definition pv_writes (t : list event) : list (pyval * Q * string) :=
  omap pv_write (map fst t).

(** A run of events of the stages [lo] to [hi], in stage order. *)
Definition block (lo hi : nat) (t : list event) : Prop :=
  Forall (fun ev => lo <= phase (fst ev) <= hi) t /\ stage_ordered t.

(** How far a sequence of stages got: [None] while nothing has raised. *)
Definition status_of {A} (r : result A) : option exn :=
  match r with
  | Ret _ => None
  | Raise e => Some e
  end.

(** [t] is what stage [m] emitted, given the status [s] before it: nothing
    when an earlier stage raised, the trace of a run of [m] otherwise. *)
Definition stage {V A} (m : M V A) (s : option exn) (t : list event)
    (s' : option exn) : Prop :=
  match s with
  | Some e => t = [] /\ s' = Some e
  | None => exists w r w', m w = (r, w', t) /\ s' = status_of r
  end.

(** [hoare P m Q E]: from a world that satisfies [P], the computation [m]
    either returns [a] in a world that satisfies [Q a], or raises in a
    world that satisfies [E]. *)
Definition hoare {V A} (P : world V -> Prop) (m : M V A)
    (Q : A -> world V -> Prop) (E : world V -> Prop) : Prop :=
  forall w, P w ->
    match m w with
    | (Ret a, w', _) => Q a w'
    | (Raise _, w', _) => E w'
    end.

(** [I] is an invariant of [m]: it holds after [m], however [m] ends. *)
Definition inv {V A} (I : world V -> Prop) (m : M V A) : Prop :=
  hoare I m (fun _ => I) I.

(** An invariant that does not look at the vendor session: vendor calls
    keep it. *)
Definition sessionless {V} (I : world V -> Prop) : Prop :=
  forall w v, I w -> I {| session := v; files := files w; frames := frames w |}.

(** The file system holds [fs]. *)
Definition files_are {V} (fs : list (string * list pyval)) (w : world V) : Prop :=
  files w = fs.

(** The world after a run. *)
Definition world_after {V A} (o : result A * world V * list event) : world V :=
  snd (fst o).

(** [m] has no handler for vendor exceptions: a vendor call that raises
    ends [m] with that exception. *)
Definition propagates {V A} (m : M V A) : Prop :=
  forall w r w' t c e, m w = (r, w', t) -> In (c, Raise e) t -> r = Raise e.

(** [m] issues no vendor call. *)
Definition silent {V A} (m : M V A) : Prop :=
  forall w, snd (m w) = [].

(** A response that [_output_values] replaces by the default. *)
Definition failed_or_falsy (rr : result pyval) : Prop :=
  (exists e, rr = Raise e) \/ (exists v, rr = Ret v /\ py_truthy v = false).

(** [f'] has the rows of [f0], in the same order, with every column of
    [f0] that is not named in [cols] unchanged, and it has no other column
    outside [cols]; the columns named in [made] exist in [f']. *)
Definition extends (cols made : list string) (f0 f' : frame) : Prop :=
  index f' = index f0 /\
  (forall c, ~ In c cols -> get_column c (columns f') = get_column c (columns f0)) /\
  (forall c, In c made -> is_Some (get_column c (columns f'))).

(** The frame behind the reference [r] is [f0]. *)
Definition intact {V} (r : nat) (f0 : frame) (w : world V) : Prop :=
  frames w !! r = Some f0.

(** The input frame is untouched and the frame behind [copy] is another
    object that extends it. *)
Definition copy_inv {V} (r copy : nat) (f0 : frame) (cols made : list string)
    (w : world V) : Prop :=
  r <> copy /\ intact r f0 w /\
  exists f', frames w !! copy = Some f' /\ extends cols made f0 f'.

(** The outcome [o] of a result-extraction function on the frame [f0]
    behind [r]: the input is unmodified, and a returned reference is a
    new frame that extends [f0] by the columns [cols]. *)
Definition extraction_ok {V} (cols : list string) (r : nat) (f0 : frame)
    (o : result nat * world V * list event) : Prop :=
  intact r f0 (world_after o) /\
  forall copy, fst (fst o) = Ret copy -> copy_inv r copy f0 cols cols (world_after o).


(** The answer of a query for [keyword], device or node. *)
Definition response (keyword : string) (ev : event) : option pyval :=
  match ev with
  | (QueryInfoDevice k _ _, Ret v) => if String.eqb k keyword then Some v else None
  | (QueryInfoNode k _, Ret v) => if String.eqb k keyword then Some v else None
  | _ => None
  end.

(** The answers to the queries for [keyword] in a trace, in order. *)
Definition responses (keyword : string) (t : list event) : list pyval :=
  omap (response keyword) t.

(** The coordinate conversion as the specification words it: latitude is
    [float(CoordY) / (1.26 * 100000)], longitude is [float(CoordX) / 100000],
    and the empty string is mapped to [None]. *)
Definition spec_latitude {py : PyRuntime} (CoordY : pyval) : result pyval :=
  if is_empty_str CoordY then Ret PyNone
  else match py_float CoordY with
       | Ret y => Ret (PyNum (y / (1.26 * 100000)))
       | Raise e => Raise e
       end.

Definition spec_longitude {py : PyRuntime} (CoordX : pyval) : result pyval :=
  if is_empty_str CoordX then Ret PyNone
  else match py_float CoordX with
       | Ret x => Ret (PyNum (x / 100000))
       | Raise e => Raise e
       end.

(** A successful query whose answer [x] is written at [label] in [column]
    of the frame behind [copy]. *)
Definition query_step {V} (copy : nat) (label : Z) (column keyword : string)
    (w w' : world V) (t : list event) : Prop :=
  exists f1 x c,
    frames w !! copy = Some f1 /\
    frames w' = <[copy := loc_set label column x f1]> (frames w) /\
    t = [(c, Ret x)] /\
    forall k, responses k t = if String.eqb keyword k then [x] else [].

(** The cells of a column of zeros of a frame with index [idx] after
    [.loc[label, column] = x] for the labels of [idx] and the values [xs],
    pairwise and in order.  A write goes to every row that bears the label,
    so among rows with the same label the last write stays. *)
Definition written (idx : list Z) (xs : list pyval) : list pyval :=
  fold_left (fun cells p => write_at (fst p) (snd p) idx cells) (zip idx xs)
    (repeat (PyNum 0) (length idx)).

(** After [k] rows of the query loop, [column] holds the answers to the
    queries for [keyword] so far, written at their labels. *)
Definition tracked {V} (copy : nat) (idx : list Z) (column keyword : string)
    (k : nat) (t : list event) (w : world V) : Prop :=
  exists f',
    frames w !! copy = Some f' /\ index f' = idx /\
    get_column column (columns f') = Some (written idx (responses keyword t)) /\
    length (responses keyword t) = k.

(** The frame behind [copy] has the index [idx] and the cells [cells] in
    [column]. *)
Definition column_is {V} (copy : nat) (idx : list Z) (column : string)
    (cells : list pyval) (w : world V) : Prop :=
  exists f',
    frames w !! copy = Some f' /\ index f' = idx /\
    get_column column (columns f') = Some cells.

(** The frame behind [r] has the index [idx]. *)
Definition index_is {V} (r : nat) (idx : list Z) (w : world V) : Prop :=
  exists f, frames w !! r = Some f /\ index f = idx.

(** [w'] is [w] with the frame [f1] behind [copy] replaced by [f2], which
    has the same index. *)
Definition update {V} (copy : nat) (w w' : world V) (f1 f2 : frame) : Prop :=
  frames w !! copy = Some f1 /\
  frames w' = <[copy := f2]> (frames w) /\
  index f2 = index f1.

(** In the frame behind [copy], there is one CoordY and one CoordX answer
    in [t] for each row, and the latitude and longitude columns are the
    conversions of these answers, written at the labels of their rows. *)
Definition converted {V} {py : PyRuntime} (copy : nat) (t : list event)
    (w : world V) : Prop :=
  exists f' latitude longitude,
    frames w !! copy = Some f' /\
    length (responses "CoordY" t) = length (index f') /\
    length (responses "CoordX" t) = length (index f') /\
    get_column "latitude" (columns f') = Some latitude /\
    get_column "longitude" (columns f') = Some longitude /\
    apply_cells spec_latitude (written (index f') (responses "CoordY" t))
      = Ret latitude /\
    apply_cells spec_longitude (written (index f') (responses "CoordX" t))
      = Ret longitude.

(** Every event that [m] emits satisfies [P], whatever the world. *)
Definition emits {V A} (P : event -> Prop) (m : M V A) : Prop :=
  forall w, Forall P (m w).2.

(** ** Vocabulary of the further properties *)

(** An answer with which [fmu_wrapper] goes on.  Of the calls that
    [fmu_wrapper] makes, none raises but, possibly, an output query, which
    [_output_values] handles; [ListNetworks] answers a first network, the
    phase query at least one phase, [AddDevice] of a PV and [LoadFlow] a
    vendor object. *)
Definition usable (c : call) (r : result pyval) : Prop :=
  match c with
  | ListNetworks => exists nets n0, r = Ret nets /\ py_getitem0 nets = Ret n0
  | QueryInfoDevice keyword _ _ =>
      exists x, r = Ret x /\
        (keyword = "Phase" -> exists p ps, py_list x = Ret (p :: ps))
  | AddDevice _ _ _ None => exists attrs, r = Ret (PyObj attrs)
  | LoadFlow => exists attrs, r = Ret (PyObj attrs)
  | Open _ | SetValueTopo _ _ _ | AddDevice _ _ _ (Some _)
  | SetValueDevice _ _ _ _ | Device_SetValue _ _ _ | LoadFlow_Run _ =>
      exists x, r = Ret x
  | _ => True
  end.

(** The sessions that satisfy [I] give answers that satisfy [U] and stay
    in [I]. *)
Definition answering {V} {cympy : Cympy V} (U : call -> result pyval -> Prop)
    (I : V -> Prop) : Prop :=
  forall v c, I v -> U c (fst (respond v c)) /\ I (snd (respond v c)).

(** From a session in [I], the computation [m] returns a value that
    satisfies [Q], in a session in [I]. *)
Definition runs {V A} (I : V -> Prop) (m : M V A) (Q : A -> Prop) : Prop :=
  forall w, I (session w) ->
    exists a w' t, m w = (Ret a, w', t) /\ I (session w') /\ Q a.

(** The first of VMAG_A, VMAG_B, VMAG_C that is not a key, and the number
    of source voltages written before it is looked up. *)
Definition missing_voltage (voltages : gmap string Q) : option (string * nat) :=
  match voltages !! "VMAG_A", voltages !! "VMAG_B", voltages !! "VMAG_C" with
  | None, _, _ => Some ("VMAG_A", 0)
  | Some _, None, _ => Some ("VMAG_B", 1)
  | Some _, Some _, None => Some ("VMAG_C", 2)
  | Some _, Some _, Some _ => None
  end.

(** The keys that [load_allocation] reads, in the order in which it reads
    them, and the first of them that is not a key of [values]. *)
Definition allocation_keys : list string :=
  ["P_A"; "Q_A"; "P_B"; "Q_B"; "P_C"; "Q_C"; "VMAG_A"; "VMAG_B"; "VMAG_C"].

Definition missing_key (values : gmap string Q) : option string :=
  find (fun k => match values !! k with None => true | Some _ => false end)
    allocation_keys.

(** An answer with which [load_allocation] goes on.  Of the calls that
    [load_allocation] makes, none raises; [LoadAllocation] answers a vendor
    object, [ListNetworks] a first network. *)
Definition usable_allocation (c : call) (r : result pyval) : Prop :=
  match c with
  | LoadAllocation => exists attrs, r = Ret (PyObj attrs)
  | ListNetworks => exists nets n0, r = Ret nets /\ py_getitem0 nets = Ret n0
  | SetValueTopo _ _ _ | LoadAllocation_SetDemand _ _ _ | LoadAllocation_Run _ _ =>
      exists x, r = Ret x
  | _ => True
  end.

(** In the frame behind [copy] there is one answer to the query for
    [keyword] in [t] for each row, and [column] holds the [cast] of these
    answers, written at the labels of their rows. *)
Definition filled {V} (cast : pyval -> result pyval) (copy : nat)
    (column keyword : string) (t : list event) (w : world V) : Prop :=
  exists f' cells,
    frames w !! copy = Some f' /\
    length (responses keyword t) = length (index f') /\
    get_column column (columns f') = Some cells /\
    apply_cells cast (written (index f') (responses keyword t)) = Ret cells.

(** The event is a query for one of [keywords]: a node query when [node]
    holds, a device query otherwise. *)
Definition queries (node : bool) (keywords : list string) (ev : event) : Prop :=
  match fst ev with
  | QueryInfoDevice k _ _ => node = false /\ In k keywords
  | QueryInfoNode k _ => node = true /\ In k keywords
  | _ => False
  end.

(** The vendor call that [query_device_into] and [query_node_into] make
    for a row: none when the row lacks the attribute, or when [int] fails
    on the device type. *)
Definition device_query {py : PyRuntime} (keyword : string) (value : row)
    : list call :=
  match row_attr value "device_number", row_attr value "device_type_id" with
  | Ret device_number, Ret device_type_id =>
      match py_int device_type_id with
      | Ret device_type => [QueryInfoDevice keyword device_number device_type]
      | Raise _ => []
      end
  | _, _ => []
  end.

Definition node_query (keyword : string) (value : row) : list call :=
  match row_attr value "node_id" with
  | Ret node_id => [QueryInfoNode keyword node_id]
  | Raise _ => []
  end.

(** The calls for one row: a query for each of [keywords], in order. *)
Definition row_queries {py : PyRuntime} (node : bool) (keywords : list string)
    (value : row) : list call :=
  flat_map (fun keyword =>
              if node then node_query keyword value else device_query keyword value)
    keywords.

(** The outcomes of [get_voltage] and of [get_distance] on the two devices
    of [Demo.devices]. *)
Definition voltage_example_world : world unit :=
  Eval vm_compute in
    snd (fst (@get_voltage unit (Demo.stateless Demo.feeder) Demo.runtime 0 false
                Demo.world1)).

Definition voltage_example_trace : list event :=
  Eval vm_compute in
    snd (@get_voltage unit (Demo.stateless Demo.feeder) Demo.runtime 0 false
           Demo.world1).

Definition distance_example_world : world unit :=
  Eval vm_compute in
    snd (fst (@get_distance unit (Demo.stateless Demo.feeder) Demo.runtime 0
                Demo.world1)).

Definition distance_example_trace : list event :=
  Eval vm_compute in
    snd (@get_distance unit (Demo.stateless Demo.feeder) Demo.runtime 0 Demo.world1).

(** The world in which an extraction function works, once it has copied
    its input in the world [w0]: the frames of [w0], then the copy. *)
Definition work {V} (w0 : world V) (s : V) (f : frame) : world V :=
  {| session := s; files := files w0; frames := frames w0 ++ [f] |}.

(** The frame after [frame[name] = cells]. *)
Definition assigned (name : string) (cells : list pyval) (f : frame) : frame :=
  {| index := index f; columns := put_column name cells (columns f) |}.

(** The cast lambdas accept the cell: it is the empty string, or [float]
    accepts it. *)
Definition castable {py : PyRuntime} (x : pyval) : Prop :=
  exists y, cast_float x = Ret y.

(** The columns [cols] of [f] are there, as long as the index, with cells
    that the cast lambdas accept. *)
Definition ready {py : PyRuntime} (cols : list string) (f : frame) : Prop :=
  forall c, In c cols ->
    exists cells, get_column c (columns f) = Some cells /\
      length cells = length (index f) /\ Forall castable cells.

(** An answer with which an extraction function goes on: a query does not
    raise, and its answer is accepted by the cast lambdas; the section is
    not cast. *)
Definition usable_query {py : PyRuntime} (c : call) (r : result pyval) : Prop :=
  match c with
  | QueryInfoDevice keyword _ _ | QueryInfoNode keyword _ =>
      exists x, r = Ret x /\ (keyword <> "SectionId" -> castable x)
  | _ => True
  end.

(** The row has what the queries read from it: a node identifier for a
    node query; a device number and a device type that [int] accepts for a
    device query. *)
Definition queried {py : PyRuntime} (node : bool) (value : row) : Prop :=
  if node then exists node_id, row_attr value "node_id" = Ret node_id
  else exists device_number device_type_id device_type,
         row_attr value "device_number" = Ret device_number /\
         row_attr value "device_type_id" = Ret device_type_id /\
         py_int device_type_id = Ret device_type.

(** A feeder with a meter on every device and node: every query answers 7. *)
Definition metered (c : call) : result pyval :=
  match c with
  | QueryInfoDevice _ _ _ => Ret (PyStr "7")
  | QueryInfoNode _ _ => Ret (PyStr "7")
  | c => Demo.feeder c
  end.

(** A world whose only frame has two columns and no row. *)
Definition no_devices : frame :=
  {| index := []; columns := [("device_number", []); ("voltage_A", [])] |}.

Definition empty_world : world unit :=
  {| session := tt; files := []; frames := [no_devices] |}.

(** The frames are those of [fs], and one more. *)
Definition grown {V} (fs : list frame) (w : world V) : Prop :=
  exists f, frames w = fs ++ [f].

(** The run [o] from [w] has allocated one frame and has left the frames
    of [w] as they were; a returned reference is the new frame. *)
Definition adds_a_frame {V} (w : world V) (o : result nat * world V * list event) : Prop :=
  grown (frames w) (world_after o) /\
  forall copy, fst (fst o) = Ret copy -> copy = length (frames w).

(** The outcome of [get_overload] on the frame that [get_voltage] returns
    for the two devices of [Demo.devices]. *)
Definition overload_example_world : world unit :=
  Eval vm_compute in
    snd (fst (@get_overload unit (Demo.stateless Demo.feeder) Demo.runtime 1
                voltage_example_world)).

Definition overload_example_trace : list event :=
  Eval vm_compute in
    snd (@get_overload unit (Demo.stateless Demo.feeder) Demo.runtime 1
           voltage_example_world).

(** * Properties *)

(** ** Reasoning about computations *)

Section Logic.
Context {V : Type} {cympy : Cympy V}.

Lemma bind_inv {A B} (m : M V A) (k : A -> M V B) w r w' t :
  bind m k w = (r, w', t) ->
  (exists e, m w = (Raise e, w', t) /\ r = Raise e) \/
  (exists a w1 t1 t2,
      m w = (Ret a, w1, t1) /\ k a w1 = (r, w', t2) /\ t = t1 ++ t2).
Proof.
  unfold bind. destruct (m w) as [[[a|e] w1] t1].
  - destruct (k a w1) as [[r2 w2] t2] eqn:Hk. intros [= <- <- <-].
    right. exists a, w1, t1, t2. auto.
  - intros [= <- <- <-]. left. eauto.
Qed.

Lemma bind_ret_inv {A B} (m : M V A) (k : A -> M V B) w b w' t :
  bind m k w = (Ret b, w', t) ->
  exists a w1 t1 t2,
    m w = (Ret a, w1, t1) /\ k a w1 = (Ret b, w', t2) /\ t = t1 ++ t2.
Proof.
  intros H. apply bind_inv in H as [(e & _ & [=])|H]. exact H.
Qed.

Lemma bind_ok {A B} (m : M V A) (k : A -> M V B) w a w1 t1 :
  m w = (Ret a, w1, t1) ->
  bind m k w = (let '(r, w2, t2) := k a w1 in (r, w2, t1 ++ t2)).
Proof. unfold bind. intros ->. destruct (k a w1) as [[? ?] ?]. reflexivity. Qed.

Lemma bind_raise {A B} (m : M V A) (k : A -> M V B) w e w1 t1 :
  m w = (Raise e, w1, t1) -> bind m k w = (Raise e, w1, t1).
Proof. unfold bind. intros ->. reflexivity. Qed.

Lemma bind_ext {A B} (m : M V A) (k1 k2 : A -> M V B) w :
  (forall a w1, k1 a w1 = k2 a w1) -> bind m k1 w = bind m k2 w.
Proof.
  intros H. unfold bind. destruct (m w) as [[[a|e] w1] t1]; [|reflexivity].
  rewrite H. reflexivity.
Qed.

Lemma vendor_inv c w r w' t :
  vendor c w = (r, w', t) ->
  t = [(c, r)] /\ files w' = files w /\ frames w' = frames w /\
  respond (session w) c = (r, session w').
Proof.
  unfold vendor. destruct (respond (session w) c) as [r1 v1] eqn:E.
  intros [= <- <- <-]. simpl. auto.
Qed.

Lemma lift_inv {A} (x : result A) w r w' t :
lift (V:=V) x w = (r, w', t) -> x = r /\ w' = w /\ t = [].
Proof. unfold lift. intros [= <- <- <-]. auto. Qed.

Lemma ret_inv {A} (x : A) (w : world V) r w' t :
  ret x w = (r, w', t) -> r = Ret x /\ w' = w /\ t = [].
Proof. unfold ret. intros [= <- <- <-]. auto. Qed.

Lemma raise_inv {A} e (w : world V) (r : result A) w' t :
  raise e w = (r, w', t) -> r = Raise e /\ w' = w /\ t = [].
Proof. unfold raise. intros [= <- <- <-]. auto. Qed.

Lemma getitem_inv d key (w : world V) r w' t :
  getitem d key w = (r, w', t) ->
  w' = w /\ t = [] /\
  ((exists x, d !! key = Some x /\ r = Ret x) \/
   (d !! key = None /\ r = Raise (KeyError key))).
Proof.
  unfold getitem. destruct (d !! key) as [x|].
  - intros H. apply ret_inv in H as (-> & -> & ->). eauto 6.
  - intros H. apply raise_inv in H as (-> & -> & ->). auto.
Qed.

Lemma divide_inv a n (w : world V) r w' t :
  divide a n w = (r, w', t) ->
  w' = w /\ t = [] /\
  ((n = O /\ r = Raise ZeroDivisionError) \/
   (n <> O /\ r = Ret (a / inject_Z (Z.of_nat n))%Q)).
Proof.
  destruct n; simpl; intros H.
  - apply raise_inv in H as (-> & -> & ->). auto.
  - apply ret_inv in H as (-> & -> & ->). auto.
Qed.

(** *** Every emitted event satisfies [P] *)

Lemma emits_ret {A} P (a : A) : emits P (ret (V:=V) a).
Proof. intros w. constructor. Qed.

Lemma emits_raise {A} P e : emits P (@raise V A e).
Proof. intros w. constructor. Qed.

Lemma emits_lift {A} P (x : result A) : emits P (lift (V:=V) x).
Proof. intros w. constructor. Qed.

Lemma emits_vendor P c : (forall r, P (c, r)) -> emits P (vendor c).
Proof.
  intros H w. unfold vendor. destruct (respond (session w) c). simpl.
  constructor; [apply H | constructor].
Qed.

Lemma emits_bind {A B} P (m : M V A) (k : A -> M V B) :
  emits P m -> (forall a, emits P (k a)) -> emits P (bind m k).
Proof.
  intros Hm Hk w. unfold bind. specialize (Hm w).
  destruct (m w) as [[[a|e] w1] t1]; simpl in *; [|exact Hm].
  specialize (Hk a w1). destruct (k a w1) as [[r2 w2] t2]. simpl in *.
  apply Forall_app. auto.
Qed.

Lemma emits_try {A} P (m h : M V A) :
  emits P m -> emits P h -> emits P (try_except m h).
Proof.
  intros Hm Hh w. unfold try_except. specialize (Hm w).
  destruct (m w) as [[[a|e] w1] t1]; simpl in *; [exact Hm|].
  specialize (Hh w1). destruct (h w1) as [[r2 w2] t2]. simpl in *.
  apply Forall_app. auto.
Qed.

Lemma emits_for_each {A} P (xs : list A) (body : A -> M V unit) :
  (forall x, emits P (body x)) -> emits P (for_each xs body).
Proof.
  intros H. induction xs as [|x xs IH]; simpl.
  - apply emits_ret.
  - apply emits_bind; auto.
Qed.

Lemma emits_for_fold {A S} P (xs : list A) (acc : S) (body : S -> A -> M V S) :
  (forall s x, emits P (body s x)) -> emits P (for_fold xs acc body).
Proof.
  intros H. revert acc. induction xs as [|x xs IH]; intros acc; simpl.
  - apply emits_ret.
  - apply emits_bind; auto.
Qed.

Lemma emits_method P obj name (args : M V call) :
  emits P args -> (forall c r, P (c, r)) -> emits P (method obj name args).
Proof.
  intros Ha Hc. unfold method. destruct (is_obj obj).
  - apply emits_bind; [exact Ha|]. intros c. apply emits_vendor. auto.
  - apply emits_raise.
Qed.

Lemma emits_method_ret P obj name c :
  (forall r, P (c, r)) -> emits P (method obj name (ret c)).
Proof.
  intros Hc. unfold method. destruct (is_obj obj).
  - intros w. unfold bind, ret at 1. specialize (emits_vendor P c Hc w).
    destruct (vendor c w) as [[? ?] ?]. auto.
  - apply emits_raise.
Qed.

Lemma emits_when {A} P b (m : M V A) : emits P m -> emits P (when b m).
Proof.
  intros H. unfold when. destruct b.
  - apply emits_bind; [exact H|]. intros _. apply emits_ret.
  - apply emits_ret.
Qed.

Lemma emits_getitem P d key : emits P (getitem (V:=V) d key).
Proof.
  unfold getitem. destruct (d !! key); [apply emits_ret | apply emits_raise].
Qed.

Lemma emits_divide P a n : emits P (divide (V:=V) a n).
Proof. destruct n; [apply emits_raise | apply emits_ret]. Qed.

Lemma emits_weaken {A} (P Q : event -> Prop) (m : M V A) :
  (forall ev, P ev -> Q ev) -> emits P m -> emits Q m.
Proof. intros H Hm w. eapply Forall_impl; [apply Hm | exact H]. Qed.

Lemma emits_run {A} P (m : M V A) w r w' t :
  emits P m -> m w = (r, w', t) -> Forall P t.
Proof. intros H E. specialize (H w). rewrite E in H. exact H. Qed.

End Logic.

Ltac unify_results :=
  repeat match goal with
    | H1 : ?t = Ret ?a, H2 : ?t = Ret ?b |- _ => rewrite H1 in H2; simplify_eq
    | H1 : ?t = Ret ?a, H2 : ?t = Raise _ |- _ => rewrite H1 in H2; discriminate
    end.

(** Run a straight-line computation backwards from its outcome [H]: one
    case per place where it can stop. *)
Ltac inv_leaf H :=
  lazymatch type of H with
  | bind _ _ _ = _ => inv_run H
  | vendor _ _ = _ =>
      apply vendor_inv in H as (? & ? & ? & ?); simplify_eq
  | getitem _ _ _ = _ =>
      apply getitem_inv in H as (? & ? & [(? & ? & ?)|(? & ?)]); simplify_eq
  | divide _ _ _ = _ =>
      apply divide_inv in H as (? & ? & [(? & ?)|(? & ?)]); simplify_eq
  | lift _ _ = _ => apply lift_inv in H as (? & ? & ?); simplify_eq; unify_results
  | ret _ _ = _ => apply ret_inv in H as (? & ? & ?); simplify_eq
  | raise _ _ = _ => apply raise_inv in H as (? & ? & ?); simplify_eq
  | method ?obj _ _ _ = _ =>
      unfold method in H; destruct (is_obj obj) eqn:?; inv_leaf H
  | in_demand _ _ _ _ _ _ = _ => cbn in H; inv_leaf H
  | _ => idtac
  end
with inv_run H :=
  lazymatch type of H with
  | bind _ _ _ = _ =>
      let Hm := fresh "Hm" in
      let Er := fresh "Er" in
      apply bind_inv in H as [(? & Hm & Er)|(? & ? & ? & ? & Hm & H & Er)];
      [ first [discriminate Er | simplify_eq; inv_leaf Hm]
      | simplify_eq; inv_leaf Hm; inv_run H ]
  | _ => inv_leaf H
  end.

Create HintDb emits.
#[global] Hint Resolve emits_ret emits_raise emits_lift emits_getitem emits_divide : emits.

(** ** Lists of events *)

Section Lists.
Context {A : Type}.

Lemma sorted_app (R : A -> A -> Prop) (l1 l2 : list A) :
  StronglySorted R l1 -> StronglySorted R l2 ->
  (forall x y, In x l1 -> In y l2 -> R x y) ->
  StronglySorted R (l1 ++ l2).
Proof.
  intros H1 H2 H. induction H1 as [|x l1 H1 IH Hx]; simpl; [exact H2|].
  constructor.
  - apply IH. intros a b Ha Hb. apply H; simpl; auto.
  - apply Forall_app. split; [exact Hx|].
    apply List.Forall_forall. intros y Hy. apply H; simpl; auto.
Qed.

(** A split of [l1 ++ l2] at an element that cannot be in [l1] falls
    in [l2]. *)
Lemma split_after (P : A -> Prop) (l1 l2 pre post : list A) (x : A) :
  l1 ++ l2 = pre ++ x :: post -> Forall (fun y => ~ P y) l1 -> P x ->
  exists mid, pre = l1 ++ mid /\ l2 = mid ++ x :: post.
Proof.
  revert pre. induction l1 as [|y l1 IH]; intros pre E Hn Hx; simpl in *.
  - exists pre. auto.
  - destruct pre as [|z pre]; simpl in E.
    + injection E as -> _. inversion Hn; subst. contradiction.
    + injection E as -> E. inversion Hn; subst.
      destruct (IH pre E) as (mid & -> & ->); auto.
      exists mid. auto.
Qed.

End Lists.

(** ** The stages of [fmu_wrapper] *)

Section Stages.
Context {V : Type} {cympy : Cympy V}.

Lemma stage_emits {A} P (m : M V A) s t s' :
  emits P m -> stage m s t s' -> Forall P t.
Proof.
  intros Hm. destruct s as [e|]; simpl.
  - intros [-> _]. constructor.
  - intros (w & r & w' & E & _). eapply emits_run; eauto.
Qed.

Lemma stage_ok {A} (m : M V A) s t :
  stage m s t None -> s = None /\ exists w a w', m w = (Ret a, w', t).
Proof.
  destruct s as [e|]; simpl.
  - intros [_ [=]].
  - intros (w & [a|e] & w' & E & [=]). eauto 6.
Qed.

Lemma stage_reached {A} (m : M V A) s t s' :
  stage m s t s' -> t <> [] -> s = None.
Proof. destruct s as [e|]; simpl; [intros [-> _] []; reflexivity | reflexivity]. Qed.

Lemma stage_raised {A} (m : M V A) s t e :
  stage m s t (Some e) ->
  s = Some e \/ (s = None /\ exists w w', m w = (Raise e, w', t)).
Proof.
  destruct s as [e0|]; simpl.
  - intros [_ [= ->]]. auto.
  - intros (w & [a|e1] & w' & E & [=]). subst. right. eauto.
Qed.

Lemma bind_when_write {B} b f (k : unit -> M V B) w :
  bind (when b (_write_results f)) k w = k tt w.
Proof.
  unfold when, _write_results, bind, ret. destruct b; simpl;
    destruct (k tt w) as [[? ?] ?]; reflexivity.
Qed.

Ltac stage_done :=
  unfold stage; simpl;
  first [ split; reflexivity
        | do 3 eexists; split; [eassumption | reflexivity] ].

Lemma fmu_wrapper_stages f vn vv ls lpn lv ps ppn pv on ono wr w r w' t :
  fmu_wrapper f vn vv ls lpn lv ps ppn pv on ono wr w = (r, w', t) ->
  exists t0 t1 t2 t3 t4 t5 s0 s1 s2 s3 s4,
    stage (vendor (Open f)) None t0 s0 /\
    stage (_set_voltages (_input_voltages vn vv)) s0 t1 s1 /\
    stage (set_new_loads (input_loads ls lpn lv)) s1 t2 s2 /\
    stage (set_new_pvs (input_pvs ps ppn pv)) s2 t3 s3 /\
    stage run_power_flow s3 t4 s4 /\
    match s4 with
    | Some e => t5 = [] /\ r = Raise e
    | None => exists w4, _output_values ono on (PyNum 0) w4 = (r, w', t5)
    end /\
    t = t0 ++ t1 ++ t2 ++ t3 ++ t4 ++ t5.
Proof.
  unfold fmu_wrapper. cbv zeta.
  fold (input_loads ls lpn lv). fold (input_pvs ps ppn pv).
  intros H.
  apply bind_inv in H as [(e & H0 & ->)|(a0 & w0 & t0 & r0 & H0 & H & ->)].
  { exists t, [], [], [], [], [], (Some e), (Some e), (Some e), (Some e), (Some e).
    repeat (split; [stage_done|]). now rewrite !app_nil_r. }
  apply bind_inv in H as [(e & H1 & ->)|(a1 & w1 & t1 & r1 & H1 & H & ->)].
  { exists t0, r0, [], [], [], [], None, (Some e), (Some e), (Some e), (Some e).
    repeat (split; [stage_done|]). now rewrite !app_nil_r. }
  apply bind_inv in H as [(e & H2 & ->)|(a2 & w2 & t2 & r2 & H2 & H & ->)].
  { exists t0, t1, r1, [], [], [], None, None, (Some e), (Some e), (Some e).
    repeat (split; [stage_done|]). now rewrite !app_nil_r. }
  apply bind_inv in H as [(e & H3 & ->)|(a3 & w3 & t3 & r3 & H3 & H & ->)].
  { exists t0, t1, t2, r2, [], [], None, None, None, (Some e), (Some e).
    repeat (split; [stage_done|]). now rewrite !app_nil_r. }
  apply bind_inv in H as [(e & H4 & ->)|(a4 & w4 & t4 & r4 & H4 & H & ->)].
  { exists t0, t1, t2, t3, r3, [], None, None, None, None, (Some e).
    repeat (split; [stage_done|]). now rewrite !app_nil_r. }
  rewrite bind_when_write in H.
  exists t0, t1, t2, t3, t4, r4, None, None, None, None, None.
  repeat (split; [stage_done|]).
  split; [|reflexivity].
  apply bind_inv in H as [(e & H5 & ->)|(a5 & w5 & t5 & r5 & H5 & H & ->)].
  - eauto.
  - apply ret_inv in H as (-> & -> & ->). rewrite app_nil_r. eauto.
Qed.

End Stages.

(** ** The blocks of [fmu_wrapper], one by one *)

Section Blocks.
Context {V : Type} {cympy : Cympy V}.

Ltac emits_step :=
  first
    [ apply emits_ret | apply emits_raise | apply emits_lift
    | apply emits_getitem | apply emits_divide
    | apply emits_vendor; intros; reflexivity
    | apply emits_method_ret; intros; reflexivity
    | apply emits_bind; [|intros]
    | apply emits_for_each; intros
    | apply emits_when ].

Lemma open_phase f : emits (in_phase 0) (vendor (V:=V) (Open f)).
Proof. repeat emits_step. Qed.

Lemma _set_voltages_phase voltages : emits (in_phase 1) (_set_voltages (V:=V) voltages).
Proof. unfold _set_voltages. repeat emits_step. Qed.

Lemma _add_loads_body_phase index load :
  emits (in_phase 2) (_add_loads_body (V:=V) index load).
Proof. unfold _add_loads_body. repeat emits_step. Qed.

Lemma set_new_loads_phase loads : emits (in_phase 2) (set_new_loads (V:=V) loads).
Proof.
  unfold set_new_loads, _add_loads. destruct loads as [[|l loads]|]; repeat emits_step.
  destruct x. apply _add_loads_body_phase.
Qed.

Lemma _add_pvs_body_phase index pv :
  emits (in_phase 3) (_add_pvs_body (V:=V) index pv).
Proof. unfold _add_pvs_body. repeat emits_step. Qed.

Lemma set_new_pvs_phase pvs : emits (in_phase 3) (set_new_pvs (V:=V) pvs).
Proof.
  unfold set_new_pvs, _add_pvs. destruct pvs as [[|p pvs]|]; repeat emits_step.
  destruct x. apply _add_pvs_body_phase.
Qed.

Lemma run_power_flow_phase : emits (in_phase 4) (run_power_flow (V:=V)).
Proof. unfold run_power_flow. repeat emits_step. Qed.

(** The output extraction never raises: it asks one query per pair, in
    order, and fills in the default for a failed or falsy answer. *)
Lemma _output_values_run output_nodes output_names d (w : world V) :
  exists w' t,
    _output_values output_nodes output_names d w
      = (Ret (map (fun ev => default_fill d (snd ev)) t), w', t) /\
    map fst t = output_queries output_nodes output_names.
Proof.
  unfold _output_values, output_queries.
  match goal with |- context [for_fold _ _ ?b] => set (body := b) end.
  assert (Hbody : forall output n c (w0 : world V), exists r w1,
    body output (n, c) w0
      = (Ret (output ++ [default_fill d r]), w1, [(QueryInfoNode c (PyStr n), r)])).
  { intros output n c w0. unfold body, try_except, bind, vendor.
    destruct (respond (session w0) (QueryInfoNode c (PyStr n))) as [[temp|e] v1];
      simpl.
    - destruct (py_truthy temp) eqn:T; simpl; exists (Ret temp); eexists; simpl;
        rewrite T; reflexivity.
    - exists (Raise e). eexists. reflexivity. }
  clearbody body.
  enough (G : forall xs (w0 : world V) acc, exists w' t,
    for_fold xs acc body w0
      = (Ret (acc ++ map (fun ev : event => default_fill d (snd ev)) t), w', t) /\
    map fst t = map (fun '(node_id, category) =>
                       QueryInfoNode category (PyStr node_id)) xs).
  { apply (G _ w []). }
  induction xs as [|[n c] xs IH]; intros w0 acc; simpl.
  - exists w0, []. simpl. rewrite app_nil_r. auto.
  - destruct (Hbody acc n c w0) as (r & w1 & E).
    rewrite (bind_ok _ _ _ _ _ _ E).
    destruct (IH w1 (acc ++ [default_fill d r])) as (w2 & t2 & -> & E2).
    exists w2, ((QueryInfoNode c (PyStr n), r) :: t2). simpl.
    rewrite <- app_assoc, E2. auto.
Qed.

Lemma _output_values_phase output_nodes output_names d :
  emits (in_phase 5) (_output_values (V:=V) output_nodes output_names d).
Proof.
  intros w. destruct (_output_values_run output_nodes output_names d w)
    as (w' & t & -> & E). simpl.
  unfold output_queries in E. revert E. generalize (zip output_nodes output_names).
  induction t as [|ev t IH]; intros [|[n c] l]; simpl; intros [=]; constructor.
  - unfold in_phase. rewrite H. reflexivity.
  - eauto.
Qed.

(** A load flow that returns has created the solver and run it. *)
Lemma run_power_flow_ok (w : world V) a w' t :
  run_power_flow w = (Ret a, w', t) ->
  exists lf x, t = [(LoadFlow, Ret lf); (LoadFlow_Run lf, Ret x)].
Proof.
  unfold run_power_flow. intros H.
  apply bind_ret_inv in H as (lf & w1 & t1 & t2 & H1 & H & ->).
  apply bind_ret_inv in H as (x & w2 & t3 & t4 & H2 & H & ->).
  apply ret_inv in H as (_ & _ & ->).
  apply vendor_inv in H1 as (-> & _).
  unfold method in H2. destruct (is_obj lf); [|discriminate].
  apply bind_ret_inv in H2 as (c & w3 & t5 & t6 & H3 & H4 & ->).
  apply ret_inv in H3 as ([= ->] & -> & ->).
  apply vendor_inv in H4 as (-> & _). simpl. eauto.
Qed.

Ltac run_vendor :=
  repeat (cbn [fst snd app session files frames];
    match goal with
    | |- context [respond ?s ?c] =>
        let r := fresh "r" in let s' := fresh "s" in
        destruct (respond s c) as [[r|?] s'] eqn:?
    | |- context [py_getitem0 ?x] => destruct (py_getitem0 x) eqn:?
    end).

(** [_set_voltages] lists the networks once, then writes to the first
    one only. *)
Lemma _set_voltages_run voltages (w : world V) r w' t :
  _set_voltages voltages w = (r, w', t) ->
  exists rn t',
    t = (ListNetworks, rn) :: t' /\
    (t' <> [] -> exists nets n0,
        rn = Ret nets /\ py_getitem0 nets = Ret n0 /\
        Forall (writes_source_voltage voltages n0) t') /\
    (forall x, r = Ret x -> exists nets n0 a b c,
        rn = Ret nets /\ py_getitem0 nets = Ret n0 /\
        voltages !! "VMAG_A" = Some a /\ voltages !! "VMAG_B" = Some b /\
        voltages !! "VMAG_C" = Some c /\
        map fst t' = source_voltage_calls a b c n0).
Proof.
  unfold _set_voltages, getitem.
  destruct (voltages !! "VMAG_A") as [a|] eqn:Ea;
    destruct (voltages !! "VMAG_B") as [b|] eqn:Eb;
    destruct (voltages !! "VMAG_C") as [c|] eqn:Ec.
  all: unfold bind, vendor, lift, ret, raise.
  all: run_vendor.
  all: intros [= <- <- <-].
  all: eexists _, _; split; [reflexivity|]; split.
  all: try solve [intros Hne; exfalso; apply Hne; reflexivity].
  all: try solve [intros x [=]].
  all: try solve [intros _; eexists _, _; split; [reflexivity|]; split; [eassumption|];
    repeat (apply List.Forall_cons;
            [unfold writes_source_voltage; simpl; split; [reflexivity|];
             eexists; split; [reflexivity|]; eauto 7|]);
    apply List.Forall_nil].
  intros x _. eexists _, _, _, _, _. repeat (split; [eauto; fail|]). reflexivity.
Qed.

Lemma open_ok f (w : world V) a w' t :
  vendor (Open f) w = (Ret a, w', t) -> t = [(Open f, Ret a)].
Proof. intros H. apply vendor_inv in H as (-> & _). reflexivity. Qed.

End Blocks.

(** ** The call sequence of [fmu_wrapper] *)

Section Order.
Context {V : Type} {cympy : Cympy V}.

Lemma block_const p t : Forall (in_phase p) t -> block p p t.
Proof.
  unfold block, stage_ordered, in_phase. induction 1 as [|ev t Hev Ht [IH1 IH2]].
  - split; constructor.
  - split; constructor; auto; try lia.
    eapply Forall_impl; [exact Ht|]. simpl. intros ev' ->. lia.
Qed.

Lemma block_app lo mid hi t1 t2 :
  lo <= mid -> mid <= hi ->
  block lo mid t1 -> block mid hi t2 -> block lo hi (t1 ++ t2).
Proof.
  intros Hlo Hhi [B1 S1] [B2 S2]. split.
  - apply Forall_app. split.
    + eapply Forall_impl; [exact B1|]. simpl. intros; lia.
    + eapply Forall_impl; [exact B2|]. simpl. intros; lia.
  - apply sorted_app; auto. intros x y Hx Hy.
    rewrite List.Forall_forall in B1, B2.
    specialize (B1 x Hx). specialize (B2 y Hy). simpl in *. lia.
Qed.

Lemma block_nil lo hi : block lo hi [].
Proof. split; constructor. Qed.

Lemma set_new_loads_reached loads (w : world V) r w' t :
  set_new_loads loads w = (r, w', t) -> t <> [] ->
  exists l ls, loads = Some (l :: ls).
Proof.
  destruct loads as [[|l ls]|]; simpl; eauto.
  all: intros H Hne; apply ret_inv in H as (_ & _ & ->); contradiction.
Qed.

Lemma set_new_pvs_reached pvs (w : world V) r w' t :
  set_new_pvs pvs w = (r, w', t) -> t <> [] ->
  exists p ps, pvs = Some (p :: ps).
Proof.
  destruct pvs as [[|p ps]|]; simpl; eauto.
  all: intros H Hne; apply ret_inv in H as (_ & _ & ->); contradiction.
Qed.

Lemma input_loads_some ls lpn lv l : input_loads ls lpn lv = Some l -> ls <> [].
Proof. unfold input_loads. destruct ls; simpl; [discriminate|discriminate]. Qed.

Lemma input_pvs_some ps ppn pv l : input_pvs ps ppn pv = Some l -> ps <> [].
Proof. unfold input_pvs. destruct ps; simpl; [discriminate|discriminate]. Qed.

Lemma stage_nonempty {A} (m : M V A) s t s' ev :
  stage m s t s' -> In ev t -> exists w r w', m w = (r, w', t) /\ s = None.
Proof.
  destruct s as [e|]; simpl.
  - intros [-> _] [].
  - intros (w & r & w' & E & _) _. eauto 6.
Qed.

End Order.

Section FmuWrapper.
Context {V : Type} {cympy : Cympy V}.

(** The trace of a call of [fmu_wrapper], stage by stage. *)
Lemma fmu_wrapper_phases f vn vv ls lpn lv ps ppn pv on ono wr (w : world V) r w' t :
  fmu_wrapper f vn vv ls lpn lv ps ppn pv on ono wr w = (r, w', t) ->
  exists t0 t1 t2 t3 t4 t5 s0 s1 s2 s3 s4,
    (stage (vendor (Open f)) None t0 s0 /\
     stage (_set_voltages (_input_voltages vn vv)) s0 t1 s1 /\
     stage (set_new_loads (input_loads ls lpn lv)) s1 t2 s2 /\
     stage (set_new_pvs (input_pvs ps ppn pv)) s2 t3 s3 /\
     stage run_power_flow s3 t4 s4 /\
     match s4 with
     | Some e => t5 = [] /\ r = Raise e
     | None => exists w4, _output_values ono on (PyNum 0) w4 = (r, w', t5)
     end) /\
    (Forall (in_phase 0) t0 /\ Forall (in_phase 1) t1 /\ Forall (in_phase 2) t2 /\
     Forall (in_phase 3) t3 /\ Forall (in_phase 4) t4 /\ Forall (in_phase 5) t5) /\
    t = t0 ++ t1 ++ t2 ++ t3 ++ t4 ++ t5.
Proof.
  intros H. apply fmu_wrapper_stages in H
    as (t0 & t1 & t2 & t3 & t4 & t5 & s0 & s1 & s2 & s3 & s4
        & H0 & H1 & H2 & H3 & H4 & H5 & ->).
  exists t0, t1, t2, t3, t4, t5, s0, s1, s2, s3, s4.
  split; [auto 10|]. split; [|reflexivity].
  split; [eapply stage_emits; [apply open_phase | exact H0]|].
  split; [eapply stage_emits; [apply _set_voltages_phase | exact H1]|].
  split; [eapply stage_emits; [apply set_new_loads_phase | exact H2]|].
  split; [eapply stage_emits; [apply set_new_pvs_phase | exact H3]|].
  split; [eapply stage_emits; [apply run_power_flow_phase | exact H4]|].
  destruct s4 as [e|].
  - destruct H5 as [-> _]. constructor.
  - destruct H5 as (w4 & H5). eapply emits_run; [apply _output_values_phase | exact H5].
Qed.

Lemma in_phase_no p q (t : list event) :
  p <> q -> Forall (in_phase p) t -> Forall (fun ev => ~ in_phase q ev) t.
Proof.
  intros Hpq Ht. eapply Forall_impl; [exact Ht|]. unfold in_phase. simpl.
  intros ev -> E. auto.
Qed.


End FmuWrapper.


(** ** [load_allocation] *)

Section LoadAllocation.
Context {V : Type} {cympy : Cympy V}.

Ltac allocates_event :=
  unfold allocates, writes_source_voltage, expected_demand; simpl;
  repeat match goal with E : _ !! _ = Some _ |- _ => rewrite E end;
  first
    [ split; [reflexivity|]; split; reflexivity
    | split; [reflexivity|]; eexists; split; [reflexivity|]; eauto 7
    | split; reflexivity ].

Lemma load_allocation_run values (w : world V) r w' t :
  load_allocation values w = (r, w', t) ->
  exists rla rn t',
    (t = [(LoadAllocation, rla)] \/ t = (LoadAllocation, rla) :: (ListNetworks, rn) :: t') /\
    (t' <> [] -> exists la nets n0,
        rla = Ret la /\ rn = Ret nets /\ py_getitem0 nets = Ret n0 /\
        Forall (allocates values la n0) t') /\
    (forall x, r = Ret x -> exists la nets n0 a b c,
        rla = Ret la /\ rn = Ret nets /\ py_getitem0 nets = Ret n0 /\
        values !! "VMAG_A" = Some a /\ values !! "VMAG_B" = Some b /\
        values !! "VMAG_C" = Some c /\
        map fst t = allocation_calls values la n0 a b c).
Proof.
  intros H. unfold load_allocation in H. inv_run H.
  all: simpl.
  all: first
    [ eexists _, (Ret PyNone), []; split; [left; reflexivity|]
    | eexists _, _, _; split; [right; reflexivity|] ].
  all: split;
    [ first
        [ intros Hn; now destruct Hn
        | intros _; eexists _, _, _;
          split; [reflexivity|]; split; [reflexivity|];
          split; [first [eassumption | symmetry; eassumption]|];
          repeat (apply List.Forall_cons; [allocates_event|]);
          apply List.Forall_nil
        | idtac ]
    | intros u Hu; try discriminate Hu ].
  eexists _, _, _, _, _, _.
  repeat (split; [first [reflexivity | eassumption | symmetry; eassumption]|]).
  unfold allocation_calls, expected_demand. simpl.
  repeat match goal with E : values !! _ = Some _ |- _ => rewrite E; clear E end.
  reflexivity.
Qed.

End LoadAllocation.

(** ** Source voltages *)

Section SourceVoltage.
Context {V : Type} {cympy : Cympy V}.

Lemma topo_writes_app t1 t2 : topo_writes (t1 ++ t2) = topo_writes t1 ++ topo_writes t2.
Proof. unfold topo_writes. rewrite map_app. apply omap_app. Qed.

Lemma topo_writes_other p t : p <> 1 -> Forall (in_phase p) t -> topo_writes t = [].
Proof.
  intros Hp. unfold topo_writes, in_phase. induction 1 as [|[c r] t Hc _ IH]; simpl.
  - reflexivity.
  - simpl in Hc. destruct c; simpl in Hc; try congruence; exact IH.
Qed.

Lemma topo_writes_calls a b c n0 (t : list event) :
  map fst t = source_voltage_calls a b c n0 ->
  topo_writes t = source_voltage_writes a b c n0.
Proof. unfold topo_writes. intros ->. reflexivity. Qed.

(** C4. Source-voltage unit conversion.  In [fmu_wrapper] (through
    [_set_voltages]) and in [load_allocation], every write of a source
    operating voltage goes to the first network returned by [ListNetworks]
    and, for one of the phases X in A, B, C, writes [VMAG_X / 1000] to the
    operating voltage of phase X.  A call that returns has made exactly the
    three writes, A then B then C. *)
Theorem C4_source_voltage_in_kilovolts :
  (forall f vn vv ls lpn lv ps ppn pv on ono wr (w : world V) r w' t,
      fmu_wrapper f vn vv ls lpn lv ps ppn pv on ono wr w = (r, w', t) ->
      (forall v k n rr, In (SetValueTopo v k n, rr) t ->
         exists nets, In (ListNetworks, Ret nets) t /\ py_getitem0 nets = Ret n /\
           writes_source_voltage (_input_voltages vn vv) n (SetValueTopo v k n, rr)) /\
      (forall out, r = Ret out ->
         exists nets n0 a b c,
           In (ListNetworks, Ret nets) t /\ py_getitem0 nets = Ret n0 /\
           _input_voltages vn vv !! "VMAG_A" = Some a /\
           _input_voltages vn vv !! "VMAG_B" = Some b /\
           _input_voltages vn vv !! "VMAG_C" = Some c /\
           topo_writes t = source_voltage_writes a b c n0)) /\
  (forall values (w : world V) r w' t,
      load_allocation values w = (r, w', t) ->
      (forall v k n rr, In (SetValueTopo v k n, rr) t ->
         exists nets, In (ListNetworks, Ret nets) t /\ py_getitem0 nets = Ret n /\
           writes_source_voltage values n (SetValueTopo v k n, rr)) /\
      (forall u, r = Ret u ->
         exists nets n0 a b c,
           In (ListNetworks, Ret nets) t /\ py_getitem0 nets = Ret n0 /\
           values !! "VMAG_A" = Some a /\ values !! "VMAG_B" = Some b /\
           values !! "VMAG_C" = Some c /\
           topo_writes t = source_voltage_writes a b c n0)).
Proof.
  split.
  - intros f vn vv ls lpn lv ps ppn pv on ono wr w r w' t H.
    apply fmu_wrapper_phases in H
      as (t0 & t1 & t2 & t3 & t4 & t5 & s0 & s1 & s2 & s3 & s4
          & (H0 & H1 & H2 & H3 & H4 & H5) & (P0 & P1 & P2 & P3 & P4 & P5) & ->).
    split.
    + intros v k n rr Hin.
      assert (Hin1 : In (SetValueTopo v k n, rr) t1).
      { rewrite List.Forall_forall in P0, P2, P3, P4, P5.
        rewrite !in_app_iff in Hin. unfold in_phase in *.
        destruct Hin as [Hin|[Hin|[Hin|[Hin|[Hin|Hin]]]]]; [|exact Hin| | | |].
        all: first [ specialize (P0 _ Hin) | specialize (P2 _ Hin) | specialize (P3 _ Hin)
                   | specialize (P4 _ Hin) | specialize (P5 _ Hin) ]; discriminate. }
      destruct (stage_nonempty _ _ _ _ _ H1 Hin1) as (w1 & r1 & w1' & E & _).
      apply _set_voltages_run in E as (rn & t1' & -> & Hw & _).
      destruct Hin1 as [[=]|Hin1].
      destruct Hw as (nets & n0 & -> & G & Hw); [intros ->; destruct Hin1|].
      rewrite List.Forall_forall in Hw. specialize (Hw _ Hin1).
      assert (n = n0) as -> by (destruct Hw as [-> _]; reflexivity).
      exists nets. split; [|auto].
      rewrite !in_app_iff. right. left. left. reflexivity.
    + intros out ->. destruct s4 as [e|]; [destruct H5 as [_ [=]]|].
      apply stage_ok in H4 as (-> & _).
      apply stage_ok in H3 as (-> & _).
      apply stage_ok in H2 as (-> & _).
      apply stage_ok in H1 as (-> & w1 & a1 & w1' & H1).
      apply _set_voltages_run in H1 as (rn & t1' & -> & _ & H1).
      destruct (H1 a1 eq_refl) as (nets & n0 & a & b & c & -> & G & Ea & Eb & Ec & E1).
      exists nets, n0, a, b, c.
      split; [rewrite !in_app_iff; right; left; left; reflexivity|].
      repeat (split; [assumption|]).
      rewrite !topo_writes_app.
      rewrite (topo_writes_other 0 t0), (topo_writes_other 2 t2),
        (topo_writes_other 3 t3), (topo_writes_other 4 t4),
        (topo_writes_other 5 t5) by (assumption || lia).
      rewrite app_nil_r. simpl.
      change (topo_writes ((ListNetworks, Ret nets) :: t1')) with (topo_writes t1').
      apply topo_writes_calls. exact E1.
  - intros values w r w' t H.
    apply load_allocation_run in H as (rla & rn & t' & Ht & Hw & Hok).
    split.
    + intros v k n rr Hin.
      destruct Ht as [->| ->]; [destruct Hin as [[=]|[]]|].
      destruct Hin as [[=]|[[=]|Hin]].
      destruct Hw as (la & nets & n0 & -> & -> & G & Hw); [intros ->; destruct Hin|].
      rewrite List.Forall_forall in Hw. specialize (Hw _ Hin).
      unfold allocates in Hw. simpl in Hw.
      assert (n = n0) as -> by (destruct Hw as [-> _]; reflexivity).
      exists nets. split; [simpl; auto|auto].
    + intros u ->.
      destruct (Hok u eq_refl) as (la & nets & n0 & a & b & c & -> & -> & G & Ea & Eb & Ec & E).
      exists nets, n0, a, b, c.
      split.
      { destruct Ht as [->| ->]; [discriminate E|]. simpl. auto. }
      repeat (split; [assumption|]).
      unfold topo_writes. rewrite E. reflexivity.
Qed.

End SourceVoltage.

Lemma C4_source_voltage_in_kilovolts_witness :
  (In (SetValueTopo (2520 / 1000) OperatingVoltage1 (PyStr "FEEDER_1"), Ret PyNone)
     Demo.fmu_example_trace /\
   exists nets,
     In (ListNetworks, Ret nets) Demo.fmu_example_trace /\
     py_getitem0 nets = Ret (PyStr "FEEDER_1") /\
     writes_source_voltage (_input_voltages Demo.voltage_names Demo.voltage_values)
       (PyStr "FEEDER_1")
       (SetValueTopo (2520 / 1000) OperatingVoltage1 (PyStr "FEEDER_1"), Ret PyNone)) /\
  (In (SetValueTopo (7210 / 1000) OperatingVoltage2 (PyStr "FEEDER_1"), Ret PyNone)
     Demo.allocation_example_trace /\
   exists nets,
     In (ListNetworks, Ret nets) Demo.allocation_example_trace /\
     py_getitem0 nets = Ret (PyStr "FEEDER_1") /\
     writes_source_voltage Demo.allocation_values (PyStr "FEEDER_1")
       (SetValueTopo (7210 / 1000) OperatingVoltage2 (PyStr "FEEDER_1"), Ret PyNone)).
Proof.
  assert (E1 : Demo.fmu_example Demo.world0
    = (Ret [PyStr "KWA"; PyNum 0; PyNum 0], Demo.world0, Demo.fmu_example_trace))
    by (vm_compute; reflexivity).
  assert (E2 : Demo.allocation_example Demo.world0
    = (Ret tt, Demo.world0, Demo.allocation_example_trace))
    by (vm_compute; reflexivity).
  assert (I1 : In (SetValueTopo (2520 / 1000) OperatingVoltage1 (PyStr "FEEDER_1"),
                   Ret PyNone) Demo.fmu_example_trace)
    by (vm_compute; repeat (first [left; reflexivity | right])).
  assert (I2 : In (SetValueTopo (7210 / 1000) OperatingVoltage2 (PyStr "FEEDER_1"),
                   Ret PyNone) Demo.allocation_example_trace)
    by (vm_compute; repeat (first [left; reflexivity | right])).
  unfold Demo.fmu_example in E1. unfold Demo.allocation_example in E2.
  destruct (C4_source_voltage_in_kilovolts (cympy := Demo.stateless Demo.feeder))
    as [F A].
  destruct (F _ _ _ _ _ _ _ _ _ _ _ _ _ _ _ _ E1) as [F1 _].
  destruct (A _ _ _ _ _ E2) as [A1 _].
  split; (split; [assumption|]); [exact (F1 _ _ _ _ I1) | exact (A1 _ _ _ _ I2)].
Defined.

(** ** Load allocation *)

Section Allocation.
Context {V : Type} {cympy : Cympy V}.

(** C7. For an input dictionary with the keys P_A, Q_A, P_B, Q_B, P_C, Q_C,
    VMAG_A, VMAG_B and VMAG_C, [load_allocation] builds a per-phase demand
    meter ([IsTotalDemand = False]) whose phase-X demand has [Value1 = P_X]
    and [Value2 = Q_X], of load value type [KW_KVAR]; it assigns that demand
    to the first network returned by [ListNetworks] and to no other, writes
    the source voltages of that network, and runs the allocation on the list
    that holds that network alone.  A call that returns has issued exactly
    these calls, in this order. *)
Theorem C7_load_allocation_first_network
    values p_a q_a p_b q_b p_c q_c vmag_a vmag_b vmag_c (w : world V) r w' t :
  values !! "P_A" = Some p_a -> values !! "Q_A" = Some q_a ->
  values !! "P_B" = Some p_b -> values !! "Q_B" = Some q_b ->
  values !! "P_C" = Some p_c -> values !! "Q_C" = Some q_c ->
  values !! "VMAG_A" = Some vmag_a -> values !! "VMAG_B" = Some vmag_b ->
  values !! "VMAG_C" = Some vmag_c ->
  load_allocation values w = (r, w', t) ->
  let demand :=
    {| IsTotalDemand := Some false;
       DemandA := Some {| Value1 := Some p_a; Value2 := Some q_a |};
       DemandB := Some {| Value1 := Some p_b; Value2 := Some q_b |};
       DemandC := Some {| Value1 := Some p_c; Value2 := Some q_c |};
       LoadValueType := Some LoadValueType_KW_KVAR |} in
  (forall la n d rr, In (LoadAllocation_SetDemand la n d, rr) t ->
     d = demand /\ In (LoadAllocation, Ret la) t /\
     exists nets, In (ListNetworks, Ret nets) t /\ py_getitem0 nets = Ret n) /\
  (forall v k n rr, In (SetValueTopo v k n, rr) t ->
     (exists nets, In (ListNetworks, Ret nets) t /\ py_getitem0 nets = Ret n) /\
     ((k = OperatingVoltage1 /\ v = (vmag_a / 1000)%Q) \/
      (k = OperatingVoltage2 /\ v = (vmag_b / 1000)%Q) \/
      (k = OperatingVoltage3 /\ v = (vmag_c / 1000)%Q))) /\
  (forall la ns rr, In (LoadAllocation_Run la ns, rr) t ->
     In (LoadAllocation, Ret la) t /\
     exists nets n0, In (ListNetworks, Ret nets) t /\ py_getitem0 nets = Ret n0 /\
       ns = [n0]) /\
  (forall u, r = Ret u ->
     exists la nets n0,
       In (ListNetworks, Ret nets) t /\ py_getitem0 nets = Ret n0 /\
       map fst t =
         [LoadAllocation; ListNetworks; LoadAllocation_SetDemand la n0 demand] ++
         source_voltage_calls vmag_a vmag_b vmag_c n0 ++
         [LoadAllocation_Run la [n0]]).
Proof.
  intros Epa Eqa Epb Eqb Epc Eqc Ea Eb Ec H demand.
  assert (Ed : expected_demand values = demand).
  { unfold expected_demand. rewrite Epa, Eqa, Epb, Eqb, Epc, Eqc. reflexivity. }
  apply load_allocation_run in H as (rla & rn & t' & Ht & Hw & Hok).
  assert (Hev : forall ev, In ev t -> fst ev <> LoadAllocation ->
            fst ev <> ListNetworks ->
            exists la nets n0, rla = Ret la /\ rn = Ret nets /\
              py_getitem0 nets = Ret n0 /\ allocates values la n0 ev /\
              In (LoadAllocation, Ret la) t /\ In (ListNetworks, Ret nets) t).
  { intros ev Hin N1 N2.
    destruct Ht as [->| ->].
    { destruct Hin as [<-|[]]. now destruct N1. }
    destruct Hin as [<-|[<-|Hin]]; [now destruct N1|now destruct N2|].
    destruct Hw as (la & nets & n0 & -> & -> & G & Hw); [intros ->; destruct Hin|].
    rewrite List.Forall_forall in Hw. exists la, nets, n0. simpl. auto 10. }
  split; [|split; [|split]].
  - intros la n d rr Hin.
    destruct (Hev _ Hin) as (la' & nets & n0 & -> & -> & G & Hal & I1 & I2);
      [discriminate|discriminate|].
    unfold allocates in Hal. simpl in Hal. destruct Hal as (-> & -> & ->).
    rewrite Ed. eauto.
  - intros v k n rr Hin.
    destruct (Hev _ Hin) as (la' & nets & n0 & -> & -> & G & Hal & I1 & I2);
      [discriminate|discriminate|].
    unfold allocates, writes_source_voltage in Hal. simpl in Hal.
    destruct Hal as (-> & x & -> & Hk). split; [eauto|].
    destruct Hk as [[-> Ex]|[[-> Ex]|[-> Ex]]]; simplify_eq; auto.
  - intros la ns rr Hin.
    destruct (Hev _ Hin) as (la' & nets & n0 & -> & -> & G & Hal & I1 & I2);
      [discriminate|discriminate|].
    unfold allocates in Hal. simpl in Hal. destruct Hal as (-> & ->). eauto 6.
  - intros u ->.
    destruct (Hok u eq_refl)
      as (la & nets & n0 & a & b & c & -> & -> & G & Ea' & Eb' & Ec' & E).
    rewrite Ea in Ea'. rewrite Eb in Eb'. rewrite Ec in Ec'. simplify_eq.
    exists la, nets, n0.
    split; [|split; [exact G|]].
    + destruct Ht as [->| ->]; [discriminate E|]. simpl. auto.
    + rewrite E. unfold allocation_calls. rewrite Ed. reflexivity.
Qed.

End Allocation.

Lemma C7_load_allocation_first_network_witness :
  Demo.allocation_example Demo.world0
    = (Ret tt, Demo.world0, Demo.allocation_example_trace) /\
  exists la nets n0,
    In (ListNetworks, Ret nets) Demo.allocation_example_trace /\
    py_getitem0 nets = Ret n0 /\
    map fst Demo.allocation_example_trace =
      [LoadAllocation; ListNetworks;
       LoadAllocation_SetDemand la n0
         {| IsTotalDemand := Some false;
            DemandA := Some {| Value1 := Some 110%Q; Value2 := Some 12%Q |};
            DemandB := Some {| Value1 := Some 120%Q; Value2 := Some 14%Q |};
            DemandC := Some {| Value1 := Some 130%Q; Value2 := Some 16%Q |};
            LoadValueType := Some LoadValueType_KW_KVAR |}] ++
      source_voltage_calls 7200 7210 7190 n0 ++
      [LoadAllocation_Run la [n0]].
Proof.
  assert (E : Demo.allocation_example Demo.world0
    = (Ret tt, Demo.world0, Demo.allocation_example_trace))
    by (vm_compute; reflexivity).
  split; [exact E|]. unfold Demo.allocation_example in E.
  refine (proj2 (proj2 (proj2
    (C7_load_allocation_first_network Demo.allocation_values
       110 12 120 14 130 16 7200 7210 7190 _ _ _ _ _ _ _ _ _ _ _ _ _ E))) tt eq_refl).
  all: vm_compute; reflexivity.
Defined.

(** ** Loops *)

Section Loops.
Context {V : Type} {cympy : Cympy V}.

(** Every event of a loop is an event of one iteration; an iteration that
    raises ends the loop with its exception. *)
Lemma for_each_inv {A} (xs : list A) (body : A -> M V unit) (w : world V) r w' t :
  for_each xs body w = (r, w', t) ->
  (forall ev, In ev t ->
     exists x w1 r1 w1' t1,
       In x xs /\ body x w1 = (r1, w1', t1) /\ In ev t1 /\ incl t1 t /\
       (forall e, r1 = Raise e -> r = Raise e)) /\
  (forall u, r = Ret u ->
     exists ts, t = concat ts /\
       Forall2 (fun x t1 => exists w1 w1', body x w1 = (Ret tt, w1', t1)) xs ts).
Proof.
  revert w r w' t. induction xs as [|x xs IH]; intros w r w' t H; simpl in H.
  - apply ret_inv in H as (-> & -> & ->). split.
    + intros ev [].
    + intros u _. exists []. split; [reflexivity|constructor].
  - apply bind_inv in H as [(e & Hm & ->)|(a & w1 & t1 & t2 & Hm & H & ->)].
    + split; [|intros u [=]].
      intros ev Hin. exists x, w, (Raise e), w', t.
      split; [left; reflexivity|]. split; [exact Hm|]. split; [exact Hin|].
      split; [apply incl_refl|]. intros e' [= ->]. reflexivity.
    + destruct (IH _ _ _ _ H) as [IH1 IH2]. split.
      * intros ev Hin. apply in_app_iff in Hin as [Hin|Hin].
        -- exists x, w, (Ret a), w1, t1.
           split; [left; reflexivity|]. split; [exact Hm|]. split; [exact Hin|].
           split; [apply incl_appl, incl_refl|]. intros e [=].
        -- destruct (IH1 ev Hin) as (y & w2 & r2 & w2' & t3 & Hy & Hb & Hev & Hincl & Hr).
           exists y, w2, r2, w2', t3.
           split; [right; exact Hy|]. split; [exact Hb|]. split; [exact Hev|].
           split; [apply incl_appr; exact Hincl|exact Hr].
      * intros u ->. destruct (IH2 u eq_refl) as (ts & -> & F).
        exists (t1 :: ts). split; [reflexivity|]. constructor; [|exact F].
        destruct a. eauto.
Qed.

End Loops.

(** ** Loads *)

Section Loads.
Context {V : Type} {cympy : Cympy V}.

Lemma kw_loop power name (xs : list nat) (w : world V) r w' t :
  for_each xs (fun phase =>
    bind (vendor (SetValueDevice power (load_kw_keyword phase) name 14))
      (fun _ => ret tt)) w = (r, w', t) ->
  exists k, k <= length xs /\
    map fst t = map (fun phase => SetValueDevice power (load_kw_keyword phase) name 14)
                  (take k xs) /\
    (forall u, r = Ret u -> k = length xs).
Proof.
  revert w r w' t. induction xs as [|x xs IH]; intros w r w' t H; simpl in H.
  - apply ret_inv in H as (-> & -> & ->). exists 0. simpl. auto.
  - apply bind_inv in H as [(e & Hm & ->)|(a & w1 & t1 & t2 & Hm & H & ->)].
    + inv_run Hm. exists 1. simpl. rewrite ?take_0. split; [lia|]. split; [reflexivity|].
      intros u [=].
    + inv_run Hm. destruct (IH _ _ _ _ H) as (k & Hk & E & Hr).
      exists (S k). simpl. split; [lia|]. split.
      * rewrite E. reflexivity.
      * intros u Hu. rewrite (Hr u Hu). reflexivity.
Qed.

Lemma _add_loads_body_run index load (w : world V) r w' t :
  _add_loads_body index load w = (r, w', t) ->
  exists radd t1,
    t = (AddDevice (load_name index) (PyNum 14) (Load.section_id load)
           (Some ("DEFAULT", Location_FirstAvailable, true)), radd) :: t1 /\
    (t1 = [] \/
     exists rq t2,
       t1 = (QueryInfoDevice "Phase" (PyStr (load_name index)) 14, rq) :: t2 /\
       match rq with
       | Raise e => t2 = [] /\ r = Raise e
       | Ret v =>
           match py_list v with
           | Raise e => t2 = [] /\ r = Raise e
           | Ret [] => t2 = [] /\ r = Raise ZeroDivisionError
           | Ret phases =>
               exists k, k <= length phases /\
                 map fst t2 =
                   map (fun phase =>
                          SetValueDevice
                            (Load.active_power load / inject_Z (Z.of_nat (length phases)))
                            (load_kw_keyword phase) (load_name index) 14)
                     (seq 0 k) /\
                 (forall u, r = Ret u -> k = length phases)
           end
       end).
Proof.
  intros H. unfold _add_loads_body in H. inv_run H.
  - eexists _, []. split; [reflexivity|]. left. reflexivity.
  - eexists _, _. split; [reflexivity|]. right. eexists _, []. split; [reflexivity|].
    simpl. auto.
  - eexists _, _. split; [reflexivity|]. right. eexists _, []. split; [reflexivity|].
    simpl. match goal with E : py_list _ = _ |- _ => rewrite E end. auto.
  - eexists _, _. split; [reflexivity|]. right. eexists _, []. split; [reflexivity|].
    simpl. match goal with E : py_list _ = _ |- _ => rewrite E end.
    match goal with E : length ?l = 0 |- _ => destruct l; [|discriminate E] end. auto.
  - eexists _, _. split; [reflexivity|]. right. eexists _, _. split; [reflexivity|].
    simpl. match goal with E : py_list _ = _ |- _ => rewrite E end.
    match goal with E : length ?l <> 0 |- _ => destruct l as [|p l]; [now destruct E|] end.
    apply kw_loop in H as (k & Hk & E & Hr). rewrite length_seq in Hk, Hr.
    exists k. split; [exact Hk|]. split; [|exact Hr].
    rewrite E. rewrite take_seq. f_equal. f_equal. lia.
Qed.

Lemma kw_writes_map power name (l : list nat) :
  omap kw_write (map (fun phase => SetValueDevice power (load_kw_keyword phase) name 14) l)
  = map (fun phase => (power, load_kw_keyword phase, name, 14%Z)) l.
Proof. induction l as [|x l IH]; simpl; [reflexivity|]. f_equal. exact IH. Qed.

Lemma stage_skip {A} (m : M V A) e t s' : stage m (Some e) t s' -> s' = Some e.
Proof. intros [_ ->]. reflexivity. Qed.

Lemma set_new_loads_inv loads (w : world V) r w' t :
  set_new_loads loads w = (r, w', t) ->
  forall ev, In ev t ->
    exists l index load w1 r1 w1' t1,
      loads = Some l /\ In (index, load) (enumerate l) /\
      _add_loads_body index load w1 = (r1, w1', t1) /\
      In ev t1 /\ incl t1 t /\ (forall e, r1 = Raise e -> r = Raise e).
Proof.
  intros H ev Hin. unfold set_new_loads in H.
  destruct loads as [[|l0 loads]|].
  1,3: apply ret_inv in H as (_ & _ & ->); destruct Hin.
  unfold _add_loads in H.
  apply bind_inv in H as [(e & Hm & ->)|(a & w1 & t1 & t2 & Hm & H & ->)].
  - apply bind_inv in Hm as [(e' & Hm & E)|(a & w1 & t1 & t2 & Hm & H & ->)].
    + injection E as <-.
      apply for_each_inv in Hm as [Hm _].
      destruct (Hm ev Hin) as ([index load] & w2 & r2 & w2' & t3 & Hx & Hb & Hev & Hi & Hr).
      exists (l0 :: loads), index, load, w2, r2, w2', t3. auto 10.
    + apply ret_inv in H as ([=] & _).
  - apply ret_inv in H as (-> & -> & ->). rewrite app_nil_r in Hin |- *.
    apply bind_inv in Hm as [(e' & Hm & [=])|(a' & w2 & t3 & t4 & Hm & H & ->)].
    apply ret_inv in H as (_ & -> & ->). rewrite app_nil_r in Hin |- *.
    apply for_each_inv in Hm as [Hm _].
    destruct (Hm ev Hin) as ([index load] & w3 & r3 & w3' & t5 & Hx & Hb & Hev & Hi & Hr).
    exists (l0 :: loads), index, load, w3, r3, w3', t5.
    repeat (split; [assumption || reflexivity|]). intros e He. discriminate (Hr e He).
Qed.

End Loads.

Section LoadSplit.
Context {V : Type} {cympy : Cympy V}.

(** The exception of a stage of [fmu_wrapper] is the exception of the
    call. *)
Lemma fmu_wrapper_raises f vn vv ls lpn lv ps ppn pv on ono wr (w : world V) r w' t :
  fmu_wrapper f vn vv ls lpn lv ps ppn pv on ono wr w = (r, w', t) ->
  exists t0 t1 t2 t3 t4 t5 s0 s1 s2 s3 s4,
    (stage (vendor (Open f)) None t0 s0 /\
     stage (_set_voltages (_input_voltages vn vv)) s0 t1 s1 /\
     stage (set_new_loads (input_loads ls lpn lv)) s1 t2 s2 /\
     stage (set_new_pvs (input_pvs ps ppn pv)) s2 t3 s3 /\
     stage run_power_flow s3 t4 s4) /\
    (forall e, s0 = Some e \/ s1 = Some e \/ s2 = Some e \/ s3 = Some e \/ s4 = Some e ->
       r = Raise e) /\
    (Forall (in_phase 0) t0 /\ Forall (in_phase 1) t1 /\ Forall (in_phase 2) t2 /\
     Forall (in_phase 3) t3 /\ Forall (in_phase 4) t4 /\ Forall (in_phase 5) t5) /\
    t = t0 ++ t1 ++ t2 ++ t3 ++ t4 ++ t5.
Proof.
  intros H. apply fmu_wrapper_phases in H
    as (t0 & t1 & t2 & t3 & t4 & t5 & s0 & s1 & s2 & s3 & s4
        & (H0 & H1 & H2 & H3 & H4 & H5) & P & ->).
  exists t0, t1, t2, t3, t4, t5, s0, s1, s2, s3, s4.
  split; [auto 10|]. split; [|auto].
  intros e He.
  assert (s4 = Some e) as ->.
  { destruct He as [->|[->|[->|[->| ->]]]].
    - apply stage_skip in H1 as ->. apply stage_skip in H2 as ->.
      apply stage_skip in H3 as ->. apply stage_skip in H4 as ->. reflexivity.
    - apply stage_skip in H2 as ->.
      apply stage_skip in H3 as ->. apply stage_skip in H4 as ->. reflexivity.
    - apply stage_skip in H3 as ->. apply stage_skip in H4 as ->. reflexivity.
    - apply stage_skip in H4 as ->. reflexivity.
    - reflexivity. }
  destruct H5 as [_ ->]. reflexivity.
Qed.

(** C8. When [fmu_wrapper] adds a load device, the requested active power
    is split equally across the phases of the device.  With [phases] the
    list made from the answer to the phase query and [n] its length: if
    [n] is not 0, every per-phase KW value written for the device is
    [active_power / n], phase index by phase index from 0, all [n] of them
    when the iteration returns, and [n] times that value is the requested
    power; if [n] is 0, the division raises [ZeroDivisionError], no KW value
    is written, and [fmu_wrapper] raises that same exception. *)
Theorem C8_load_power_split_equally :
  (forall index load (w : world V) r w' t v phases,
     _add_loads_body index load w = (r, w', t) ->
     In (QueryInfoDevice "Phase" (PyStr (load_name index)) 14, Ret v) t ->
     py_list v = Ret phases ->
     let n := length phases in
     let power := (Load.active_power load / inject_Z (Z.of_nat n))%Q in
     (n = 0 -> r = Raise ZeroDivisionError /\ kw_writes t = []) /\
     (n <> 0 ->
        (exists k, k <= n /\
           kw_writes t =
             map (fun phase => (power, load_kw_keyword phase, load_name index, 14%Z))
               (seq 0 k) /\
           (forall u, r = Ret u -> k = n)) /\
        (inject_Z (Z.of_nat n) * power == Load.active_power load)%Q)) /\
  (forall f vn vv ls lpn lv ps ppn pv on ono wr (w : world V) r w' t,
     fmu_wrapper f vn vv ls lpn lv ps ppn pv on ono wr w = (r, w', t) ->
     (forall ev, In ev t -> in_phase 2 ev ->
        exists index load w1 r1 w1' t1,
          In (index, load) (enumerate (_input_loads ls lpn lv)) /\
          _add_loads_body index load w1 = (r1, w1', t1) /\
          In ev t1 /\ incl t1 t /\ (forall e, r1 = Raise e -> r = Raise e)) /\
     (forall d ty v, In (QueryInfoDevice "Phase" d ty, Ret v) t ->
        py_list v = Ret [] -> r = Raise ZeroDivisionError)).
Proof.
  assert (Body : forall index load (w : world V) r w' t v phases,
     _add_loads_body index load w = (r, w', t) ->
     forall d ty, In (QueryInfoDevice "Phase" d ty, Ret v) t ->
     py_list v = Ret phases ->
     exists t2 : list event, kw_writes t = omap kw_write (map fst t2) /\
       match phases with
       | [] => t2 = [] /\ r = Raise ZeroDivisionError
       | _ => exists k, k <= length phases /\
           map fst t2 =
             map (fun phase =>
                    SetValueDevice
                      (Load.active_power load / inject_Z (Z.of_nat (length phases)))
                      (load_kw_keyword phase) (load_name index) 14)
               (seq 0 k) /\
           (forall u, r = Ret u -> k = length phases)
       end).
  { intros index load w r w' t v phases H d ty Hin Hv.
    apply _add_loads_body_run in H as (radd & t1 & -> & [->|(rq & t2 & -> & H)]).
    { destruct Hin as [[=]|[]]. }
    destruct Hin as [[=]|[Hin|Hin]].
    - injection Hin as _ _ ->. rewrite Hv in H. exists t2. split; [reflexivity|].
      destruct phases; exact H.
    - exfalso. destruct rq as [v'|e]; [|destruct H as [-> _]; destruct Hin].
      destruct (py_list v') as [[|p l]|e]; try (destruct H as [-> _]; destruct Hin).
      destruct H as (k & _ & E & _).
      apply (in_map fst) in Hin. rewrite E in Hin. simpl in Hin.
      apply in_map_iff in Hin as (phase & [=] & _). }
  split.
  - intros index load w r w' t v phases H Hin Hv n power.
    destruct (Body _ _ _ _ _ _ _ _ H _ _ Hin Hv) as (t2 & Ek & Hm).
    split.
    + intros Hn. destruct phases; [|discriminate Hn].
      destruct Hm as [-> ->]. rewrite Ek. auto.
    + intros Hn. split.
      * destruct phases as [|p l]; [now destruct Hn|].
        destruct Hm as (k & Hk & E & Hr). exists k. split; [exact Hk|].
        split; [|exact Hr]. rewrite Ek, E. apply kw_writes_map.
      * unfold power. apply Qmult_div_r. intros E.
        apply (Qeq_bool_neq (inject_Z (Z.of_nat n)) 0); [|exact E].
        unfold Qeq_bool. simpl. destruct n; [now destruct Hn|reflexivity].
  - intros f vn vv ls lpn lv ps ppn pv on ono wr w r w' t H.
    apply fmu_wrapper_raises in H
      as (t0 & t1 & t2 & t3 & t4 & t5 & s0 & s1 & s2 & s3 & s4
          & (H0 & H1 & H2 & H3 & H4) & Hr & (P0 & P1 & P2 & P3 & P4 & P5) & ->).
    assert (Lift : forall ev, In ev (t0 ++ t1 ++ t2 ++ t3 ++ t4 ++ t5) -> in_phase 2 ev ->
      exists index load w1 r1 w1' t1',
        In (index, load) (enumerate (_input_loads ls lpn lv)) /\
        _add_loads_body index load w1 = (r1, w1', t1') /\
        In ev t1' /\ incl t1' (t0 ++ t1 ++ t2 ++ t3 ++ t4 ++ t5) /\
        (forall e, r1 = Raise e -> r = Raise e)).
    { intros ev Hin Hev.
      assert (Hin2 : In ev t2).
      { rewrite List.Forall_forall in P0, P1, P3, P4, P5.
        rewrite !in_app_iff in Hin. unfold in_phase in *.
        destruct Hin as [Hin|[Hin|[Hin|[Hin|[Hin|Hin]]]]]; [| |exact Hin| | |].
        all: first [ specialize (P0 _ Hin) | specialize (P1 _ Hin) | specialize (P3 _ Hin)
                   | specialize (P4 _ Hin) | specialize (P5 _ Hin) ]; congruence. }
      destruct (stage_nonempty _ _ _ _ _ H2 Hin2) as (w1 & r1 & w1' & E & ->).
      destruct H2 as (w2 & r2 & w2' & E2 & ->).
      destruct (set_new_loads_inv _ _ _ _ _ E2 ev Hin2)
        as (l & index & load & w3 & r3 & w3' & t3' & El & Hx & Hb & Hev3 & Hi & Hr3).
      exists index, load, w3, r3, w3', t3'.
      split.
      { unfold input_loads in El. destruct (0 <? length ls)%nat; [|discriminate El].
        injection El as <-. exact Hx. }
      split; [exact Hb|]. split; [exact Hev3|]. split.
      { intros x Hx'. rewrite !in_app_iff. right. right. left. apply Hi. exact Hx'. }
      intros e He. apply Hr. right. right. left. rewrite (Hr3 e He). reflexivity. }
    split; [exact Lift|].
    intros d ty v Hin Hv.
    destruct (Lift _ Hin eq_refl)
      as (index & load & w1 & r1 & w1' & t1' & _ & Hb & Hev & _ & Hr1).
    destruct (Body _ _ _ _ _ _ _ _ Hb _ _ Hev Hv) as (t2' & _ & _ & ->).
    apply Hr1. reflexivity.
Qed.

End LoadSplit.

Lemma C8_load_power_split_equally_witness :
  @_add_loads_body unit (Demo.stateless Demo.feeder) 0 Demo.load_example Demo.world0
    = (Ret tt, Demo.world0, Demo.load_example_trace) /\
  In (QueryInfoDevice "Phase" (PyStr (load_name 0)) 14, Ret (PyStr "AB"))
    Demo.load_example_trace /\
  py_list (PyStr "AB") = Ret [PyStr "A"; PyStr "B"] /\
  kw_writes Demo.load_example_trace =
    [((100 / 2)%Q, load_kw_keyword 0, load_name 0, 14%Z);
     ((100 / 2)%Q, load_kw_keyword 1, load_name 0, 14%Z)] /\
  (2 * (100 / 2) == 100)%Q.
Proof.
  assert (E : @_add_loads_body unit (Demo.stateless Demo.feeder) 0 Demo.load_example
                Demo.world0 = (Ret tt, Demo.world0, Demo.load_example_trace))
    by (vm_compute; reflexivity).
  assert (I : In (QueryInfoDevice "Phase" (PyStr (load_name 0)) 14, Ret (PyStr "AB"))
                Demo.load_example_trace)
    by (vm_compute; repeat (first [left; reflexivity | right])).
  assert (L : py_list (PyStr "AB") = Ret [PyStr "A"; PyStr "B"]) by reflexivity.
  split; [exact E|]. split; [exact I|]. split; [exact L|].
  destruct (proj1 (C8_load_power_split_equally (cympy := Demo.stateless Demo.feeder))
              _ _ _ _ _ _ _ _ E I L) as [_ Hn].
  destruct (Hn ltac:(discriminate)) as [(k & Hk & Ek & Hr) Hsum].
  rewrite (Hr tt eq_refl) in Ek. split; [exact Ek | exact Hsum].
Defined.

(** ** Photovoltaic devices *)

Section Pvs.
Context {V : Type} {cympy : Cympy V}.

Lemma set_new_pvs_inv pvs (w : world V) r w' t :
  set_new_pvs pvs w = (r, w', t) ->
  forall ev, In ev t ->
    exists l index pv w1 r1 w1' t1,
      pvs = Some l /\ In (index, pv) (enumerate l) /\
      _add_pvs_body index pv w1 = (r1, w1', t1) /\
      In ev t1 /\ incl t1 t /\ (forall e, r1 = Raise e -> r = Raise e).
Proof.
  intros H ev Hin. unfold set_new_pvs in H.
  destruct pvs as [[|l0 pvs]|].
  1,3: apply ret_inv in H as (_ & _ & ->); destruct Hin.
  unfold _add_pvs in H.
  apply bind_inv in H as [(e & Hm & ->)|(a & w1 & t1 & t2 & Hm & H & ->)].
  - apply bind_inv in Hm as [(e' & Hm & E)|(a & w1 & t1 & t2 & Hm & H & ->)].
    + injection E as <-.
      apply for_each_inv in Hm as [Hm _].
      destruct (Hm ev Hin) as ([index pv] & w2 & r2 & w2' & t3 & Hx & Hb & Hev & Hi & Hr).
      exists (l0 :: pvs), index, pv, w2, r2, w2', t3. auto 10.
    + apply ret_inv in H as ([=] & _).
  - apply ret_inv in H as (-> & -> & ->). rewrite app_nil_r in Hin |- *.
    apply bind_inv in Hm as [(e' & Hm & [=])|(a' & w2 & t3 & t4 & Hm & H & ->)].
    apply ret_inv in H as (_ & -> & ->). rewrite app_nil_r in Hin |- *.
    apply for_each_inv in Hm as [Hm _].
    destruct (Hm ev Hin) as ([index pv] & w3 & r3 & w3' & t5 & Hx & Hb & Hev & Hi & Hr).
    exists (l0 :: pvs), index, pv, w3, r3, w3', t5.
    repeat (split; [assumption || reflexivity|]). intros e He. discriminate (Hr e He).
Qed.

Lemma trunc_floor q : (0 <= q)%Q -> trunc q = Qfloor q.
Proof.
  destruct q as [n d]. unfold Qle, trunc, Qfloor. simpl. intros Hn.
  apply Z.quot_div_nonneg; lia.
Qed.

Lemma pv_panels_cover g :
  (0 <= g)%Q ->
  pv_panels g = Qfloor ((g + 30) / (23 * 0.08)) /\
  (g <= 23 * 0.08 * inject_Z (pv_panels g))%Q.
Proof.
  intros Hg. unfold pv_panels.
  set (q := ((g + 30) / (23 * 0.08))%Q).
  assert (Hq : (q * (184 # 100) == g + 30)%Q) by (unfold q; field).
  assert (H0 : (0 <= q)%Q) by lra.
  rewrite (trunc_floor q H0). split; [reflexivity|].
  pose proof (Qlt_floor q) as Hlt.
  rewrite inject_Z_plus in Hlt.
  change (inject_Z 1) with 1%Q in Hlt.
  assert (E : (23 * 0.08 == 184 # 100)%Q) by reflexivity.
  rewrite E. lra.
Qed.

End Pvs.

Section PvSizing.
Context {V : Type} {cympy : Cympy V}.

(** The four attribute writes of one PV device. *)
Lemma _add_pvs_body_run index pv (w : world V) r w' t :
  _add_pvs_body index pv w = (r, w', t) ->
  exists radd t1,
    t = (AddDevice (pv_name index) (PyEnum DeviceType_Photovoltaic)
           (Pv.section_id pv) None, radd) :: t1 /\
    match radd with
    | Raise e => t1 = [] /\ r = Raise e
    | Ret device =>
        exists k, k <= 4 /\
          pv_writes t1 =
            take k [(device, inject_Z (pv_panels (Pv.generation pv)), "Np");
                    (device, Pv.generation pv, "GenerationModels[0].ActiveGeneration");
                    (device, Pv.generation pv, "Inverter.ActivePowerRating");
                    (device, Pv.generation pv, "Inverter.ReactivePowerRating")] /\
          (forall u, r = Ret u -> k = 4)
    end.
Proof.
  intros H. unfold _add_pvs_body in H. inv_run H.
  all: simpl; eexists _, _; (split; [reflexivity|]); simpl; auto.
  all: first
    [ exists 0; repeat split; first [lia | reflexivity | intros u [=]]
    | exists 1; repeat split; first [lia | reflexivity | intros u [=]]
    | exists 2; repeat split; first [lia | reflexivity | intros u [=]]
    | exists 3; repeat split; first [lia | reflexivity | intros u [=]]
    | exists 4; repeat split; first [lia | reflexivity | intros u [=]]
    | exists 4; repeat split; first [lia | reflexivity | intros u _; reflexivity] ].
Qed.


End PvSizing.


(** ** The returned list *)

Section Output.
Context {V : Type} {cympy : Cympy V}.

Lemma output_queries_length nodes names :
  length (output_queries nodes names) = Nat.min (length nodes) (length names).
Proof.
  unfold output_queries. rewrite length_map.
  revert names. induction nodes as [|n nodes IH]; intros [|c names]; simpl; auto.
Qed.

Lemma output_queries_lookup nodes names i node name :
  nodes !! i = Some node -> names !! i = Some name ->
  output_queries nodes names !! i = Some (QueryInfoNode name (PyStr node)).
Proof.
  unfold output_queries. revert names i.
  induction nodes as [|n nodes IH]; intros [|c names] [|i]; simpl; try discriminate.
  - intros [= ->] [= ->]. reflexivity.
  - intros Hn Hc. apply (IH names i Hn Hc).
Qed.

(** What [fmu_wrapper] returns, when it returns: the output list of
    [_output_values], after a trace without node queries. *)
Lemma fmu_wrapper_returns f vn vv ls lpn lv ps ppn pv on ono wr (w : world V) r w' t :
  fmu_wrapper f vn vv ls lpn lv ps ppn pv on ono wr w = (r, w', t) ->
  (exists e, r = Raise e /\ Forall (fun ev => phase (fst ev) < 5) t) \/
  (exists t_pre t_out,
      t = t_pre ++ t_out /\
      Forall (fun ev => phase (fst ev) < 5) t_pre /\
      map fst t_out = output_queries ono on /\
      r = Ret (map (fun ev => default_fill (PyNum 0) (snd ev)) t_out)).
Proof.
  intros H. apply fmu_wrapper_phases in H
    as (t0 & t1 & t2 & t3 & t4 & t5 & s0 & s1 & s2 & s3 & s4
        & (H0 & H1 & H2 & H3 & H4 & H5) & (P0 & P1 & P2 & P3 & P4 & P5) & ->).
  assert (Pre : Forall (fun ev : event => phase (fst ev) < 5) (t0 ++ t1 ++ t2 ++ t3 ++ t4)).
  { repeat (apply Forall_app; split).
    all: match goal with
         | P : Forall (in_phase _) ?l |- Forall _ ?l =>
             eapply Forall_impl; [exact P|]; unfold in_phase; simpl; intros; lia
         end. }
  destruct s4 as [e|].
  - left. destruct H5 as [-> ->]. exists e. split; [reflexivity|].
    rewrite app_nil_r. exact Pre.
  - right. destruct H5 as (w4 & H5).
    destruct (_output_values_run ono on (PyNum 0) w4) as (w5 & t5' & E5 & Q5).
    rewrite H5 in E5. injection E5 as -> _ <-.
    exists (t0 ++ t1 ++ t2 ++ t3 ++ t4), t5.
    split; [now rewrite <- !app_assoc|]. auto.
Qed.

End Output.

Section OutputList.
Context {V : Type} {cympy : Cympy V}.

Lemma lookup_map {A B} (f : A -> B) (l : list A) i :
  map f l !! i = option_map f (l !! i).
Proof.
  revert i. induction l as [|x l IH]; intros [|i]; simpl; auto.
Qed.

(** The element of the output list at a position is the filled-in
    response of the query at that position. *)
Lemma output_at d (t_out : list event) nodes names i node name :
  map fst t_out = output_queries nodes names ->
  nodes !! i = Some node -> names !! i = Some name ->
  exists rr, t_out !! i = Some (QueryInfoNode name (PyStr node), rr) /\
    map (fun ev : event => default_fill d (snd ev)) t_out !! i
      = Some (default_fill d rr).
Proof.
  intros E Hn Hc.
  pose proof (output_queries_lookup _ _ _ _ _ Hn Hc) as Hq.
  rewrite <- E, lookup_map in Hq.
  destruct (t_out !! i) as [[c rr]|] eqn:Ei; [|discriminate Hq].
  injection Hq as ->. exists rr. split; [reflexivity|].
  rewrite lookup_map, Ei. reflexivity.
Qed.

(** C10. A call of [fmu_wrapper] that returns, returns a list whose length
    is the minimum of the lengths of [output_nodes] and [output_names]; its
    i-th element is the answer to the query for the i-th (node, name) pair,
    or the default 0, in input order; what is left over of the longer list
    is ignored.  The output extraction itself never raises: a call that
    raises has raised before it, and has queried no output. *)
Theorem C10_output_list_of_returning_call :
  (forall nodes names d (w : world V),
     exists out w' t,
       _output_values nodes names d w = (Ret out, w', t) /\
       length out = Nat.min (length nodes) (length names)) /\
  (forall f vn vv ls lpn lv ps ppn pv on ono wr (w : world V) r w' t,
     fmu_wrapper f vn vv ls lpn lv ps ppn pv on ono wr w = (r, w', t) ->
     (forall out, r = Ret out ->
        length out = Nat.min (length ono) (length on) /\
        exists t_pre t_out,
          t = t_pre ++ t_out /\
          Forall (fun ev => phase (fst ev) < 5) t_pre /\
          forall i node name,
            ono !! i = Some node -> on !! i = Some name ->
            exists rr,
              t_out !! i = Some (QueryInfoNode name (PyStr node), rr) /\
              out !! i = Some (default_fill (PyNum 0) rr)) /\
     (forall e, r = Raise e -> Forall (fun ev => phase (fst ev) < 5) t)).
Proof.
  split.
  - intros nodes names d w.
    destruct (_output_values_run nodes names d w) as (w' & t & E & Q).
    eexists _, w', t. split; [exact E|].
    rewrite length_map, <- (length_map fst), Q. apply output_queries_length.
  - intros f vn vv ls lpn lv ps ppn pv on ono wr w r w' t H.
    apply fmu_wrapper_returns in H
      as [(e & -> & Hpre)|(t_pre & t_out & -> & Hpre & Q & ->)].
    + split; [intros out [=]|]. intros e' _. exact Hpre.
    + split; [|intros e [=]]. intros out [= <-]. split.
      * rewrite length_map, <- (length_map fst), Q. apply output_queries_length.
      * exists t_pre, t_out. split; [reflexivity|]. split; [exact Hpre|].
        intros i node name Hn Hc. eapply output_at; eauto.
Qed.

End OutputList.

(** The call of the docstring without its voltage inputs: [voltages] is
    empty, [voltages['VMAG_A']] raises [KeyError], and no list is returned. *)
Lemma C10_fmu_wrapper_may_raise :
  @fmu_wrapper unit (Demo.stateless Demo.feeder) "BU0001.sxst" [] []
    ["800033503"] ["KW"] [100%Q] ["800033503"] ["KW"] [100%Q]
    ["KWA"; "KWB"; "KWC"; "KVARA"] ["800036819"; "800036819"; "800036819"]
    "False" Demo.world0
  = (Raise (KeyError "VMAG_A"), Demo.world0,
     [(Open "BU0001.sxst", Ret PyNone);
      (ListNetworks, Ret (PyList [PyStr "FEEDER_1"; PyStr "FEEDER_2"]))]).
Proof. vm_compute. reflexivity. Qed.

Lemma C10_output_list_of_returning_call_witness :
  Demo.fmu_example Demo.world0
    = (Ret [PyStr "KWA"; PyNum 0; PyNum 0], Demo.world0, Demo.fmu_example_trace) /\
  length [PyStr "KWA"; PyNum 0; PyNum 0] = Nat.min 3 4.
Proof.
  assert (E : Demo.fmu_example Demo.world0
    = (Ret [PyStr "KWA"; PyNum 0; PyNum 0], Demo.world0, Demo.fmu_example_trace))
    by (vm_compute; reflexivity).
  split; [exact E|]. unfold Demo.fmu_example in E.
  destruct (proj2 (C10_output_list_of_returning_call
                     (cympy := Demo.stateless Demo.feeder))
              _ _ _ _ _ _ _ _ _ _ _ _ _ _ _ _ E) as [R _].
  exact (proj1 (R _ eq_refl)).
Defined.

(** ** Pre- and postconditions on the world *)

Section Hoare.
Context {V : Type} {cympy : Cympy V}.

Lemma hoare_ret {A} (P : world V -> Prop) (a : A) Q E :
  (forall w, P w -> Q a w) -> hoare P (ret a) Q E.
Proof. intros H w Hw. simpl. auto. Qed.

Lemma hoare_raise {A} (P : world V -> Prop) e (Q : A -> world V -> Prop) E :
  (forall w, P w -> E w) -> hoare P (raise e) Q E.
Proof. intros H w Hw. simpl. auto. Qed.

Lemma hoare_lift {A} (P : world V -> Prop) (x : result A) Q E :
  (forall w a, P w -> x = Ret a -> Q a w) -> (forall w, P w -> E w) ->
  hoare P (lift x) Q E.
Proof. intros H1 H2 w Hw. unfold lift. destruct x; simpl; auto. Qed.

Lemma hoare_bind {A B} (P : world V -> Prop) (m : M V A) (k : A -> M V B) Q1 Q E :
  hoare P m Q1 E -> (forall a, hoare (Q1 a) (k a) Q E) -> hoare P (bind m k) Q E.
Proof.
  intros Hm Hk w Hw. unfold bind. specialize (Hm w Hw).
  destruct (m w) as [[[a|e] w1] t1]; [|exact Hm].
  specialize (Hk a w1 Hm). destruct (k a w1) as [[[b|e] w2] t2]; exact Hk.
Qed.

Lemma hoare_conseq {A} (P P' : world V -> Prop) (m : M V A)
    (Q Q' : A -> world V -> Prop) (E E' : world V -> Prop) :
  hoare P' m Q' E' ->
  (forall w, P w -> P' w) -> (forall a w, Q' a w -> Q a w) ->
  (forall w, E' w -> E w) ->
  hoare P m Q E.
Proof.
  intros H HP HQ HE w Hw. specialize (H w (HP w Hw)).
  destruct (m w) as [[[a|e] w1] t1]; auto.
Qed.

Lemma hoare_for_each {A} (I E : world V -> Prop) (xs : list A) (body : A -> M V unit) :
  (forall x, In x xs -> hoare I (body x) (fun _ => I) E) ->
  hoare I (for_each xs body) (fun _ => I) E.
Proof.
  induction xs as [|x xs IH]; intros H; simpl.
  - apply hoare_ret. auto.
  - eapply hoare_bind.
    + apply H. left. reflexivity.
    + intros u. apply IH. intros y Hy. apply H. right. exact Hy.
Qed.

Lemma hoare_for_fold {A S} (I : world V -> Prop) (xs : list A) (acc : S)
    (body : S -> A -> M V S) :
  (forall s x, hoare I (body s x) (fun _ => I) I) ->
  hoare I (for_fold xs acc body) (fun _ => I) I.
Proof.
  intros H. revert acc. induction xs as [|x xs IH]; intros acc; simpl.
  - apply hoare_ret. auto.
  - eapply hoare_bind; [apply H|]. intros s. apply IH.
Qed.

Lemma hoare_try {A} (I : world V -> Prop) (m h : M V A) :
  hoare I m (fun _ => I) I -> hoare I h (fun _ => I) I ->
  hoare I (try_except m h) (fun _ => I) I.
Proof.
  intros Hm Hh w Hw. unfold try_except. specialize (Hm w Hw).
  destruct (m w) as [[[a|e] w1] t1]; [exact Hm|].
  specialize (Hh w1 Hm). destruct (h w1) as [[[b|e'] w2] t2]; exact Hh.
Qed.

(** A vendor call changes the session only. *)
Lemma hoare_vendor (I : world V -> Prop) c :
  (forall w v, I w -> I {| session := v; files := files w; frames := frames w |}) ->
  hoare I (vendor c) (fun _ => I) I.
Proof.
  intros H w Hw. unfold vendor. destruct (respond (session w) c) as [[a|e] v]; auto.
Qed.

Lemma hoare_method (I : world V -> Prop) obj name (args : M V call) :
  (forall w v, I w -> I {| session := v; files := files w; frames := frames w |}) ->
  hoare I args (fun _ => I) I ->
  hoare I (method obj name args) (fun _ => I) I.
Proof.
  intros H Ha. unfold method. destruct (is_obj obj).
  - eapply hoare_bind; [exact Ha|]. intros c. apply hoare_vendor. exact H.
  - apply hoare_raise. auto.
Qed.

Lemma hoare_getitem (I : world V -> Prop) d key :
  hoare I (getitem d key) (fun _ => I) I.
Proof.
  unfold getitem. destruct (d !! key); [apply hoare_ret | apply hoare_raise]; auto.
Qed.

Lemma hoare_divide (I : world V -> Prop) a n :
  hoare I (divide a n) (fun _ => I) I.
Proof. destruct n; [apply hoare_raise | apply hoare_ret]; auto. Qed.

Lemma hoare_when {A} (I : world V -> Prop) b (m : M V A) :
  hoare I m (fun _ => I) I -> hoare I (when b m) (fun _ => I) I.
Proof.
  intros H. unfold when. destruct b; [|apply hoare_ret; auto].
  eapply hoare_bind; [exact H|]. intros u. apply hoare_ret. auto.
Qed.

Lemma hoare_run {A} (P : world V -> Prop) (m : M V A) Q E w r w' t :
  hoare P m Q E -> P w -> m w = (r, w', t) ->
  match r with Ret a => Q a w' | Raise _ => E w' end.
Proof. intros H Hw Em. specialize (H w Hw). rewrite Em in H. exact H. Qed.

(** *** Invariants *)

Lemma inv_ret {A} (I : world V -> Prop) (a : A) : inv I (ret a).
Proof. apply hoare_ret. auto. Qed.

Lemma inv_raise {A} (I : world V -> Prop) e : inv I (@raise V A e).
Proof. apply hoare_raise. auto. Qed.

Lemma inv_lift {A} (I : world V -> Prop) (x : result A) : inv I (lift x).
Proof. apply hoare_lift; auto. Qed.

Lemma inv_bind {A B} (I : world V -> Prop) (m : M V A) (k : A -> M V B) :
  inv I m -> (forall a, inv I (k a)) -> inv I (bind m k).
Proof. intros Hm Hk. eapply hoare_bind; [exact Hm|exact Hk]. Qed.

Lemma inv_for_each {A} (I : world V -> Prop) (xs : list A) (body : A -> M V unit) :
  (forall x, In x xs -> inv I (body x)) -> inv I (for_each xs body).
Proof. apply hoare_for_each. Qed.

Lemma inv_vendor (I : world V -> Prop) c : sessionless I -> inv I (vendor c).
Proof. apply hoare_vendor. Qed.

Lemma inv_method (I : world V -> Prop) obj name (args : M V call) :
  sessionless I -> inv I args -> inv I (method obj name args).
Proof. apply hoare_method. Qed.

Lemma inv_for_fold {A S} (I : world V -> Prop) (xs : list A) (acc : S)
    (body : S -> A -> M V S) :
  (forall s x, inv I (body s x)) -> inv I (for_fold xs acc body).
Proof. apply hoare_for_fold. Qed.

Lemma inv_try {A} (I : world V -> Prop) (m h : M V A) :
  inv I m -> inv I h -> inv I (try_except m h).
Proof. apply hoare_try. Qed.

Lemma inv_when {A} (I : world V -> Prop) b (m : M V A) : inv I m -> inv I (when b m).
Proof. apply hoare_when. Qed.

Lemma inv_getitem (I : world V -> Prop) d key : inv I (getitem d key).
Proof. apply hoare_getitem. Qed.

Lemma inv_divide (I : world V -> Prop) a n : inv I (divide a n).
Proof. apply hoare_divide. Qed.

Lemma inv_frame_read (I : world V -> Prop) r : inv I (frame_read r).
Proof. intros w Hw. unfold frame_read. destruct (frames w !! r); exact Hw. Qed.

End Hoare.

Ltac inv_step :=
  first
    [ apply inv_ret | apply inv_raise | apply inv_lift
    | apply inv_getitem | apply inv_divide
    | apply inv_frame_read
    | apply inv_vendor; assumption
    | apply inv_method; [assumption|]
    | apply inv_when | apply inv_try
    | apply inv_for_each; intros
    | apply inv_for_fold; intros
    | apply inv_bind; [|intros]
    | match goal with
      | |- inv _ (match ?x with _ => _ end) => destruct x
      end ].

(** ** The file system *)

Section Files.
Context {V : Type} {cympy : Cympy V} {py : PyRuntime}.

Lemma files_sessionless fs : sessionless (V:=V) (files_are fs).
Proof. intros w v Hw. exact Hw. Qed.

Lemma files_frame_write fs r f : inv (V:=V) (files_are fs) (frame_write r f).
Proof. intros w Hw. exact Hw. Qed.

Lemma files_frame_new fs f : inv (V:=V) (files_are fs) (frame_new f).
Proof. intros w Hw. exact Hw. Qed.

Ltac files_step :=
  first [ apply files_frame_write | apply files_frame_new | inv_step ].

Lemma fmu_wrapper_files fs f vn vv ls lpn lv ps ppn pv on ono wr :
  inv (V:=V) (files_are fs) (fmu_wrapper f vn vv ls lpn lv ps ppn pv on ono wr).
Proof.
  pose proof (files_sessionless fs) as Hs.
  unfold fmu_wrapper, _set_voltages, set_new_loads, set_new_pvs, _add_loads, _add_pvs,
    _add_loads_body, _add_pvs_body, run_power_flow, _write_results, _output_values.
  repeat files_step.
Qed.

Lemma load_allocation_files fs values :
  inv (V:=V) (files_are fs) (load_allocation values).
Proof.
  pose proof (files_sessionless fs) as Hs.
  unfold load_allocation, in_demand. simpl. repeat files_step.
Qed.

Lemma extraction_files fs r b :
  inv (V:=V) (files_are fs) (get_voltage r b) /\
  inv (files_are fs) (get_overload r) /\
  inv (files_are fs) (get_load r) /\
  inv (files_are fs) (get_distance r) /\
  inv (files_are fs) (get_coordinates r) /\
  inv (files_are fs) list_nodes.
Proof.
  pose proof (files_sessionless fs) as Hs.
  unfold get_voltage, get_overload, get_load, get_distance, get_coordinates, list_nodes,
    DataFrame, frame_copy, reset_column, for_itertuples, query_device_into,
    query_node_into, assign_apply.
  repeat split; repeat files_step.
Qed.

(** C2. Nothing is persisted.  [_write_results] returns [True] and leaves
    the world as it is; two calls of [fmu_wrapper] that differ in
    [write_result] only have the same outcome: the same returned list or
    exception, the same world, the same vendor calls; and no function of
    the module changes the file system. *)
Theorem C2_nothing_persisted :
  (forall f (w : world V), _write_results f w = (Ret true, w, [])) /\
  (forall f vn vv ls lpn lv ps ppn pv on ono wr1 wr2 (w : world V),
     fmu_wrapper f vn vv ls lpn lv ps ppn pv on ono wr1 w
     = fmu_wrapper f vn vv ls lpn lv ps ppn pv on ono wr2 w) /\
  (forall f vn vv ls lpn lv ps ppn pv on ono wr (w : world V),
     files (world_after (fmu_wrapper f vn vv ls lpn lv ps ppn pv on ono wr w))
     = files w) /\
  (forall values (w : world V),
     files (world_after (load_allocation values w)) = files w) /\
  (forall r b (w : world V),
     files (world_after (get_voltage r b w)) = files w /\
     files (world_after (get_overload r w)) = files w /\
     files (world_after (get_load r w)) = files w /\
     files (world_after (get_distance r w)) = files w /\
     files (world_after (get_coordinates r w)) = files w /\
     files (world_after (list_nodes w)) = files w).
Proof.
  assert (K : forall A (m : M V A) (w : world V),
            inv (files_are (files w)) m -> files (world_after (m w)) = files w).
  { intros A m w Hm. specialize (Hm w eq_refl). unfold world_after.
    destruct (m w) as [[[a|e] w1] t1]; exact Hm. }
  split; [reflexivity|]. split; [|split; [|split]].
  - intros. unfold fmu_wrapper. cbv zeta.
    repeat (apply bind_ext; intros). rewrite !bind_when_write. reflexivity.
  - intros. apply K, fmu_wrapper_files.
  - intros. apply K, load_allocation_files.
  - intros r b w.
    destruct (extraction_files (files w) r b) as (H1 & H2 & H3 & H4 & H5 & H6).
    repeat split; apply K; assumption.
Qed.

End Files.

(** ** Exceptions of vendor calls *)

Section Propagation.
Context {V : Type} {cympy : Cympy V} {py : PyRuntime}.

Lemma propagates_silent {A} (m : M V A) : silent m -> propagates m.
Proof.
  intros Hs w r w' t c e E Hin. specialize (Hs w). rewrite E in Hs. simpl in Hs.
  subst t. destruct Hin.
Qed.

Lemma propagates_vendor c : propagates (vendor (V:=V) c).
Proof.
  intros w r w' t c' e E Hin. apply vendor_inv in E as (-> & _).
  destruct Hin as [[= _ ->]|[]]. reflexivity.
Qed.

Lemma propagates_bind {A B} (m : M V A) (k : A -> M V B) :
  propagates m -> (forall a, propagates (k a)) -> propagates (bind m k).
Proof.
  intros Hm Hk w r w' t c e E Hin.
  apply bind_inv in E as [(e' & Em & ->)|(a & w1 & t1 & t2 & Em & Ek & ->)].
  - pose proof (Hm _ _ _ _ _ _ Em Hin) as [= ->]. reflexivity.
  - apply in_app_iff in Hin as [Hin|Hin].
    + discriminate (Hm _ _ _ _ _ _ Em Hin).
    + apply (Hk _ _ _ _ _ _ _ Ek Hin).
Qed.

Lemma propagates_for_each {A} (xs : list A) (body : A -> M V unit) :
  (forall x, propagates (body x)) -> propagates (for_each xs body).
Proof.
  intros H. induction xs as [|x xs IH]; simpl.
  - apply propagates_silent. intros w. reflexivity.
  - apply propagates_bind; auto.
Qed.

Lemma silent_ret {A} (a : A) : silent (ret (V:=V) a).
Proof. intros w. reflexivity. Qed.

Lemma silent_raise {A} e : silent (@raise V A e).
Proof. intros w. reflexivity. Qed.

Lemma silent_lift {A} (x : result A) : silent (lift (V:=V) x).
Proof. intros w. reflexivity. Qed.

Lemma silent_frame_read r : silent (frame_read (V:=V) r).
Proof. intros w. unfold frame_read. destruct (frames w !! r); reflexivity. Qed.

Lemma silent_frame_write r f : silent (frame_write (V:=V) r f).
Proof. intros w. reflexivity. Qed.

Lemma silent_frame_new f : silent (frame_new (V:=V) f).
Proof. intros w. reflexivity. Qed.

Ltac propagates_step :=
  first
    [ apply propagates_vendor
    | apply propagates_bind; [|intros]
    | apply propagates_for_each; intros
    | apply propagates_silent;
      first [ apply silent_ret | apply silent_raise | apply silent_lift
            | apply silent_frame_read | apply silent_frame_write
            | apply silent_frame_new ]
    | match goal with
      | |- propagates (match ?x with _ => _ end) => destruct x
      end ].

Lemma extraction_propagates r b :
  propagates (get_voltage (V:=V) r b) /\
  propagates (get_overload (V:=V) r) /\
  propagates (get_load (V:=V) r) /\
  propagates (get_distance (V:=V) r) /\
  propagates (get_coordinates (V:=V) r) /\
  propagates (list_nodes (V:=V)).
Proof.
  unfold get_voltage, get_overload, get_load, get_distance, get_coordinates, list_nodes,
    DataFrame, frame_copy, reset_column, for_itertuples, query_device_into,
    query_node_into, assign_apply.
  repeat split; repeat propagates_step.
Qed.


End Propagation.



(** ** Dataframes *)

Section Frames.

Lemma get_column_put c name vals cols :
  get_column c (put_column name vals cols)
  = if String.eqb c name then Some vals else get_column c cols.
Proof.
  induction cols as [|[k old] cols IH]; simpl.
  - rewrite (String.eqb_sym name c). reflexivity.
  - destruct (String.eqb k name) eqn:Ek; simpl.
    + apply String.eqb_eq in Ek as ->.
      rewrite (String.eqb_sym name c). destruct (String.eqb c name); reflexivity.
    + destruct (String.eqb k c) eqn:Ec.
      * apply String.eqb_eq in Ec as ->. rewrite Ek. reflexivity.
      * exact IH.
Qed.

Lemma get_column_app_other c name vals cols :
  c <> name -> get_column c (cols ++ [(name, vals)]) = get_column c cols.
Proof.
  intros Hne. induction cols as [|[k old] cols IH]; simpl.
  - apply String.eqb_neq in Hne. rewrite (String.eqb_sym name c), Hne. reflexivity.
  - destruct (String.eqb k c); [reflexivity|exact IH].
Qed.

Lemma get_column_map_other c name (g : list pyval -> list pyval) cols :
  c <> name ->
  get_column c (map (fun col : string * list pyval =>
                       if String.eqb (fst col) name then (fst col, g (snd col)) else col)
                  cols)
  = get_column c cols.
Proof.
  intros Hne. induction cols as [|[k old] cols IH]; simpl; [reflexivity|].
  destruct (String.eqb k name) eqn:Ek; simpl.
  - apply String.eqb_eq in Ek as ->. apply not_eq_sym, String.eqb_neq in Hne.
    rewrite Hne. exact IH.
  - destruct (String.eqb k c); [reflexivity|exact IH].
Qed.

Lemma get_column_map_same name (g : list pyval -> list pyval) cols :
  get_column name (map (fun col : string * list pyval =>
                          if String.eqb (fst col) name then (fst col, g (snd col)) else col)
                     cols)
  = option_map g (get_column name cols).
Proof.
  induction cols as [|[k old] cols IH]; simpl; [reflexivity|].
  destruct (String.eqb k name) eqn:Ek; simpl; rewrite Ek; [reflexivity|exact IH].
Qed.

Lemma has_column_get name f :
  has_column name f = true <-> is_Some (get_column name (columns f)).
Proof.
  unfold has_column. induction (columns f) as [|[k old] cols IH]; simpl.
  - split; [discriminate|intros [x [=]]].
  - destruct (String.eqb k name); simpl; [|exact IH].
    split; [eauto|reflexivity].
Qed.

Lemma existsb_label label idx : existsb (Z.eqb label) idx = true <-> In label idx.
Proof.
  rewrite existsb_exists. split.
  - intros (x & Hx & E). apply Z.eqb_eq in E as ->. exact Hx.
  - intros H. exists label. split; [exact H|apply Z.eqb_refl].
Qed.

(** [.loc] on a label of the index keeps the index and every other
    column, and the column exists afterwards. *)
Lemma loc_set_present label name v f :
  In label (index f) ->
  index (loc_set label name v f) = index f /\
  (forall c, c <> name ->
     get_column c (columns (loc_set label name v f)) = get_column c (columns f)) /\
  is_Some (get_column name (columns (loc_set label name v f))).
Proof.
  intros Hl. unfold loc_set.
  set (f1 := if has_column name f then f else _).
  assert (H1 : index f1 = index f) by (unfold f1; destruct (has_column name f); reflexivity).
  assert (H2 : forall c, c <> name -> get_column c (columns f1) = get_column c (columns f)).
  { intros c Hc. unfold f1. destruct (has_column name f); [reflexivity|]. simpl.
    apply get_column_app_other. exact Hc. }
  assert (H3 : is_Some (get_column name (columns f1))).
  { unfold f1. destruct (has_column name f) eqn:Eh.
    - apply has_column_get. exact Eh.
    - simpl. clear. induction (columns f) as [|[k old] cols IH]; simpl.
      + rewrite String.eqb_refl. eauto.
      + destruct (String.eqb k name); [eauto|exact IH]. }
  assert (E : existsb (Z.eqb label) (index f1) = true).
  { apply existsb_label. rewrite H1. exact Hl. }
  rewrite E. simpl. split; [exact H1|]. split.
  - intros c Hc. rewrite get_column_map_other by exact Hc. apply H2. exact Hc.
  - rewrite get_column_map_same. destruct H3 as [x ->]. simpl. eauto.
Qed.

Lemma set_column_inv name vals f f' :
  set_column name vals f = Ret f' ->
  index f' = index f /\
  (forall c, c <> name -> get_column c (columns f') = get_column c (columns f)) /\
  get_column name (columns f') = Some vals.
Proof.
  unfold set_column. destruct (Nat.eqb (length vals) (len f)); [|discriminate].
  intros [= <-]. simpl. split; [reflexivity|]. split.
  - intros c Hc. rewrite get_column_put. apply String.eqb_neq in Hc. rewrite Hc.
    reflexivity.
  - rewrite get_column_put, String.eqb_refl. reflexivity.
Qed.

Lemma enumerate_from_In {A} (k : nat) (l : list A) i x :
  In (i, x) (enumerate_from k l) -> In x l.
Proof.
  revert k. induction l as [|y l IH]; intros k; simpl; [auto|].
  intros [[= _ ->]|H]; [auto|]. right. apply (IH _ H).
Qed.

Lemma itertuples_label f value : In value (itertuples f) -> In (Index value) (index f).
Proof.
  unfold itertuples. intros H. apply in_map_iff in H as ([i label] & <- & H).
  simpl. apply (enumerate_from_In _ _ _ _ H).
Qed.

Lemma extends_step cols made name f0 f1 f2 :
  In name cols ->
  extends cols made f0 f1 ->
  index f2 = index f1 ->
  (forall c, c <> name -> get_column c (columns f2) = get_column c (columns f1)) ->
  is_Some (get_column name (columns f2)) ->
  extends cols (name :: made) f0 f2.
Proof.
  intros Hn (E1 & E2 & E3) H1 H2 H3. split; [congruence|]. split.
  - intros c Hc. rewrite H2; [apply E2; exact Hc|]. intros ->. contradiction.
  - intros c [<-|Hc]; [exact H3|].
    destruct (String.eqb_spec c name) as [->|Hne]; [exact H3|].
    rewrite H2 by exact Hne. apply E3. exact Hc.
Qed.

Lemma extends_weaken cols made made' f0 f1 :
  (forall c, In c made' -> In c made) -> extends cols made f0 f1 ->
  extends cols made' f0 f1.
Proof. intros H (E1 & E2 & E3). split; [exact E1|]. split; [exact E2|]. auto. Qed.

End Frames.

(** ** Copies on the dataframe heap *)

Section Heap.
Context {V : Type} {cympy : Cympy V} {py : PyRuntime}.

Lemma copy_inv_intact r copy f0 cols made (w : world V) :
  copy_inv r copy f0 cols made w -> intact r f0 w.
Proof. intros (_ & H & _). exact H. Qed.

Lemma copy_inv_sessionless r copy f0 cols made :
  sessionless (V:=V) (copy_inv r copy f0 cols made).
Proof. intros w v H. exact H. Qed.

Lemma copy_inv_write r copy f0 cols made made' (w : world V) f2 :
  copy_inv r copy f0 cols made w ->
  extends cols made' f0 f2 ->
  copy_inv r copy f0 cols made' (with_frames w (<[copy := f2]> (frames w))).
Proof.
  intros (Hne & Hr & f1 & Hc & _) Hext. split; [exact Hne|]. split.
  - unfold intact. simpl. rewrite list_lookup_insert_ne by auto. exact Hr.
  - exists f2. split; [|exact Hext]. simpl.
    apply list_lookup_insert_eq. eapply lookup_lt_Some. exact Hc.
Qed.

Lemma hoare_frame_copy r f0 cols :
  hoare (V:=V) (intact r f0) (frame_copy r)
    (fun copy => copy_inv r copy f0 cols []) (intact r f0).
Proof.
  intros w Hw. unfold frame_copy, bind, frame_read, frame_new.
  unfold intact in Hw. rewrite Hw. simpl.
  pose proof (lookup_lt_Some _ _ _ Hw) as Hlt.
  split; [lia|]. split.
  - unfold intact. simpl. rewrite lookup_app_l by exact Hlt. exact Hw.
  - exists f0. split.
    + simpl. rewrite lookup_app_r by lia. rewrite Nat.sub_diag. reflexivity.
    + split; [reflexivity|]. split; [reflexivity|]. intros c [].
Qed.

Lemma hoare_reset_column r copy f0 cols made name :
  In name cols ->
  hoare (V:=V) (copy_inv r copy f0 cols made) (reset_column copy name)
    (fun _ => copy_inv r copy f0 cols (name :: made)) (intact r f0).
Proof.
  intros Hn w Hw. pose proof Hw as (Hne & Hr & f1 & Hc & Hext).
  unfold reset_column, bind, frame_read, lift, frame_write. rewrite Hc. simpl.
  destruct (set_column name (repeat (PyNum 0) (len f1)) f1) as [f2|e] eqn:E; simpl.
  - apply set_column_inv in E as (E1 & E2 & E3).
    eapply copy_inv_write; [exact Hw|].
    eapply extends_step; eauto; rewrite E3; eauto.
  - exact Hr.
Qed.

Lemma hoare_assign_apply r copy f0 cols made name cast :
  In name cols ->
  hoare (V:=V) (copy_inv r copy f0 cols made) (assign_apply copy name name cast)
    (fun _ => copy_inv r copy f0 cols made) (intact r f0).
Proof.
  intros Hn w Hw. pose proof Hw as (Hne & Hr & f1 & Hc & Hext).
  unfold assign_apply, bind, frame_read, lift, frame_write. rewrite Hc. simpl.
  destruct (get_column name (columns f1)) as [cells|]; simpl; [|exact Hr].
  destruct (apply_cells cast cells) as [cells'|e]; simpl; [|exact Hr].
  destruct (set_column name cells' f1) as [f2|e] eqn:E; simpl; [|exact Hr].
  apply set_column_inv in E as (E1 & E2 & E3).
  eapply copy_inv_write; [exact Hw|].
  eapply extends_weaken; [|eapply extends_step; eauto; rewrite E3; eauto].
  intros c Hc'. right. exact Hc'.
Qed.

Lemma hoare_query_device_into r copy f0 cols made value name keyword :
  In name cols -> In (Index value) (index f0) ->
  hoare (V:=V) (copy_inv r copy f0 cols made)
    (query_device_into copy value name keyword)
    (fun _ => copy_inv r copy f0 cols made) (intact r f0).
Proof.
  intros Hn Hl w Hw. pose proof Hw as (Hne & Hr & f1 & Hc & Hext).
  unfold query_device_into, bind, lift, vendor, frame_read, frame_write.
  destruct (row_attr value "device_number") as [dn|e]; simpl; [|exact Hr].
  destruct (row_attr value "device_type_id") as [dt|e]; simpl; [|exact Hr].
  destruct (py_int dt) as [ty|e]; simpl; [|exact Hr].
  destruct (respond (session w) (QueryInfoDevice keyword dn ty)) as [[x|e] v']; simpl;
    [|exact Hr].
  rewrite Hc. simpl.
  assert (Hl1 : In (Index value) (index f1)).
  { destruct Hext as (-> & _). exact Hl. }
  destruct (loc_set_present (Index value) name x f1 Hl1) as (E1 & E2 & E3).
  apply (copy_inv_write r copy f0 cols made made
           {| session := v'; files := files w; frames := frames w |}); [exact Hw|].
  eapply extends_weaken; [|eapply extends_step; eauto].
  intros c Hc'. right. exact Hc'.
Qed.

Lemma hoare_query_node_into r copy f0 cols made value name keyword :
  In name cols -> In (Index value) (index f0) ->
  hoare (V:=V) (copy_inv r copy f0 cols made)
    (query_node_into copy value name keyword)
    (fun _ => copy_inv r copy f0 cols made) (intact r f0).
Proof.
  intros Hn Hl w Hw. pose proof Hw as (Hne & Hr & f1 & Hc & Hext).
  unfold query_node_into, bind, lift, vendor, frame_read, frame_write.
  destruct (row_attr value "node_id") as [nid|e]; simpl; [|exact Hr].
  destruct (respond (session w) (QueryInfoNode keyword nid)) as [[x|e] v']; simpl;
    [|exact Hr].
  rewrite Hc. simpl.
  assert (Hl1 : In (Index value) (index f1)).
  { destruct Hext as (-> & _). exact Hl. }
  destruct (loc_set_present (Index value) name x f1 Hl1) as (E1 & E2 & E3).
  apply (copy_inv_write r copy f0 cols made made
           {| session := v'; files := files w; frames := frames w |}); [exact Hw|].
  eapply extends_weaken; [|eapply extends_step; eauto].
  intros c Hc'. right. exact Hc'.
Qed.

(** The loop over the tuples of the input frame. *)
Lemma hoare_for_itertuples r copy f0 cols made (body : row -> M V unit) :
  (forall value, In (Index value) (index f0) ->
     hoare (copy_inv r copy f0 cols made) (body value)
       (fun _ => copy_inv r copy f0 cols made) (intact r f0)) ->
  hoare (copy_inv r copy f0 cols made) (for_itertuples r body)
    (fun _ => copy_inv r copy f0 cols made) (intact r f0).
Proof.
  intros Hb. unfold for_itertuples.
  eapply hoare_bind with
    (Q1 := fun f w => f = f0 /\ copy_inv r copy f0 cols made w).
  - intros w Hw. pose proof Hw as (_ & Hr & _). unfold frame_read.
    unfold intact in Hr. rewrite Hr. auto.
  - intros f. intros w [-> Hw]. revert w Hw.
    apply hoare_for_each. intros value Hv. apply Hb.
    apply itertuples_label. exact Hv.
Qed.

Lemma copy_inv_weaken r copy f0 cols made made' (w : world V) :
  (forall c, In c made' -> In c made) ->
  copy_inv r copy f0 cols made w -> copy_inv r copy f0 cols made' w.
Proof.
  intros H (Hne & Hr & f1 & Hc & Hext). split; [exact Hne|]. split; [exact Hr|].
  exists f1. split; [exact Hc|]. eapply extends_weaken; eauto.
Qed.

Lemma hoare_extraction cols r f0 (m : M V nat) :
  hoare (intact r f0) m (fun copy => copy_inv r copy f0 cols cols) (intact r f0) ->
  forall w, intact r f0 w -> extraction_ok cols r f0 (m w).
Proof.
  intros H w Hw. specialize (H w Hw). unfold extraction_ok, world_after.
  destruct (m w) as [[[copy|e] w'] t]; simpl.
  - split; [eapply copy_inv_intact; exact H|]. intros c [= <-]. exact H.
  - split; [exact H|]. intros c [=].
Qed.

End Heap.

Ltac in_list :=
  first [ assumption
        | solve [repeat (first [left; reflexivity | right])]
        | solve [simpl in *; tauto] ].

Ltac copy_start names :=
  eapply hoare_bind; [apply (hoare_frame_copy _ _ names)|intros].

Ltac copy_step :=
  first
    [ apply hoare_reset_column; in_list
    | apply hoare_query_device_into; [in_list | assumption]
    | apply hoare_query_node_into; [in_list | assumption]
    | apply hoare_assign_apply; in_list
    | apply hoare_for_itertuples; intros
    | apply hoare_for_each; intros
    | apply hoare_ret; intros ? ?; eapply copy_inv_weaken; [|eassumption];
      intros ? ?; simpl in *; tauto
    | eapply hoare_bind; [|intros]
    | match goal with |- hoare _ (if ?b then _ else _) _ _ => destruct b end ].

Section Extraction.
Context {V : Type} {cympy : Cympy V} {py : PyRuntime}.

Lemma get_voltage_copy r f0 b :
  hoare (V:=V) (intact r f0) (get_voltage r b)
    (fun copy => copy_inv r copy f0 ["voltage_A"; "voltage_B"; "voltage_C"]
                   ["voltage_A"; "voltage_B"; "voltage_C"])
    (intact r f0).
Proof.
  unfold get_voltage. copy_start ["voltage_A"; "voltage_B"; "voltage_C"].
  repeat copy_step.
Qed.

Lemma get_overload_copy r f0 :
  hoare (V:=V) (intact r f0) (get_overload r)
    (fun copy => copy_inv r copy f0 ["overload_A"; "overload_B"; "overload_C"]
                   ["overload_A"; "overload_B"; "overload_C"])
    (intact r f0).
Proof.
  unfold get_overload. copy_start ["overload_A"; "overload_B"; "overload_C"].
  repeat copy_step.
Qed.

Lemma get_load_copy r f0 :
  hoare (V:=V) (intact r f0) (get_load r)
    (fun copy =>
       copy_inv r copy f0
         ["MWA"; "MWB"; "MWC"; "MWTOT"; "MVARA"; "MVARB"; "MVARC"; "MVARTOT"]
         ["MWA"; "MWB"; "MWC"; "MWTOT"; "MVARA"; "MVARB"; "MVARC"; "MVARTOT"])
    (intact r f0).
Proof.
  unfold get_load.
  copy_start ["MWA"; "MWB"; "MWC"; "MWTOT"; "MVARA"; "MVARB"; "MVARC"; "MVARTOT"].
  repeat copy_step.
Qed.

Lemma get_distance_copy r f0 :
  hoare (V:=V) (intact r f0) (get_distance r)
    (fun copy => copy_inv r copy f0 ["distance"] ["distance"]) (intact r f0).
Proof. unfold get_distance. copy_start ["distance"]. repeat copy_step. Qed.

Lemma get_coordinates_copy r f0 :
  hoare (V:=V) (intact r f0) (get_coordinates r)
    (fun copy => copy_inv r copy f0 ["latitude"; "longitude"; "section_id"]
                   ["latitude"; "longitude"; "section_id"])
    (intact r f0).
Proof.
  unfold get_coordinates. copy_start ["latitude"; "longitude"; "section_id"].
  repeat copy_step.
Qed.

End Extraction.

Section ExtractionCopies.
Context {V : Type} {cympy : Cympy V} {py : PyRuntime}.

(** C5. Each result-extraction function leaves the frame it is given
    unmodified, also when it raises, and returns a new frame with the same
    rows in the same order, in which every column of the input that does
    not bear the name of one of the function's result columns is unchanged,
    and which has, besides, the function's result columns and no other
    column.  A column of the input that bears the name of a result column
    is reset and overwritten in the copy. *)
Theorem C5_extraction_extends_a_copy r f0 (w : world V) b :
  intact r f0 w ->
  extraction_ok ["voltage_A"; "voltage_B"; "voltage_C"] r f0 (get_voltage r b w) /\
  extraction_ok ["overload_A"; "overload_B"; "overload_C"] r f0 (get_overload r w) /\
  extraction_ok ["MWA"; "MWB"; "MWC"; "MWTOT"; "MVARA"; "MVARB"; "MVARC"; "MVARTOT"]
    r f0 (get_load r w) /\
  extraction_ok ["distance"] r f0 (get_distance r w) /\
  extraction_ok ["latitude"; "longitude"; "section_id"] r f0 (get_coordinates r w).
Proof.
  intros Hw.
  split; [apply hoare_extraction; [apply get_voltage_copy|exact Hw]|].
  split; [apply hoare_extraction; [apply get_overload_copy|exact Hw]|].
  split; [apply hoare_extraction; [apply get_load_copy|exact Hw]|].
  split; [apply hoare_extraction; [apply get_distance_copy|exact Hw]|].
  apply hoare_extraction; [apply get_coordinates_copy|exact Hw].
Qed.

End ExtractionCopies.

(** [get_voltage] on a frame that already has a column [voltage_A]: the
    values 5 and 6 of that column are 7 and 7 in the returned copy. *)
Lemma C5_result_column_of_input_is_overwritten :
  get_column "voltage_A" (columns Demo.devices) = Some [PyNum 5; PyNum 6] /\
  fst (fst (@get_voltage unit (Demo.stateless Demo.feeder) Demo.runtime 0 false
              Demo.world1)) = Ret 1 /\
  frames (world_after (@get_voltage unit (Demo.stateless Demo.feeder) Demo.runtime
                         0 false Demo.world1))
  = [Demo.devices;
     {| index := [0; 1]%Z;
        columns := [("device_number", [PyStr "L1"; PyStr "L2"]);
                    ("device_type_id", [PyNum 10; PyNum 10]);
                    ("voltage_A", [PyNum 7; PyNum 7]);
                    ("voltage_B", [PyNum 7; PyNum 7]);
                    ("voltage_C", [PyNum 7; PyNum 7])] |}].
Proof. vm_compute. auto. Qed.

Lemma C5_extraction_extends_a_copy_witness :
  intact 0 Demo.devices Demo.world1 /\
  extraction_ok ["voltage_A"; "voltage_B"; "voltage_C"] 0 Demo.devices
    (@get_voltage unit (Demo.stateless Demo.feeder) Demo.runtime 0 false Demo.world1).
Proof.
  assert (I : intact 0 Demo.devices Demo.world1) by reflexivity.
  split; [exact I|].
  exact (proj1 (C5_extraction_extends_a_copy (cympy := Demo.stateless Demo.feeder)
                  (py := Demo.runtime) 0 Demo.devices Demo.world1 false I)).
Defined.

(** ** Coordinates *)

Section Steps.
Context {V : Type} {cympy : Cympy V} {py : PyRuntime}.

Lemma query_device_into_inv copy value column keyword (w : world V) u w' t :
  query_device_into copy value column keyword w = (Ret u, w', t) ->
  query_step copy (Index value) column keyword w w' t.
Proof.
  unfold query_device_into, bind, lift, vendor, frame_read, frame_write.
  destruct (row_attr value "device_number") as [dn|e]; simpl; [|discriminate].
  destruct (row_attr value "device_type_id") as [dt|e]; simpl; [|discriminate].
  destruct (py_int dt) as [ty|e]; simpl; [|discriminate].
  destruct (respond (session w) (QueryInfoDevice keyword dn ty)) as [[x|e] v'];
    simpl; [|discriminate].
  destruct (frames w !! copy) as [f1|] eqn:Ef; simpl; [|discriminate].
  intros [= <- <- <-]. exists f1, x, (QueryInfoDevice keyword dn ty).
  split; [exact Ef|]. split; [reflexivity|]. split; [reflexivity|].
  intros k. unfold responses. simpl. destruct (String.eqb keyword k); reflexivity.
Qed.

Lemma query_node_into_inv copy value column keyword (w : world V) u w' t :
  query_node_into copy value column keyword w = (Ret u, w', t) ->
  query_step copy (Index value) column keyword w w' t.
Proof.
  unfold query_node_into, bind, lift, vendor, frame_read, frame_write.
  destruct (row_attr value "node_id") as [nid|e]; simpl; [|discriminate].
  destruct (respond (session w) (QueryInfoNode keyword nid)) as [[x|e] v'];
    simpl; [|discriminate].
  destruct (frames w !! copy) as [f1|] eqn:Ef; simpl; [|discriminate].
  intros [= <- <- <-]. exists f1, x, (QueryInfoNode keyword nid).
  split; [exact Ef|]. split; [reflexivity|]. split; [reflexivity|].
  intros k. unfold responses. simpl. destruct (String.eqb keyword k); reflexivity.
Qed.

Lemma responses_app k t1 t2 : responses k (t1 ++ t2) = responses k t1 ++ responses k t2.
Proof. apply omap_app. Qed.

Lemma write_at_length label v idx vals :
  length (write_at label v idx vals) = length vals.
Proof.
  revert vals. induction idx as [|l idx IH]; intros [|x vals]; simpl; auto.
Qed.

Lemma write_at_nodup label v idx vals k :
  NoDup idx -> idx !! k = Some label -> length vals = length idx ->
  write_at label v idx vals = <[k := v]> vals.
Proof.
  revert vals k. induction idx as [|l idx IH]; intros vals k Hnd Hk Hlen.
  - discriminate Hk.
  - destruct vals as [|x vals]; [discriminate Hlen|]. simpl in Hlen.
    apply NoDup_cons in Hnd as [Hl Hnd]. destruct k as [|k]; simpl in *.
    + injection Hk as ->. rewrite Z.eqb_refl. f_equal.
      clear IH. revert vals Hlen. induction idx as [|l' idx IH]; intros [|y vals] Hlen;
        simpl; try reflexivity; try discriminate.
      apply not_elem_of_cons in Hl as [Hne Hl]. apply NoDup_cons in Hnd as [_ Hnd].
      destruct (Z.eqb_spec l' label) as [->|_]; [now destruct Hne|].
      f_equal. apply IH; auto.
    + destruct (Z.eqb_spec l label) as [->|_].
      * exfalso. apply Hl. apply list_elem_of_lookup. eauto.
      * f_equal. apply IH; auto.
Qed.

Lemma zip_snoc (idx : list Z) (xs : list pyval) label x :
  idx !! length xs = Some label ->
  zip idx (xs ++ [x]) = zip idx xs ++ [(label, x)].
Proof.
  revert xs. induction idx as [|l idx IH]; intros xs H; [discriminate H|].
  destruct xs as [|y xs]; simpl in *.
  - injection H as ->. destruct idx; reflexivity.
  - f_equal. apply IH. exact H.
Qed.

Lemma written_snoc idx xs label x :
  idx !! length xs = Some label ->
  written idx (xs ++ [x]) = write_at label x idx (written idx xs).
Proof.
  intros H. unfold written. rewrite (zip_snoc idx xs label x H), fold_left_app.
  reflexivity.
Qed.

Lemma written_prefix idx xs :
  NoDup idx -> length xs <= length idx ->
  written idx xs = xs ++ repeat (PyNum 0) (length idx - length xs).
Proof.
  intros Hnd. induction xs as [|x xs IH] using rev_ind; intros Hlen.
  - unfold written. destruct idx; simpl; [reflexivity|]. reflexivity.
  - rewrite length_app in Hlen. simpl in Hlen.
    destruct (lookup_lt_is_Some_2 idx (length xs) ltac:(lia)) as [label Hk].
    rewrite (written_snoc idx xs label x Hk), IH by lia.
    rewrite (write_at_nodup label x idx _ (length xs) Hnd Hk).
    + rewrite insert_app_r_alt by lia. rewrite Nat.sub_diag, length_app. simpl.
      destruct (length idx - length xs) as [|m] eqn:Em; [lia|]. simpl.
      replace (length idx - (length xs + 1)) with m by lia.
      rewrite <- app_assoc. reflexivity.
    + rewrite length_app, repeat_length. lia.
Qed.

Lemma written_nodup idx xs :
  NoDup idx -> length xs = length idx -> written idx xs = xs.
Proof.
  intros Hnd Hlen. rewrite written_prefix by (auto; lia).
  rewrite Hlen, Nat.sub_diag, app_nil_r. reflexivity.
Qed.

Lemma loc_set_column label name v f :
  In label (index f) -> is_Some (get_column name (columns f)) ->
  index (loc_set label name v f) = index f /\
  get_column name (columns (loc_set label name v f))
    = option_map (write_at label v (index f)) (get_column name (columns f)).
Proof.
  intros Hl Hc. unfold loc_set.
  apply has_column_get in Hc. rewrite Hc.
  apply existsb_label in Hl. rewrite Hl. simpl. split; [reflexivity|].
  apply get_column_map_same.
Qed.

Lemma tracked_other copy idx column keyword k t (w w' : world V) label c kw t1 :
  query_step copy label c kw w w' t1 ->
  c <> column -> kw <> keyword -> In label idx ->
  tracked copy idx column keyword k t w ->
  tracked copy idx column keyword k (t ++ t1) w'.
Proof.
  intros (f1 & x & call & Ef & Ew & -> & Hr) Hc Hk Hl (f' & Ef' & Ei & Eg & El).
  rewrite Ef in Ef'. injection Ef' as ->.
  destruct (loc_set_present label c x f' ltac:(rewrite Ei; exact Hl)) as (E1 & E2 & _).
  exists (loc_set label c x f'). split.
  - rewrite Ew. apply list_lookup_insert_eq. eapply lookup_lt_Some. exact Ef.
  - split; [congruence|].
    rewrite responses_app, Hr. apply String.eqb_neq in Hk. rewrite Hk, app_nil_r.
    split; [|exact El]. rewrite E2 by auto. exact Eg.
Qed.

Lemma tracked_same copy idx column keyword k t (w w' : world V) label t1 :
  query_step copy label column keyword w w' t1 ->
  idx !! k = Some label ->
  tracked copy idx column keyword k t w ->
  tracked copy idx column keyword (S k) (t ++ t1) w'.
Proof.
  intros (f1 & x & call & Ef & Ew & -> & Hr) Hk (f' & Ef' & Ei & Eg & El).
  rewrite Ef in Ef'. injection Ef' as ->.
  assert (Hl : In label (index f')).
  { rewrite Ei. apply list_elem_of_In, list_elem_of_lookup. eauto. }
  destruct (loc_set_column label column x f' Hl ltac:(rewrite Eg; eauto)) as (E1 & E2).
  exists (loc_set label column x f'). split.
  - rewrite Ew. apply list_lookup_insert_eq. eapply lookup_lt_Some. exact Ef.
  - split; [congruence|].
    rewrite responses_app, Hr, String.eqb_refl.
    split; [|rewrite length_app; simpl; lia].
    rewrite E2, Eg. simpl. f_equal. rewrite Ei. symmetry.
    apply written_snoc. rewrite El. exact Hk.
Qed.

Lemma update_index_is copy r idx (w w' : world V) f1 f2 :
  update copy w w' f1 f2 -> index_is r idx w -> index_is r idx w'.
Proof.
  intros (Ef & Ew & Ei) (f & Er & Eidx). unfold index_is. rewrite Ew.
  destruct (decide (copy = r)) as [->|Hne].
  - exists f2. rewrite Ef in Er. injection Er as ->. split; [|congruence].
    apply list_lookup_insert_eq. eapply lookup_lt_Some. exact Ef.
  - exists f. rewrite list_lookup_insert_ne by exact Hne. auto.
Qed.

Lemma update_column_is copy idx column cells cells' (w w' : world V) f1 f2 :
  update copy w w' f1 f2 ->
  (get_column column (columns f1) = Some cells ->
   get_column column (columns f2) = Some cells') ->
  column_is copy idx column cells w -> column_is copy idx column cells' w'.
Proof.
  intros (Ef & Ew & Ei) Hg (f & Er & Eidx & Eg). rewrite Ef in Er. injection Er as ->.
  exists f2. split.
  - rewrite Ew. apply list_lookup_insert_eq. eapply lookup_lt_Some. exact Ef.
  - split; [congruence|auto].
Qed.

Lemma reset_column_inv copy name (w : world V) u w' t :
  reset_column copy name w = (Ret u, w', t) ->
  t = [] /\
  exists f1 f2, update copy w w' f1 f2 /\
    (forall c, c <> name -> get_column c (columns f2) = get_column c (columns f1)) /\
    get_column name (columns f2) = Some (repeat (PyNum 0) (length (index f1))).
Proof.
  unfold reset_column, bind, frame_read, lift, frame_write.
  destruct (frames w !! copy) as [f1|] eqn:Ef; simpl; [|discriminate].
  destruct (set_column name (repeat (PyNum 0) (len f1)) f1) as [f2|e] eqn:E; simpl;
    [|discriminate].
  intros [= <- <- <-]. split; [reflexivity|]. exists f1, f2.
  apply set_column_inv in E as (E1 & E2 & E3).
  split; [split; [exact Ef|split; [reflexivity|exact E1]]|]. auto.
Qed.

Lemma assign_apply_inv copy target source cast (w : world V) u w' t :
  assign_apply copy target source cast w = (Ret u, w', t) ->
  t = [] /\
  exists f1 f2 cells cells', update copy w w' f1 f2 /\
    get_column source (columns f1) = Some cells /\
    apply_cells cast cells = Ret cells' /\
    (forall c, c <> target -> get_column c (columns f2) = get_column c (columns f1)) /\
    get_column target (columns f2) = Some cells'.
Proof.
  unfold assign_apply, bind, frame_read, lift, frame_write.
  destruct (frames w !! copy) as [f1|] eqn:Ef; simpl; [|discriminate].
  destruct (get_column source (columns f1)) as [cells|] eqn:Eg; simpl; [|discriminate].
  destruct (apply_cells cast cells) as [cells'|e] eqn:Ea; simpl; [|discriminate].
  destruct (set_column target cells' f1) as [f2|e] eqn:E; simpl; [|discriminate].
  intros [= <- <- <-]. split; [reflexivity|]. exists f1, f2, cells, cells'.
  apply set_column_inv in E as (E1 & E2 & E3).
  split; [split; [exact Ef|split; [reflexivity|exact E1]]|]. auto.
Qed.

Lemma frame_copy_inv r (w : world V) copy w' t :
  frame_copy r w = (Ret copy, w', t) ->
  t = [] /\ exists f, frames w !! r = Some f /\ copy = length (frames w) /\
    frames w' = frames w ++ [f].
Proof.
  unfold frame_copy, bind, frame_read, frame_new.
  destruct (frames w !! r) as [f|] eqn:Ef; simpl; [|discriminate].
  intros [= <- <- <-]. split; [reflexivity|]. exists f. auto.
Qed.

Lemma enumerate_from_lookup {A} (k : nat) (l : list A) i :
  enumerate_from k l !! i = option_map (fun x => (k + i, x)) (l !! i).
Proof.
  revert k i. induction l as [|x l IH]; intros k [|i]; simpl; try reflexivity.
  - rewrite Nat.add_0_r. reflexivity.
  - rewrite IH. replace (S k + i) with (k + S i) by lia. reflexivity.
Qed.

Lemma itertuples_lookup f i value :
  itertuples f !! i = Some value -> index f !! i = Some (Index value).
Proof.
  unfold itertuples, enumerate. rewrite lookup_map, enumerate_from_lookup.
  destruct (index f !! i) as [label|]; simpl; [|discriminate].
  intros [= <-]. reflexivity.
Qed.

Lemma itertuples_length f : length (itertuples f) = length (index f).
Proof.
  unfold itertuples, enumerate. rewrite length_map.
  generalize 0. induction (index f) as [|x l IH]; intros k; simpl; auto.
Qed.

(** A loop whose body advances the tracked column by one row. *)
Lemma tracked_loop copy idx column keyword (body : row -> M V unit) :
  (forall value k t (w : world V) u w' t1,
     body value w = (Ret u, w', t1) -> idx !! k = Some (Index value) ->
     tracked copy idx column keyword k t w ->
     tracked copy idx column keyword (S k) (t ++ t1) w') ->
  forall rows k t (w : world V) u w' t1,
    for_each rows body w = (Ret u, w', t1) ->
    (forall i value, rows !! i = Some value -> idx !! (k + i) = Some (Index value)) ->
    tracked copy idx column keyword k t w ->
    tracked copy idx column keyword (k + length rows) (t ++ t1) w'.
Proof.
  intros Hb. induction rows as [|value rows IH]; intros k t w u w' t1 H Hrows HT;
    simpl in H.
  - apply ret_inv in H as (_ & -> & ->). simpl.
    rewrite Nat.add_0_r, app_nil_r. exact HT.
  - apply bind_ret_inv in H as (a & w1 & ta & tb & Ha & H & ->).
    assert (Hk : idx !! k = Some (Index value)).
    { specialize (Hrows 0 value eq_refl). rewrite Nat.add_0_r in Hrows. exact Hrows. }
    pose proof (Hb _ _ _ _ _ _ _ Ha Hk HT) as HT1.
    simpl. replace (k + S (length rows)) with (S k + length rows) by lia.
    rewrite app_assoc. eapply IH; [exact H| |exact HT1].
    intros i v Hi. replace (S k + i) with (k + S i) by lia. apply Hrows. exact Hi.
Qed.

End Steps.

Ltac to_query_steps :=
  repeat match goal with
    | H : query_device_into _ _ _ _ _ = (Ret _, _, _) |- _ =>
        apply query_device_into_inv in H
    | H : query_node_into _ _ _ _ _ = (Ret _, _, _) |- _ =>
        apply query_node_into_inv in H
    end.

Ltac run_query_steps Hk Hl :=
  repeat match goal with
    | Hs : query_step ?c ?l ?col ?kw ?w _ _,
      HT : tracked ?c _ ?column ?keyword _ _ ?w |- _ =>
        first
          [ pose proof (tracked_same _ _ _ _ _ _ _ _ _ _ Hs Hk HT)
          | let N1 := fresh in
            let N2 := fresh in
            assert (N1 : col <> column) by discriminate;
            assert (N2 : kw <> keyword) by discriminate;
            pose proof (tracked_other _ _ _ _ _ _ _ _ _ _ _ _ Hs N1 N2 Hl HT);
            clear N1 N2 ];
        clear HT Hs
    end.

Section Coordinates.
Context {V : Type} {cympy : Cympy V} {py : PyRuntime}.

Lemma lookup_In (idx : list Z) k label : idx !! k = Some label -> In label idx.
Proof. intros H. apply list_elem_of_In, list_elem_of_lookup. eauto. Qed.

Lemma get_coordinates_body copy idx column keyword value k t (w : world V) u w' t1 :
  (column = "latitude" /\ keyword = "CoordY") \/
  (column = "longitude" /\ keyword = "CoordX") ->
  bind (query_device_into copy value "latitude" "CoordY") (fun _ =>
    bind (query_device_into copy value "longitude" "CoordX") (fun _ =>
      query_device_into copy value "section_id" "SectionId")) w = (Ret u, w', t1) ->
  idx !! k = Some (Index value) ->
  tracked copy idx column keyword k t w ->
  tracked copy idx column keyword (S k) (t ++ t1) w'.
Proof.
  intros Hc H Hk HT. pose proof (lookup_In _ _ _ Hk) as Hl.
  apply bind_ret_inv in H as (a1 & w1 & ta & tb & H1 & H & ->).
  apply bind_ret_inv in H as (a2 & w2 & tc & td & H2 & H3 & ->).
  to_query_steps.
  destruct Hc as [[-> ->]|[-> ->]]; run_query_steps Hk Hl.
  all: rewrite <- !app_assoc in *; assumption.
Qed.

Lemma list_nodes_body copy idx column keyword node k t (w : world V) u w' t1 :
  (column = "latitude" /\ keyword = "CoordY") \/
  (column = "longitude" /\ keyword = "CoordX") ->
  bind (query_node_into copy node "section_id" "SectionId") (fun _ =>
    bind (query_node_into copy node "latitude" "CoordY") (fun _ =>
      bind (query_node_into copy node "longitude" "CoordX") (fun _ =>
        query_node_into copy node "distance" "Distance"))) w = (Ret u, w', t1) ->
  idx !! k = Some (Index node) ->
  tracked copy idx column keyword k t w ->
  tracked copy idx column keyword (S k) (t ++ t1) w'.
Proof.
  intros Hc H Hk HT. pose proof (lookup_In _ _ _ Hk) as Hl.
  apply bind_ret_inv in H as (a1 & w1 & ta & tb & H1 & H & ->).
  apply bind_ret_inv in H as (a2 & w2 & tc & td & H2 & H & ->).
  apply bind_ret_inv in H as (a3 & w3 & te & tf & H3 & H4 & ->).
  to_query_steps.
  destruct Hc as [[-> ->]|[-> ->]]; run_query_steps Hk Hl.
  all: rewrite <- !app_assoc in *; assumption.
Qed.

End Coordinates.

Section Effects.
Context {V : Type} {cympy : Cympy V} {py : PyRuntime}.

Lemma reset_column_effect copy name (w : world V) u w' t :
  reset_column copy name w = (Ret u, w', t) ->
  t = [] /\
  (forall r idx, index_is r idx w -> index_is r idx w') /\
  (forall idx col cells, col <> name ->
     column_is copy idx col cells w -> column_is copy idx col cells w') /\
  (forall idx, index_is copy idx w ->
     column_is copy idx name (repeat (PyNum 0) (length idx)) w').
Proof.
  intros H. apply reset_column_inv in H as (-> & f1 & f2 & Hu & Ho & Hn).
  split; [reflexivity|]. split; [|split].
  - intros r idx. apply (update_index_is _ _ _ _ _ _ _ Hu).
  - intros idx col cells Hc. apply (update_column_is _ _ _ _ _ _ _ _ _ Hu).
    rewrite Ho by exact Hc. auto.
  - intros idx (f & Ef & Ei). destruct Hu as (Ef1 & Ew & Ei2).
    rewrite Ef in Ef1. injection Ef1 as <-. exists f2. split.
    + rewrite Ew. apply list_lookup_insert_eq. eapply lookup_lt_Some. exact Ef.
    + split; [congruence|]. rewrite Hn, Ei. reflexivity.
Qed.

Lemma assign_apply_effect copy target source cast (w : world V) u w' t :
  assign_apply copy target source cast w = (Ret u, w', t) ->
  t = [] /\
  (forall r idx, index_is r idx w -> index_is r idx w') /\
  (forall idx col cells, col <> target ->
     column_is copy idx col cells w -> column_is copy idx col cells w') /\
  (forall idx cells, column_is copy idx source cells w ->
     exists cells', apply_cells cast cells = Ret cells' /\
       column_is copy idx target cells' w').
Proof.
  intros H. apply assign_apply_inv in H
    as (-> & f1 & f2 & cells & cells' & Hu & Hs & Ha & Ho & Hn).
  split; [reflexivity|]. split; [|split].
  - intros r idx. apply (update_index_is _ _ _ _ _ _ _ Hu).
  - intros idx col c Hc. apply (update_column_is _ _ _ _ _ _ _ _ _ Hu).
    rewrite Ho by exact Hc. auto.
  - intros idx c (f & Ef & Ei & Eg). destruct Hu as (Ef1 & Ew & Ei2).
    rewrite Ef in Ef1. injection Ef1 as <-. rewrite Eg in Hs. injection Hs as <-.
    exists cells'. split; [exact Ha|]. exists f2. split.
    + rewrite Ew. apply list_lookup_insert_eq. eapply lookup_lt_Some. exact Ef.
    + split; [congruence|exact Hn].
Qed.

Lemma frame_read_inv r (w : world V) f w' t :
  frame_read r w = (Ret f, w', t) -> frames w !! r = Some f /\ w' = w /\ t = [].
Proof.
  unfold frame_read. destruct (frames w !! r) as [f1|]; [|discriminate].
  intros [= <- <- <-]. auto.
Qed.

Lemma tracked_start copy idx column keyword (w : world V) :
  column_is copy idx column (repeat (PyNum 0) (length idx)) w ->
  tracked copy idx column keyword 0 [] w.
Proof.
  intros (f & Ef & Ei & Eg). exists f. simpl.
  replace (written idx []) with (repeat (PyNum 0) (length idx))
    by (unfold written; destruct idx; reflexivity).
  auto.
Qed.

Lemma tracked_end copy idx column keyword t (w : world V) :
  tracked copy idx column keyword (length idx) t w ->
  column_is copy idx column (written idx (responses keyword t)) w /\
  length (responses keyword t) = length idx.
Proof.
  intros (f & Ef & Ei & Eg & El). split; [|exact El]. exists f. auto.
Qed.

(** The tuple loop of a function whose body advances the tracked column. *)
Lemma for_itertuples_tracks r copy idx column keyword (body : row -> M V unit)
    (w : world V) u w' t :
  (forall value k t0 (w0 : world V) u0 w0' t1,
     body value w0 = (Ret u0, w0', t1) -> idx !! k = Some (Index value) ->
     tracked copy idx column keyword k t0 w0 ->
     tracked copy idx column keyword (S k) (t0 ++ t1) w0') ->
  for_itertuples r body w = (Ret u, w', t) ->
  index_is r idx w ->
  column_is copy idx column (repeat (PyNum 0) (length idx)) w ->
  column_is copy idx column (written idx (responses keyword t)) w' /\
  length (responses keyword t) = length idx.
Proof.
  intros Hb H (f & Ef & Ei) Hc. unfold for_itertuples in H.
  apply bind_ret_inv in H as (f' & w1 & t1 & t2 & Hr & H & ->).
  apply frame_read_inv in Hr as (Ef' & -> & ->). rewrite Ef in Ef'. injection Ef' as <-.
  simpl. apply tracked_end.
  replace (length idx) with (0 + length (itertuples f))
    by (rewrite itertuples_length, Ei; reflexivity).
  apply (tracked_loop copy idx column keyword body Hb (itertuples f) 0 [] w u w' t2 H).
  - intros i value Hi. simpl. rewrite <- Ei. apply itertuples_lookup. exact Hi.
  - apply tracked_start. exact Hc.
Qed.

End Effects.

Section Conversion.
Context {V : Type} {cympy : Cympy V} {py : PyRuntime}.

Lemma single_inv {A} (x : A) (body : A -> M V unit) (w : world V) u w' t :
  for_each [x] body w = (Ret u, w', t) -> body x w = (Ret tt, w', t).
Proof.
  simpl. intros H. apply bind_ret_inv in H as (a & w1 & t1 & t2 & Hb & H & ->).
  apply ret_inv in H as (_ & -> & ->). destruct a. rewrite app_nil_r. exact Hb.
Qed.

Lemma converted_of_columns copy idx t (w : world V) lat lon :
  column_is copy idx "latitude" lat w -> column_is copy idx "longitude" lon w ->
  length (responses "CoordY" t) = length idx ->
  length (responses "CoordX" t) = length idx ->
  apply_cells (cast_scaled (1.26 * 100000)) (written idx (responses "CoordY" t))
    = Ret lat ->
  apply_cells (cast_scaled 100000) (written idx (responses "CoordX" t)) = Ret lon ->
  converted copy t w.
Proof.
  intros (f & Ef & Ei & Elat) (f' & Ef' & _ & Elon) Ly Lx Hlat Hlon.
  rewrite Ef in Ef'. injection Ef' as <-. subst idx.
  exists f, lat, lon. repeat split; assumption.
Qed.

Lemma get_coordinates_converted devices (w : world V) copy w' t :
  get_coordinates devices w = (Ret copy, w', t) -> converted copy t w'.
Proof.
  intros H. unfold get_coordinates in H.
  apply bind_ret_inv in H as (c & w1 & t1 & tr & H1 & H & ->).
  apply frame_copy_inv in H1 as (-> & f0 & Hin & -> & Ew1).
  set (idx := index f0) in *.
  pose proof (lookup_lt_Some _ _ _ Hin) as Hlt.
  assert (Id1 : index_is devices idx w1).
  { exists f0. rewrite Ew1, lookup_app_l by exact Hlt. auto. }
  assert (Ic1 : index_is (length (frames w)) idx w1).
  { exists f0. rewrite Ew1, lookup_app_r by lia. rewrite Nat.sub_diag. auto. }
  apply bind_ret_inv in H as (u2 & w2 & t2 & tr2 & H2 & H & ->).
  apply reset_column_effect in H2 as (-> & I2 & O2 & S2).
  apply bind_ret_inv in H as (u3 & w3 & t3 & tr3 & H3 & H & ->).
  apply reset_column_effect in H3 as (-> & I3 & O3 & S3).
  apply bind_ret_inv in H as (u4 & w4 & t4 & tr4 & H4 & H & ->).
  apply reset_column_effect in H4 as (-> & I4 & O4 & S4).
  apply bind_ret_inv in H as (u5 & w5 & t5 & tr5 & H5 & H & ->).
  assert (Lat4 : column_is (length (frames w)) idx "latitude"
                   (repeat (PyNum 0) (length idx)) w4).
  { apply O4; [discriminate|]. apply O3; [discriminate|]. apply S2. exact Ic1. }
  assert (Lon4 : column_is (length (frames w)) idx "longitude"
                   (repeat (PyNum 0) (length idx)) w4).
  { apply O4; [discriminate|]. apply S3. apply I2. exact Ic1. }
  assert (Id4 : index_is devices idx w4) by auto.
  assert (Lat5 : column_is (length (frames w)) idx "latitude"
                   (written idx (responses "CoordY" t5)) w5 /\
                 length (responses "CoordY" t5) = length idx).
  { eapply for_itertuples_tracks; [|exact H5|exact Id4|exact Lat4].
    intros value k t0 w0 u0 w0' t1 Hb Hk HT.
    eapply (get_coordinates_body _ _ "latitude" "CoordY");
      [left; auto|exact Hb|exact Hk|exact HT]. }
  assert (Lon5 : column_is (length (frames w)) idx "longitude"
                   (written idx (responses "CoordX" t5)) w5 /\
                 length (responses "CoordX" t5) = length idx).
  { eapply for_itertuples_tracks; [|exact H5|exact Id4|exact Lon4].
    intros value k t0 w0 u0 w0' t1 Hb Hk HT.
    eapply (get_coordinates_body _ _ "longitude" "CoordX");
      [right; auto|exact Hb|exact Hk|exact HT]. }
  destruct Lat5 as (Lat5 & Ly). destruct Lon5 as (Lon5 & Lx).
  apply bind_ret_inv in H as (u6 & w6 & t6 & tr6 & H6 & H & ->).
  apply single_inv, assign_apply_effect in H6 as (-> & I6 & O6 & S6).
  apply bind_ret_inv in H as (u7 & w7 & t7 & tr7 & H7 & H & ->).
  apply single_inv, assign_apply_effect in H7 as (-> & I7 & O7 & S7).
  apply ret_inv in H as ([= ->] & -> & ->).
  destruct (S6 _ _ Lat5) as (lat & Alat & Lat6).
  assert (Lon6 : column_is (length (frames w)) idx "longitude"
                   (written idx (responses "CoordX" t5)) w6)
    by (apply O6; [discriminate|exact Lon5]).
  destruct (S7 _ _ Lon6) as (lon & Alon & Lon7).
  simpl. rewrite !app_nil_r.
  eapply converted_of_columns;
    [| exact Lon7 | exact Ly | exact Lx | exact Alat | exact Alon].
  apply O7; [discriminate|exact Lat6].
Qed.

Lemma range_index_nodup n : NoDup (map Z.of_nat (seq 0 n)).
Proof.
  apply (NoDup_fmap_2 Z.of_nat). apply NoDup_seq.
Qed.

Lemma DataFrame_inv data column (w : world V) r w' t :
  DataFrame data column w = (Ret r, w', t) ->
  t = [] /\ exists objects,
    data = PyList objects /\ r = length (frames w) /\
    frames w' = frames w ++ [{| index := map Z.of_nat (seq 0 (length objects));
                                columns := [(column, objects)] |}].
Proof.
  unfold DataFrame. destruct data; try discriminate.
  unfold frame_new. intros [= <- <- <-]. split; [reflexivity|]. eauto.
Qed.

Lemma list_nodes_converted (w : world V) nodes w' t :
  list_nodes w = (Ret nodes, w', t) ->
  converted nodes t w' /\
  exists f', frames w' !! nodes = Some f' /\ NoDup (index f').
Proof.
  intros H. unfold list_nodes in H.
  apply bind_ret_inv in H as (a & w0 & t0 & tr & H0 & H & ->).
  apply vendor_inv in H0 as (-> & _ & Efr & _).
  apply bind_ret_inv in H as (c & w1 & t1 & tr1 & H1 & H & ->).
  apply DataFrame_inv in H1 as (-> & objects & -> & -> & Ew1).
  rewrite Efr in *. set (idx := map Z.of_nat (seq 0 (length objects))) in *.
  pose proof (range_index_nodup (length objects)) as Hnd. fold idx in Hnd.
  assert (Ic1 : index_is (length (frames w)) idx w1).
  { eexists. rewrite Ew1, lookup_app_r by lia. rewrite Nat.sub_diag. simpl. auto. }
  apply bind_ret_inv in H as (u2 & w2 & t2 & tr2 & H2 & H & ->).
  apply assign_apply_effect in H2 as (-> & I2 & O2 & S2).
  apply bind_ret_inv in H as (u3 & w3 & t3 & tr3 & H3 & H & ->).
  apply reset_column_effect in H3 as (-> & I3 & O3 & S3).
  apply bind_ret_inv in H as (u4 & w4 & t4 & tr4 & H4 & H & ->).
  apply reset_column_effect in H4 as (-> & I4 & O4 & S4).
  apply bind_ret_inv in H as (u5 & w5 & t5 & tr5 & H5 & H & ->).
  apply reset_column_effect in H5 as (-> & I5 & O5 & S5).
  apply bind_ret_inv in H as (u6 & w6 & t6 & tr6 & H6 & H & ->).
  apply reset_column_effect in H6 as (-> & I6 & O6 & S6).
  apply bind_ret_inv in H as (u7 & w7 & t7 & tr7 & H7 & H & ->).
  assert (Ic6 : index_is (length (frames w)) idx w6) by auto 10.
  assert (Lat6 : column_is (length (frames w)) idx "latitude"
                   (repeat (PyNum 0) (length idx)) w6).
  { apply O6; [discriminate|]. apply O5; [discriminate|]. apply S4. auto. }
  assert (Lon6 : column_is (length (frames w)) idx "longitude"
                   (repeat (PyNum 0) (length idx)) w6).
  { apply O6; [discriminate|]. apply S5. auto. }
  assert (Lat7 : column_is (length (frames w)) idx "latitude"
                   (written idx (responses "CoordY" t7)) w7 /\
                 length (responses "CoordY" t7) = length idx).
  { eapply for_itertuples_tracks; [|exact H7|exact Ic6|exact Lat6].
    intros value k tt0 ww0 uu0 ww0' tt1 Hb Hk HT.
    eapply (list_nodes_body _ _ "latitude" "CoordY");
      [left; auto|exact Hb|exact Hk|exact HT]. }
  assert (Lon7 : column_is (length (frames w)) idx "longitude"
                   (written idx (responses "CoordX" t7)) w7 /\
                 length (responses "CoordX" t7) = length idx).
  { eapply for_itertuples_tracks; [|exact H7|exact Ic6|exact Lon6].
    intros value k tt0 ww0 uu0 ww0' tt1 Hb Hk HT.
    eapply (list_nodes_body _ _ "longitude" "CoordX");
      [right; auto|exact Hb|exact Hk|exact HT]. }
  destruct Lat7 as (Lat7 & Ly). destruct Lon7 as (Lon7 & Lx).
  apply bind_ret_inv in H as (u8 & w8 & t8 & tr8 & H8 & H & ->).
  apply single_inv, assign_apply_effect in H8 as (-> & I8 & O8 & S8).
  apply bind_ret_inv in H as (u9 & w9 & t9 & tr9 & H9 & H & ->).
  apply single_inv, assign_apply_effect in H9 as (-> & I9 & O9 & S9).
  apply bind_ret_inv in H as (u10 & w10 & t10 & tr10 & H10 & H & ->).
  apply single_inv, assign_apply_effect in H10 as (-> & I10 & O10 & S10).
  apply ret_inv in H as ([= ->] & -> & ->).
  destruct (S8 _ _ Lat7) as (lat & Alat & Lat8).
  assert (Lon8 : column_is (length (frames w)) idx "longitude"
                   (written idx (responses "CoordX" t7)) w8)
    by (apply O8; [discriminate|exact Lon7]).
  destruct (S9 _ _ Lon8) as (lon & Alon & Lon9).
  simpl. rewrite !app_nil_r.
  assert (Lat10 : column_is (length (frames w)) idx "latitude" lat w10).
  { apply O10; [discriminate|]. apply O9; [discriminate|]. exact Lat8. }
  split.
  - eapply converted_of_columns.
    + exact Lat10.
    + apply O10; [discriminate|]. exact Lon9.
    + exact Ly.
    + exact Lx.
    + exact Alat.
    + exact Alon.
  - destruct Lat10 as (f' & Ef' & Ei & _). exists f'. split; [exact Ef'|].
    rewrite Ei. exact Hnd.
Qed.

(** C6. Coordinate conversion.  [get_coordinates] and [list_nodes] make one
    CoordY and one CoordX query for each row, device queries in the first
    and node queries in the second, and the latitude and longitude columns
    of the frame they return are the same conversion of those answers:
    latitude is [float(CoordY) / (1.26 * 100000)], longitude is
    [float(CoordX) / 100000], and an answer that is the empty string gives
    [None].  The answers are written at the index labels of their rows; the
    index of the frame of [list_nodes] has no label twice, and for every
    index without a repeated label the columns are the conversions of the
    answers in row order. *)
Theorem C6_coordinate_conversion_is_shared :
  (forall devices (w : world V) coordinates w' t,
     get_coordinates devices w = (Ret coordinates, w', t) ->
     converted coordinates t w') /\
  (forall (w : world V) nodes w' t,
     list_nodes w = (Ret nodes, w', t) ->
     converted nodes t w' /\
     exists f', frames w' !! nodes = Some f' /\ NoDup (index f')) /\
  (forall idx xs, NoDup idx -> length xs = length idx -> written idx xs = xs) /\
  (forall x, spec_latitude x = cast_scaled (1.26 * 100000) x) /\
  (forall x, spec_longitude x = cast_scaled 100000 x) /\
  spec_latitude (PyStr "") = Ret PyNone /\
  spec_longitude (PyStr "") = Ret PyNone.
Proof.
  split; [|split; [|split; [|split; [|split; [|split]]]]].
  - intros devices w coordinates w' t. apply get_coordinates_converted.
  - intros w nodes w' t. apply list_nodes_converted.
  - apply written_nodup.
  - reflexivity.
  - reflexivity.
  - reflexivity.
  - reflexivity.
Qed.

End Conversion.

Lemma C6_coordinate_conversion_is_shared_witness :
  (@get_coordinates unit (Demo.stateless Demo.feeder) Demo.runtime 0 Demo.world1
     = (Ret 1, Demo.coordinates_example_world, Demo.coordinates_example_trace) /\
   converted (py := Demo.runtime) 1 Demo.coordinates_example_trace
     Demo.coordinates_example_world) /\
  (@list_nodes unit (Demo.stateless Demo.surveyed) Demo.runtime Demo.world0
     = (Ret 0, Demo.nodes_example_world, Demo.nodes_example_trace) /\
   converted (py := Demo.runtime) 0 Demo.nodes_example_trace
     Demo.nodes_example_world).
Proof.
  assert (E1 : @get_coordinates unit (Demo.stateless Demo.feeder) Demo.runtime 0 Demo.world1
     = (Ret 1, Demo.coordinates_example_world, Demo.coordinates_example_trace))
    by (vm_compute; reflexivity).
  assert (E2 : @list_nodes unit (Demo.stateless Demo.surveyed) Demo.runtime Demo.world0
     = (Ret 0, Demo.nodes_example_world, Demo.nodes_example_trace))
    by (vm_compute; reflexivity).
  split; [split; [exact E1|]|split; [exact E2|]].
  - exact (proj1 (C6_coordinate_conversion_is_shared
                    (cympy := Demo.stateless Demo.feeder) (py := Demo.runtime))
             _ _ _ _ _ E1).
  - exact (proj1 (proj1 (proj2 (C6_coordinate_conversion_is_shared
                                  (cympy := Demo.stateless Demo.surveyed)
                                  (py := Demo.runtime)))
                    _ _ _ _ E2)).
Defined.

(** * Further properties *)

Section InputVoltages.

Lemma input_voltages_keeps (k : string) names values (m : gmap string Q) :
  (forall j, j < length values -> names !! j <> Some k) ->
  foldl (fun voltages '(name, value) => <[name := value]> voltages) m
    (zip names values) !! k = m !! k.
Proof.
  revert values m. induction names as [|n names IH]; intros [|x values] m H;
    simpl; try reflexivity.
  rewrite IH.
  - apply lookup_insert_ne. intros ->. apply (H 0); [simpl; lia|reflexivity].
  - intros j Hj. apply (H (S j)). simpl. lia.
Qed.

Lemma input_voltages_last (k : string) names values (m : gmap string Q) i v :
  names !! i = Some k -> values !! i = Some v ->
  (forall j, i < j -> j < length values -> names !! j <> Some k) ->
  foldl (fun voltages '(name, value) => <[name := value]> voltages) m
    (zip names values) !! k = Some v.
Proof.
  revert values m i. induction names as [|n names IH]; intros [|x values] m i Hn Hv H;
    try discriminate.
  destruct i as [|i]; simpl in *.
  - injection Hn as ->. injection Hv as ->.
    rewrite input_voltages_keeps.
    + apply lookup_insert_eq.
    + intros j Hj. apply (H (S j)); lia.
  - apply (IH values _ i Hn Hv). intros j Hij Hj. apply (H (S j)); lia.
Qed.

Lemma input_voltages_origin (k : string) names values (m : gmap string Q) v :
  foldl (fun voltages '(name, value) => <[name := value]> voltages) m
    (zip names values) !! k = Some v ->
  m !! k = Some v \/ exists i, names !! i = Some k /\ values !! i = Some v.
Proof.
  revert values m. induction names as [|n names IH]; intros [|x values] m H;
    simpl in H; auto.
  apply IH in H as [H|(i & Hn & Hv)].
  - destruct (decide (n = k)) as [->|Hne].
    + rewrite lookup_insert_eq in H. injection H as ->. right. exists 0. auto.
    + rewrite lookup_insert_ne in H by exact Hne. auto.
  - right. exists (S i). auto.
Qed.

Lemma input_voltages_mono (k : string) (l : list (string * Q)) (m : gmap string Q) :
  is_Some (m !! k) ->
  is_Some (foldl (fun voltages '(name, value) => <[name := value]> voltages) m l !! k).
Proof.
  revert m. induction l as [|[n x] l IH]; intros m H; simpl; [exact H|].
  apply IH. destruct (decide (n = k)) as [->|Hne].
  - rewrite lookup_insert_eq. eauto.
  - rewrite lookup_insert_ne by exact Hne. exact H.
Qed.

Lemma input_voltages_some (k : string) names values (m : gmap string Q) i :
  names !! i = Some k -> i < length values ->
  is_Some (foldl (fun voltages '(name, value) => <[name := value]> voltages) m
             (zip names values) !! k).
Proof.
  revert values m i. induction names as [|n names IH]; intros [|x values] m i Hn Hi;
    simpl in *; try discriminate; try lia.
  destruct i as [|i]; simpl in *.
  - injection Hn as ->. apply input_voltages_mono. rewrite lookup_insert_eq. eauto.
  - apply (IH values _ i Hn). lia.
Qed.

(** X1. The dictionary of [_input_voltages] pairs the names with the values
    position by position.  A name is a key exactly when it stands at a
    position that has a value: names beyond the end of the values are
    dropped without an error.  The value of a key is the value at one of
    its positions, and a name that is repeated keeps the value of its last
    position. *)
Theorem X1_input_voltages_last_value_wins :
  (forall names values k,
     _input_voltages names values !! k = None <->
     forall i, i < length values -> names !! i <> Some k) /\
  (forall names values k v,
     _input_voltages names values !! k = Some v ->
     exists i, names !! i = Some k /\ values !! i = Some v) /\
  (forall names values k i v,
     names !! i = Some k -> values !! i = Some v ->
     (forall j, i < j -> j < length values -> names !! j <> Some k) ->
     _input_voltages names values !! k = Some v).
Proof.
  split; [|split].
  - intros names values k. unfold _input_voltages. split.
    + intros HN i Hi Hk.
      destruct (input_voltages_some k names values ∅ i Hk Hi) as [v Hv].
      rewrite Hv in HN. discriminate HN.
    + intros H. rewrite input_voltages_keeps by exact H. apply lookup_empty.
  - intros names values k v H. unfold _input_voltages in H.
    apply input_voltages_origin in H as [H|H]; [|exact H].
    rewrite lookup_empty in H. discriminate H.
  - intros names values k i v. apply input_voltages_last.
Qed.

End InputVoltages.

Lemma X1_input_voltages_last_value_wins_witness :
  _input_voltages ["VMAG_A"; "VANG_A"; "VMAG_A"; "VMAG_B"] [2520; 0; 2400]%Q
    !! "VMAG_A" = Some 2400%Q /\
  _input_voltages ["VMAG_A"; "VANG_A"; "VMAG_A"; "VMAG_B"] [2520; 0; 2400]%Q
    !! "VMAG_B" = None.
Proof.
  split.
  - apply (proj2 (proj2 X1_input_voltages_last_value_wins) _ _ _ 2);
      [reflexivity|reflexivity|].
    intros j H1 H2. simpl in H2. lia.
  - apply (proj1 X1_input_voltages_last_value_wins).
    intros i Hi. simpl in Hi.
    destruct i as [|[|[|i]]]; [discriminate|discriminate|discriminate|lia].
Defined.

Section PvMargin.

Lemma trunc_ceiling q : (q <= 0)%Q -> trunc q = (- Qfloor (- q))%Z.
Proof.
  destruct q as [n d]. unfold Qle, trunc, Qfloor, Qopp. simpl. intros Hn.
  rewrite <- (Z.opp_involutive n) at 1. rewrite Z.quot_opp_l by lia.
  f_equal. apply Z.quot_div_nonneg; lia.
Qed.

Lemma trunc_sign q :
  ((0 <= q)%Q -> (0 <= trunc q)%Z) /\ ((q <= 0)%Q -> (trunc q <= 0)%Z).
Proof.
  split; intros H.
  - rewrite trunc_floor by exact H. change 0%Z with (Qfloor 0).
    apply Qfloor_resp_le. exact H.
  - rewrite trunc_ceiling by exact H.
    assert (0 <= Qfloor (- q))%Z; [|lia].
    change 0%Z with (Qfloor 0). apply Qfloor_resp_le. lra.
Qed.

Lemma trunc_mono q1 q2 : (q1 <= q2)%Q -> (trunc q1 <= trunc q2)%Z.
Proof.
  intros H. destruct (Qlt_le_dec q1 0) as [H1|H1]; destruct (Qlt_le_dec q2 0) as [H2|H2].
  - rewrite !trunc_ceiling by lra.
    assert (Qfloor (- q2) <= Qfloor (- q1))%Z; [|lia]. apply Qfloor_resp_le. lra.
  - pose proof (proj2 (trunc_sign q1) ltac:(lra)).
    pose proof (proj1 (trunc_sign q2) H2). lia.
  - lra.
  - rewrite !trunc_floor by lra. apply Qfloor_resp_le. exact H.
Qed.


End PvMargin.


Section IgnoredInputs.
Context {V : Type} {cympy : Cympy V}.

Lemma bind_cong {A B} (m1 m2 : M V A) (k1 k2 : A -> M V B) (w : world V) :
  m1 w = m2 w -> (forall a w1, k1 a w1 = k2 a w1) -> bind m1 k1 w = bind m2 k2 w.
Proof.
  intros Hm Hk. unfold bind. rewrite Hm.
  destruct (m2 w) as [[[a|e] w1] t1]; [|reflexivity]. rewrite Hk. reflexivity.
Qed.

Lemma for_each_cong {A B} (R : A -> B -> Prop) (xs : list A) (ys : list B)
    (f : A -> M V unit) (g : B -> M V unit) :
  Forall2 R xs ys -> (forall x y w, R x y -> f x w = g y w) ->
  forall w, for_each xs f w = for_each ys g w.
Proof.
  intros HF Hfg. induction HF as [|x y xs ys Hxy HF IH]; intros w; simpl.
  - reflexivity.
  - apply bind_cong; [apply Hfg; exact Hxy|]. intros _ w1. apply IH.
Qed.

Lemma enumerate_from_Forall2 {A B} (R : A -> B -> Prop) (xs : list A) (ys : list B) k :
  Forall2 R xs ys ->
  Forall2 (fun a b => fst a = fst b /\ R (snd a) (snd b))
    (enumerate_from k xs) (enumerate_from k ys).
Proof.
  intros HF. revert k. induction HF; intros k; simpl; constructor; auto.
Qed.

Lemma _set_voltages_lookups (d1 d2 : gmap string Q) (w : world V) :
  d1 !! "VMAG_A" = d2 !! "VMAG_A" -> d1 !! "VMAG_B" = d2 !! "VMAG_B" ->
  d1 !! "VMAG_C" = d2 !! "VMAG_C" ->
  _set_voltages d1 w = _set_voltages d2 w.
Proof.
  intros Ha Hb Hc. unfold _set_voltages, getitem. rewrite Ha, Hb, Hc. reflexivity.
Qed.

Lemma _input_loads_names ls lpn lpn' lv :
  length lpn = length lpn' ->
  Forall2 (fun a b => Load.section_id a = Load.section_id b /\
                      Load.active_power a = Load.active_power b)
    (_input_loads ls lpn lv) (_input_loads ls lpn' lv).
Proof.
  unfold _input_loads. revert lpn lpn' lv.
  induction ls as [|s ls IH]; intros [|p lpn] [|p' lpn'] [|v lv] H; simpl;
    try discriminate; try constructor; auto.
Qed.

Lemma _input_pvs_names ps ppn ppn' pv :
  length ppn = length ppn' ->
  Forall2 (fun a b => Pv.section_id a = Pv.section_id b /\
                      Pv.generation a = Pv.generation b)
    (_input_pvs ps ppn pv) (_input_pvs ps ppn' pv).
Proof.
  unfold _input_pvs. revert ppn ppn' pv.
  induction ps as [|s ps IH]; intros [|p ppn] [|p' ppn'] [|v pv] H; simpl;
    try discriminate; try constructor; auto.
Qed.

Lemma set_new_loads_names (l1 l2 : list Load.t) (w : world V) :
  Forall2 (fun a b => Load.section_id a = Load.section_id b /\
                      Load.active_power a = Load.active_power b) l1 l2 ->
  set_new_loads (Some l1) w = set_new_loads (Some l2) w.
Proof.
  intros HF.
  assert (E : forall w0, _add_loads l1 w0 = _add_loads l2 w0).
  { intros w0. unfold _add_loads. apply bind_cong; [|reflexivity].
    apply (for_each_cong _ _ _ _ _ (enumerate_from_Forall2 _ _ _ 0 HF)).
    intros [i a] [j b] w1 [Hi [Hs Hp]]. simpl in Hi. subst j.
    unfold _add_loads_body. simpl in Hs, Hp. rewrite Hs, Hp. reflexivity. }
  destruct HF as [|a b l1 l2 Hab HF]; [reflexivity|].
  unfold set_new_loads. apply bind_cong; [apply E|reflexivity].
Qed.

Lemma set_new_pvs_names (l1 l2 : list Pv.t) (w : world V) :
  Forall2 (fun a b => Pv.section_id a = Pv.section_id b /\
                      Pv.generation a = Pv.generation b) l1 l2 ->
  set_new_pvs (Some l1) w = set_new_pvs (Some l2) w.
Proof.
  intros HF.
  assert (E : forall w0, _add_pvs l1 w0 = _add_pvs l2 w0).
  { intros w0. unfold _add_pvs. apply bind_cong; [|reflexivity].
    apply (for_each_cong _ _ _ _ _ (enumerate_from_Forall2 _ _ _ 0 HF)).
    intros [i a] [j b] w1 [Hi [Hs Hp]]. simpl in Hi. subst j.
    unfold _add_pvs_body. simpl in Hs, Hp. rewrite Hs, Hp. reflexivity. }
  destruct HF as [|a b l1 l2 Hab HF]; [reflexivity|].
  unfold set_new_pvs. apply bind_cong; [apply E|reflexivity].
Qed.

(** X3. Inputs that [fmu_wrapper] does not use.  Of the voltage inputs only
    the values of VMAG_A, VMAG_B and VMAG_C count: the voltage angles and
    any other name have no effect.  The load and PV parameter names have no
    effect either, beyond the length of their lists.  Two calls that agree
    on the rest have the same outcome: the same returned list or exception,
    the same vendor calls with the same answers, the same world. *)
Theorem X3_fmu_wrapper_ignored_inputs
    f vn vv vn' vv' ls lpn lpn' lv ps ppn ppn' pv on ono wr (w : world V) :
  _input_voltages vn vv !! "VMAG_A" = _input_voltages vn' vv' !! "VMAG_A" ->
  _input_voltages vn vv !! "VMAG_B" = _input_voltages vn' vv' !! "VMAG_B" ->
  _input_voltages vn vv !! "VMAG_C" = _input_voltages vn' vv' !! "VMAG_C" ->
  length lpn = length lpn' -> length ppn = length ppn' ->
  fmu_wrapper f vn vv ls lpn lv ps ppn pv on ono wr w
  = fmu_wrapper f vn' vv' ls lpn' lv ps ppn' pv on ono wr w.
Proof.
  intros Ha Hb Hc Hl Hp. unfold fmu_wrapper.
  apply bind_cong; [reflexivity|]. intros _ w1.
  apply bind_cong; [apply _set_voltages_lookups; assumption|]. intros _ w2.
  apply bind_cong.
  { destruct (0 <? length ls)%nat; [|reflexivity].
    apply set_new_loads_names, _input_loads_names, Hl. }
  intros _ w3. apply bind_cong; [|reflexivity].
  destruct (0 <? length ps)%nat; [|reflexivity].
  apply set_new_pvs_names, _input_pvs_names, Hp.
Qed.

End IgnoredInputs.

Lemma X3_fmu_wrapper_ignored_inputs_witness :
  @fmu_wrapper unit (Demo.stateless Demo.feeder) "BU0001.sxst"
    ["VMAG_A"; "VMAG_B"; "VMAG_C"; "VANG_A"; "VANG_B"; "VANG_C"]
    [2520; 2520; 2520; 0; -120; 120]%Q
    ["800033503"] ["KW"] [100%Q] ["800033503"] ["KW"] [100%Q]
    ["KWA"; "KWB"] ["800036819"; "800036819"] "False" Demo.world0
  = @fmu_wrapper unit (Demo.stateless Demo.feeder) "BU0001.sxst"
    ["VMAG_C"; "VMAG_B"; "VMAG_A"] [2520; 2520; 2520]%Q
    ["800033503"] ["KVAR"] [100%Q] ["800033503"] [""] [100%Q]
    ["KWA"; "KWB"] ["800036819"; "800036819"] "False" Demo.world0.
Proof.
  apply X3_fmu_wrapper_ignored_inputs; vm_compute; reflexivity.
Defined.

Section Runs.
Context {V : Type} {cympy : Cympy V}.
Variable I : V -> Prop.

Lemma runs_ret {A} (a : A) (Q : A -> Prop) : Q a -> runs I (ret (V:=V) a) Q.
Proof. intros H w Hw. exists a, w, []. auto. Qed.

Lemma runs_lift {A} (a : A) (Q : A -> Prop) : Q a -> runs I (lift (V:=V) (Ret a)) Q.
Proof. intros H w Hw. exists a, w, []. auto. Qed.

Lemma runs_bind {A B} (m : M V A) (k : A -> M V B) Q1 Q :
  runs I m Q1 -> (forall a, Q1 a -> runs I (k a) Q) -> runs I (bind m k) Q.
Proof.
  intros Hm Hk w Hw. destruct (Hm w Hw) as (a & w1 & t1 & E1 & I1 & Ha).
  destruct (Hk a Ha w1 I1) as (b & w2 & t2 & E2 & I2 & Hb).
  exists b, w2, (t1 ++ t2). unfold bind. rewrite E1, E2. auto.
Qed.

Lemma runs_weaken {A} (m : M V A) (Q Q' : A -> Prop) :
  runs I m Q -> (forall a, Q a -> Q' a) -> runs I m Q'.
Proof.
  intros Hm HQ w Hw. destruct (Hm w Hw) as (a & w' & t & E & I' & Ha). eauto 8.
Qed.

Lemma runs_for_each {A} (xs : list A) (body : A -> M V unit) :
  (forall x, In x xs -> runs I (body x) (fun _ => True)) ->
  runs I (for_each xs body) (fun _ => True).
Proof.
  induction xs as [|x xs IH]; intros H; simpl.
  - apply runs_ret. exact Logic.I.
  - eapply (runs_bind _ _ (fun _ => True)); [apply H; left; reflexivity|].
    intros _ _. apply IH. intros y Hy. apply H. right. exact Hy.
Qed.

Lemma runs_vendor U c (Q : pyval -> Prop) :
  answering U I ->
  (forall r, U c r -> exists x, r = Ret x /\ Q x) ->
  runs I (vendor c) Q.
Proof.
  intros HC HQ w Hw. destruct (HC (session w) c Hw) as [Hu Hi].
  unfold vendor. destruct (respond (session w) c) as [r v'].
  destruct (HQ r Hu) as (x & -> & Hx). eexists _, _, _. eauto.
Qed.

Lemma runs_getitem (d : gmap string Q) key x :
  d !! key = Some x -> runs I (getitem (V:=V) d key) (fun y => y = x).
Proof. intros E. unfold getitem. rewrite E. apply runs_ret. reflexivity. Qed.

Lemma runs_method obj attrs name c (Q : pyval -> Prop) :
  obj = PyObj attrs -> runs I (vendor c) Q -> runs I (method obj name (ret c)) Q.
Proof.
  intros -> H. unfold method. simpl.
  eapply (runs_bind _ _ (fun a => a = c)); [apply runs_ret; reflexivity|].
  intros a ->. exact H.
Qed.

Hypothesis coop : answering usable I.

Ltac usable_ret :=
  intros ? Hu; simpl in Hu; destruct Hu as (? & ->); eexists; split; [reflexivity|exact Logic.I].

Lemma runs_set_voltages voltages a b c :
  voltages !! "VMAG_A" = Some a -> voltages !! "VMAG_B" = Some b ->
  voltages !! "VMAG_C" = Some c ->
  runs I (_set_voltages voltages) (fun _ => True).
Proof.
  intros Ha Hb Hc. unfold _set_voltages.
  eapply runs_bind.
  { apply (runs_vendor _ ListNetworks (fun nets => exists n0, py_getitem0 nets = Ret n0) coop).
    intros r (nets & n0 & -> & E). eauto. }
  intros nets (n0 & E). rewrite E.
  repeat first
    [ eapply runs_bind;
      [ first [ apply runs_getitem; eassumption
              | apply runs_lift; exact Logic.I
              | apply (runs_vendor _ _ (fun _ => True) coop); usable_ret ] |];
      intros ? ? ].
  apply runs_ret. exact Logic.I.
Qed.

Lemma runs_add_loads_body index load :
  runs I (_add_loads_body index load) (fun _ => True).
Proof.
  unfold _add_loads_body.
  eapply (runs_bind _ _ (fun _ => True)); [apply (runs_vendor _ _ (fun _ => True) coop); usable_ret|].
  intros _ _. eapply runs_bind.
  { apply (runs_vendor _ _ (fun x => exists p ps, py_list x = Ret (p :: ps)) coop).
    intros r (x & -> & Hx). eauto. }
  intros x (p & ps & E). rewrite E.
  eapply (runs_bind _ _ (fun l => l = p :: ps)); [apply runs_lift; reflexivity|].
  intros phases ->.
  eapply (runs_bind _ _ (fun _ => True)); [simpl; apply runs_ret; exact Logic.I|].
  intros power _. apply runs_for_each. intros phase _.
  eapply (runs_bind _ _ (fun _ => True)); [apply (runs_vendor _ _ (fun _ => True) coop); usable_ret|].
  intros _ _. apply runs_ret. exact Logic.I.
Qed.

Lemma runs_add_pvs_body index pv :
  runs I (_add_pvs_body index pv) (fun _ => True).
Proof.
  unfold _add_pvs_body.
  eapply runs_bind.
  { apply (runs_vendor _ _ (fun x => exists attrs, x = PyObj attrs) coop).
    intros r (attrs & ->). eauto. }
  intros device (attrs & ->).
  repeat (eapply (runs_bind _ _ (fun _ => True));
          [ eapply runs_method; [reflexivity|];
            apply (runs_vendor _ _ (fun _ => True) coop); usable_ret |];
          intros _ _).
  apply runs_ret. exact Logic.I.
Qed.

Lemma runs_set_new_loads loads : runs I (set_new_loads loads) (fun _ => True).
Proof.
  destruct loads as [[|l loads]|]; simpl; try (apply runs_ret; exact Logic.I).
  eapply (runs_bind _ _ (fun _ => True)); [|intros _ _; apply runs_ret; exact Logic.I].
  unfold _add_loads. eapply (runs_bind _ _ (fun _ => True)); [|intros _ _; apply runs_ret; exact Logic.I].
  apply runs_for_each. intros [i x] _. apply runs_add_loads_body.
Qed.

Lemma runs_set_new_pvs pvs : runs I (set_new_pvs pvs) (fun _ => True).
Proof.
  destruct pvs as [[|l pvs]|]; simpl; try (apply runs_ret; exact Logic.I).
  eapply (runs_bind _ _ (fun _ => True)); [|intros _ _; apply runs_ret; exact Logic.I].
  unfold _add_pvs. eapply (runs_bind _ _ (fun _ => True)); [|intros _ _; apply runs_ret; exact Logic.I].
  apply runs_for_each. intros [i x] _. apply runs_add_pvs_body.
Qed.

Lemma runs_power_flow : runs I run_power_flow (fun _ => True).
Proof.
  unfold run_power_flow. eapply runs_bind.
  { apply (runs_vendor _ _ (fun x => exists attrs, x = PyObj attrs) coop).
    intros r (attrs & ->). eauto. }
  intros lf (attrs & ->).
  eapply (runs_bind _ _ (fun _ => True));
    [ eapply runs_method; [reflexivity|];
      apply (runs_vendor _ _ (fun _ => True) coop); usable_ret |].
  intros _ _. apply runs_ret. exact Logic.I.
Qed.

Lemma runs_output_values nodes names d :
  runs I (_output_values nodes names d) (fun _ => True).
Proof.
  unfold _output_values.
  match goal with |- context [for_fold _ _ ?b] => set (body := b) end.
  assert (Hbody : forall output x, runs I (body output x) (fun _ => True)).
  { intros output [n c] w Hw. unfold body, try_except, bind, vendor.
    destruct (coop (session w) (QueryInfoNode c (PyStr n)) Hw) as [_ Hi].
    destruct (respond (session w) (QueryInfoNode c (PyStr n))) as [[temp|e] v1];
      simpl in *.
    - destruct (py_truthy temp); simpl; eexists _, _, _; eauto.
    - eexists _, _, _; eauto. }
  clearbody body. generalize (@nil pyval).
  induction (zip nodes names) as [|x xs IH]; intros acc; simpl.
  - apply runs_ret. exact Logic.I.
  - eapply (runs_bind _ _ (fun _ => True)); [apply Hbody|]. intros acc' _. apply IH.
Qed.

End Runs.

Section FmuWrapperReturns.
Context {V : Type} {cympy : Cympy V}.
Variable I : V -> Prop.
Hypothesis coop : answering usable I.

Ltac coop_step :=
  match goal with
  | HI : I ?s |- context [respond ?s ?c] =>
      let Hu := fresh "Hu" in
      let Hi := fresh "Hi" in
      destruct (coop s c HI) as [Hu Hi];
      destruct (respond s c) as [? ?]; simpl in Hu, Hi;
      first [ destruct Hu as (? & ? & -> & ?) | destruct Hu as (? & ->) ];
      cbn [fst snd session files frames app]
  end.

Lemma _set_voltages_missing voltages k n (w : world V) :
  I (session w) -> missing_voltage voltages = Some (k, n) ->
  exists w' t,
    _set_voltages voltages w = (Raise (KeyError k), w', t) /\
    Forall (fun ev => phase (fst ev) <= 1) t /\
    length (topo_writes t) = n.
Proof.
  intros HI. unfold missing_voltage, _set_voltages, getitem.
  destruct (voltages !! "VMAG_A") as [a|]; [|intros [= <- <-]].
  1: destruct (voltages !! "VMAG_B") as [b|]; [|intros [= <- <-]].
  1: destruct (voltages !! "VMAG_C") as [c|]; [discriminate|intros [= <- <-]].
  all: unfold bind, vendor, lift, ret, raise.
  all: repeat (coop_step;
               repeat match goal with
                 | E : py_getitem0 _ = Ret _ |- _ => rewrite E
                 end;
               cbn [fst snd session files frames app]).
  all: eexists _, _; split; [reflexivity|]; split;
    [repeat constructor|reflexivity].
Qed.


End FmuWrapperReturns.

Lemma feeder_usable :
  answering (cympy := Demo.stateless Demo.feeder) usable (fun _ => True).
Proof.
  intros v c _. split; [|exact Logic.I]. change (usable c (Demo.feeder c)).
  destruct c as [f| |x k n|name ty s [o|]|k d ty|x k d ty|d x k| |lf|k n| |la n d|la ns|];
    try (simpl; eauto; fail).
  unfold usable.
  assert (E : Demo.feeder (QueryInfoDevice k d ty) = Ret (PyStr "AB") \/
              (Demo.feeder (QueryInfoDevice k d ty) = Ret (PyStr "7") /\ k <> "Phase")).
  { unfold Demo.feeder.
    repeat match goal with
      | |- context [match ?x with _ => _ end] =>
          destruct x; try (right; split; [reflexivity|discriminate])
      end.
    left. reflexivity. }
  destruct E as [->|[-> Hne]]; eexists; (split; [reflexivity|]).
  - intros _. simpl. eauto.
  - intros E. contradiction.
Qed.


Section AllocationKeys.
Context {V : Type} {cympy : Cympy V}.


End AllocationKeys.


Section AllocationReturns.
Context {V : Type} {cympy : Cympy V}.
Variable I : V -> Prop.
Hypothesis coop : answering usable_allocation I.

Ltac coop_step :=
  match goal with
  | HI : I ?s |- context [respond ?s ?c] =>
      let Hu := fresh "Hu" in
      let Hi := fresh "Hi" in
      destruct (coop s c HI) as [Hu Hi];
      destruct (respond s c) as [? ?]; simpl in Hu, Hi;
      first [ destruct Hu as (? & ? & -> & ?) | destruct Hu as (? & ->) ];
      cbn [fst snd session files frames app is_obj]
  end.


End AllocationReturns.

Lemma feeder_usable_allocation :
  answering (cympy := Demo.stateless Demo.feeder) usable_allocation (fun _ => True).
Proof.
  intros v c _. split; [|exact Logic.I]. change (usable_allocation c (Demo.feeder c)).
  destruct c; simpl; eauto.
Qed.


(** ** The columns of the extraction functions *)

(** After a column assignment [H]: the facts about the frames move to the
    world after it. *)
Ltac after_reset H :=
  let HI := fresh "I" in
  let HO := fresh "O" in
  let HS := fresh "S" in
  apply reset_column_effect in H as (-> & HI & HO & HS);
  match goal with
  | Hi : index_is ?copy ?idx ?w, S0 : forall idx, index_is ?copy idx ?w -> _ |- _ =>
      pose proof (S0 idx Hi)
  end;
  repeat match goal with
    | Hc : column_is _ _ _ _ ?w,
      I0 : forall r idx, index_is r idx ?w -> index_is r idx _ |- _ =>
        first [ apply HO in Hc; [|discriminate] | clear Hc ]
    end;
  repeat match goal with
    | Hi : index_is _ _ ?w,
      I0 : forall r idx, index_is r idx ?w -> index_is r idx _ |- _ =>
        apply HI in Hi
    end;
  clear HI HO HS.

Ltac after_cast H :=
  let HI := fresh "I" in
  let HO := fresh "O" in
  let HS := fresh "S" in
  let cells := fresh "cells" in
  let Hcast := fresh "Hcast" in
  let Hcol := fresh "Hcol" in
  apply assign_apply_effect in H as (-> & HI & HO & HS);
  match goal with
  | Hc : column_is ?copy ?idx ?c ?x ?w,
    S0 : forall idx cells, column_is ?copy idx ?c cells ?w -> _ |- _ =>
      destruct (S0 idx x Hc) as (cells & Hcast & Hcol); clear Hc
  end;
  repeat match goal with
    | Hc : column_is _ _ _ _ ?w,
      I0 : forall r idx, index_is r idx ?w -> index_is r idx _ |- _ =>
        first [ apply HO in Hc; [|discriminate] | clear Hc ]
    end;
  repeat match goal with
    | Hi : index_is _ _ ?w,
      I0 : forall r idx, index_is r idx ?w -> index_is r idx _ |- _ =>
        apply HI in Hi
    end;
  clear HI HO HS.

(** After the query loop, by the fact [L] about it: the columns of [pairs]
    hold the answers to their keywords. *)
Ltac fill_columns L pairs :=
  lazymatch pairs with
  | (?c, ?k) :: ?rest =>
      match goal with
      | Hz : column_is _ _ c (repeat _ _) _ |- _ =>
          let HL := fresh "HL" in
          apply (L c k) in Hz as [Hz HL]; [|simpl; auto 10; fail]
      end;
      fill_columns L rest
  | _ => idtac
  end.

Section ColumnFacts.
Context {V : Type} {cympy : Cympy V} {py : PyRuntime}.

Lemma filled_of_column cast copy idx column keyword t (w : world V) cells :
  column_is copy idx column cells w ->
  length (responses keyword t) = length idx ->
  apply_cells cast (written idx (responses keyword t)) = Ret cells ->
  filled cast copy column keyword t w.
Proof.
  intros (f & Ef & Ei & Ec) L A. subst idx. exists f, cells. auto.
Qed.

Lemma frame_copy_effect r (w : world V) copy w' t :
  frame_copy r w = (Ret copy, w', t) ->
  t = [] /\ copy = length (frames w) /\
  exists f0, frames w !! r = Some f0 /\
    index_is r (index f0) w' /\ index_is copy (index f0) w'.
Proof.
  intros H. apply frame_copy_inv in H as (-> & f & Ef & -> & Ew).
  split; [reflexivity|]. split; [reflexivity|]. exists f. split; [exact Ef|].
  pose proof (lookup_lt_Some _ _ _ Ef) as Hlt. split.
  - exists f. rewrite Ew, lookup_app_l by exact Hlt. auto.
  - exists f. rewrite Ew, lookup_app_r by lia. rewrite Nat.sub_diag. auto.
Qed.

End ColumnFacts.

(** One row of a query loop [H] advances the tracked column of [Hc]. *)
Ltac body_tracks Hc H Hk HT :=
  let Hl := fresh "Hl" in
  pose proof (lookup_In _ _ _ Hk) as Hl;
  repeat (lazymatch type of H with bind _ _ _ = _ => idtac end;
          let H1 := fresh "H" in
          apply bind_ret_inv in H as (? & ? & ? & ? & H1 & H & ->));
  to_query_steps; simpl in Hc;
  repeat (destruct Hc as [[= <- <-]|Hc]; [run_query_steps Hk Hl|]);
  [..|destruct Hc];
  rewrite <- ?app_assoc in *; assumption.

(** The run [H] of an extraction function, unfolded: a copy, the resets,
    the query loop with the lemma [body] about one row, the casts. *)
Ltac extraction_columns H body pairs :=
  let H1 := fresh "H" in
  let f0 := fresh "f0" in
  let Ef := fresh "Ef" in
  let Id := fresh "Id" in
  let Ic := fresh "Ic" in
  let L := fresh "L" in
  apply bind_ret_inv in H as (? & ? & ? & ? & H1 & H & ->);
  apply frame_copy_effect in H1 as (-> & -> & f0 & Ef & Id & Ic);
  repeat (let Hr := fresh "Hr" in
          apply bind_ret_inv in H as (? & ? & ? & ? & Hr & H & ->);
          first [after_reset Hr | idtac]);
  apply ret_inv in H as ([= ->] & -> & ->);
  match goal with
  | Hloop : for_itertuples _ _ ?wa = (Ret _, ?wb, ?tl),
    Hi : index_is ?copy ?idx ?wa, Hz0 : column_is ?copy ?idx _ _ ?wa |- _ =>
      assert (L : forall column keyword,
                 In (column, keyword) pairs ->
                 column_is copy idx column (repeat (PyNum 0) (length idx)) wa ->
                 column_is copy idx column (written idx (responses keyword tl)) wb /\
                 length (responses keyword tl) = length idx);
      [ let column := fresh "column" in
        let keyword := fresh "keyword" in
        let Hin := fresh "Hin" in
        let Hz := fresh "Hz" in
        intros column keyword Hin Hz;
        eapply for_itertuples_tracks; [|exact Hloop|exact Id|exact Hz];
        let Hb := fresh "Hb" in
        let Hk := fresh "Hk" in
        let HT := fresh "HT" in
        intros ? ? ? ? ? ? ? Hb Hk HT;
        eapply (body _ _ column keyword); [exact Hin|exact Hb|exact Hk|exact HT]
      | clear Hloop ]
  end;
  fill_columns L pairs; clear L;
  match goal with
  | Hcast : for_each _ _ _ = (Ret _, _, _) |- _ =>
      simpl in Hcast;
      repeat (let Hr := fresh "Hr" in
              apply bind_ret_inv in Hcast as (? & ? & ? & ? & Hr & Hcast & ->);
              after_cast Hr);
      apply ret_inv in Hcast as (_ & -> & ->)
  end;
  simpl; rewrite ?app_nil_r;
  repeat split; (eapply filled_of_column; [eassumption|eassumption|eassumption]).

Section Columns.
Context {V : Type} {cympy : Cympy V} {py : PyRuntime}.

Lemma get_voltage_body copy idx column keyword is_node value k t (w : world V)
    u w' t1 :
  In (column, keyword)
    [("voltage_A", "VpuA"); ("voltage_B", "VpuB"); ("voltage_C", "VpuC")] ->
  (if negb is_node then
     bind (query_device_into copy value "voltage_A" "VpuA") (fun _ =>
       bind (query_device_into copy value "voltage_B" "VpuB") (fun _ =>
         query_device_into copy value "voltage_C" "VpuC"))
   else
     bind (query_node_into copy value "voltage_A" "VpuA") (fun _ =>
       bind (query_node_into copy value "voltage_B" "VpuB") (fun _ =>
         query_node_into copy value "voltage_C" "VpuC"))) w = (Ret u, w', t1) ->
  idx !! k = Some (Index value) ->
  tracked copy idx column keyword k t w ->
  tracked copy idx column keyword (S k) (t ++ t1) w'.
Proof.
  intros Hc H Hk HT. destruct is_node; simpl in H; body_tracks Hc H Hk HT.
Qed.

Lemma get_overload_body copy idx column keyword value k t (w : world V) u w' t1 :
  In (column, keyword)
    [("overload_A", "OverloadAmpsA"); ("overload_B", "OverloadAmpsB");
     ("overload_C", "OverloadAmpsC")] ->
  bind (query_device_into copy value "overload_A" "OverloadAmpsA") (fun _ =>
    bind (query_device_into copy value "overload_B" "OverloadAmpsB") (fun _ =>
      query_device_into copy value "overload_C" "OverloadAmpsC")) w = (Ret u, w', t1) ->
  idx !! k = Some (Index value) ->
  tracked copy idx column keyword k t w ->
  tracked copy idx column keyword (S k) (t ++ t1) w'.
Proof. intros Hc H Hk HT. body_tracks Hc H Hk HT. Qed.

Lemma get_load_body copy idx column keyword value k t (w : world V) u w' t1 :
  In (column, keyword)
    [("MWA", "MWA"); ("MWB", "MWB"); ("MWC", "MWC"); ("MWTOT", "MWTOT");
     ("MVARA", "MVARA"); ("MVARB", "MVARB"); ("MVARC", "MVARC");
     ("MVARTOT", "MVARTOT")] ->
  bind (query_device_into copy value "MWA" "MWA") (fun _ =>
    bind (query_device_into copy value "MWB" "MWB") (fun _ =>
      bind (query_device_into copy value "MWC" "MWC") (fun _ =>
        bind (query_device_into copy value "MWTOT" "MWTOT") (fun _ =>
          bind (query_device_into copy value "MVARA" "MVARA") (fun _ =>
            bind (query_device_into copy value "MVARB" "MVARB") (fun _ =>
              bind (query_device_into copy value "MVARC" "MVARC") (fun _ =>
                query_device_into copy value "MVARTOT" "MVARTOT"))))))) w
    = (Ret u, w', t1) ->
  idx !! k = Some (Index value) ->
  tracked copy idx column keyword k t w ->
  tracked copy idx column keyword (S k) (t ++ t1) w'.
Proof. intros Hc H Hk HT. body_tracks Hc H Hk HT. Qed.

Lemma get_distance_body copy idx column keyword value k t (w : world V) u w' t1 :
  In (column, keyword) [("distance", "Distance")] ->
  query_device_into copy value "distance" "Distance" w = (Ret u, w', t1) ->
  idx !! k = Some (Index value) ->
  tracked copy idx column keyword k t w ->
  tracked copy idx column keyword (S k) (t ++ t1) w'.
Proof. intros Hc H Hk HT. body_tracks Hc H Hk HT. Qed.

Lemma get_voltage_filled frame is_node (w : world V) copy w' t :
  get_voltage frame is_node w = (Ret copy, w', t) ->
  filled cast_float copy "voltage_A" "VpuA" t w' /\
  filled cast_float copy "voltage_B" "VpuB" t w' /\
  filled cast_float copy "voltage_C" "VpuC" t w'.
Proof.
  intros H. unfold get_voltage in H.
  extraction_columns H get_voltage_body
    [("voltage_A", "VpuA"); ("voltage_B", "VpuB"); ("voltage_C", "VpuC")].
Qed.

Lemma get_overload_filled devices (w : world V) copy w' t :
  get_overload devices w = (Ret copy, w', t) ->
  filled cast_float copy "overload_A" "OverloadAmpsA" t w' /\
  filled cast_float copy "overload_B" "OverloadAmpsB" t w' /\
  filled cast_float copy "overload_C" "OverloadAmpsC" t w'.
Proof.
  intros H. unfold get_overload in H.
  extraction_columns H get_overload_body
    [("overload_A", "OverloadAmpsA"); ("overload_B", "OverloadAmpsB");
     ("overload_C", "OverloadAmpsC")].
Qed.

Lemma get_load_filled devices (w : world V) copy w' t :
  get_load devices w = (Ret copy, w', t) ->
  Forall (fun k => filled cast_float copy k k t w')
    ["MWA"; "MWB"; "MWC"; "MWTOT"; "MVARA"; "MVARB"; "MVARC"; "MVARTOT"].
Proof.
  intros H. unfold get_load in H.
  enough (G : filled cast_float copy "MWA" "MWA" t w' /\
              filled cast_float copy "MWB" "MWB" t w' /\
              filled cast_float copy "MWC" "MWC" t w' /\
              filled cast_float copy "MWTOT" "MWTOT" t w' /\
              filled cast_float copy "MVARA" "MVARA" t w' /\
              filled cast_float copy "MVARB" "MVARB" t w' /\
              filled cast_float copy "MVARC" "MVARC" t w' /\
              filled cast_float copy "MVARTOT" "MVARTOT" t w')
    by (repeat (constructor; [tauto|]); constructor).
  extraction_columns H get_load_body
    [("MWA", "MWA"); ("MWB", "MWB"); ("MWC", "MWC"); ("MWTOT", "MWTOT");
     ("MVARA", "MVARA"); ("MVARB", "MVARB"); ("MVARC", "MVARC");
     ("MVARTOT", "MVARTOT")].
Qed.

Lemma get_distance_filled devices (w : world V) copy w' t :
  get_distance devices w = (Ret copy, w', t) ->
  filled cast_float copy "distance" "Distance" t w'.
Proof.
  intros H. unfold get_distance in H.
  extraction_columns H get_distance_body [("distance", "Distance")].
Qed.

End Columns.

Section QueryTraces.
Context {V : Type} {cympy : Cympy V} {py : PyRuntime}.

Lemma emits_silent {A} P (m : M V A) : silent m -> emits P m.
Proof. intros H w. rewrite (H w). constructor. Qed.

Lemma emits_frame_copy P r : emits P (frame_copy (V:=V) r).
Proof.
  apply emits_bind; [apply emits_silent, silent_frame_read|].
  intros f. apply emits_silent, silent_frame_new.
Qed.

Lemma emits_reset_column P r name : emits P (reset_column (V:=V) r name).
Proof.
  unfold reset_column.
  apply emits_bind; [apply emits_silent, silent_frame_read|]. intros f.
  apply emits_bind; [apply emits_lift|]. intros f'.
  apply emits_silent, silent_frame_write.
Qed.

Lemma emits_assign_apply P r target source cast :
  emits P (assign_apply (V:=V) r target source cast).
Proof.
  unfold assign_apply.
  apply emits_bind; [apply emits_silent, silent_frame_read|]. intros f.
  repeat (apply emits_bind; [apply emits_lift|]; intros ?).
  apply emits_silent, silent_frame_write.
Qed.

Lemma emits_query_device_into keywords target value column keyword :
  In keyword keywords ->
  emits (queries false keywords) (query_device_into (V:=V) target value column keyword).
Proof.
  intros Hin. unfold query_device_into.
  repeat (apply emits_bind; [apply emits_lift|]; intros ?).
  apply emits_bind; [apply emits_vendor; intros r; split; [reflexivity|exact Hin]|].
  intros x. apply emits_bind; [apply emits_silent, silent_frame_read|]. intros f.
  apply emits_silent, silent_frame_write.
Qed.

Lemma emits_query_node_into keywords target value column keyword :
  In keyword keywords ->
  emits (queries true keywords) (query_node_into (V:=V) target value column keyword).
Proof.
  intros Hin. unfold query_node_into.
  repeat (apply emits_bind; [apply emits_lift|]; intros ?).
  apply emits_bind; [apply emits_vendor; intros r; split; [reflexivity|exact Hin]|].
  intros x. apply emits_bind; [apply emits_silent, silent_frame_read|]. intros f.
  apply emits_silent, silent_frame_write.
Qed.

Lemma emits_for_itertuples P r (body : row -> M V unit) :
  (forall value, emits P (body value)) -> emits P (for_itertuples r body).
Proof.
  intros H. apply emits_bind; [apply emits_silent, silent_frame_read|].
  intros f. apply emits_for_each. intros x. apply H.
Qed.

Lemma sum_cons (a : nat) (l : list nat) : list_sum (a :: l) = a + list_sum l.
Proof. reflexivity. Qed.

Lemma responses_cons k ev (t : list event) :
  responses k (ev :: t)
  = match response k ev with
    | Some y => y :: responses k t
    | None => responses k t
    end.
Proof. reflexivity. Qed.

Lemma responses_sum k0 x ev (t : list event) (ks : list string) :
  (forall k, response k ev = if String.eqb k0 k then Some x else None) ->
  list_sum (map (fun k => length (responses k (ev :: t))) ks)
  = length (List.filter (String.eqb k0) ks)
    + list_sum (map (fun k => length (responses k t)) ks).
Proof.
  intros K. induction ks as [|k ks IH]; [reflexivity|].
  cbn [List.filter]. rewrite !map_cons, !sum_cons, IH, responses_cons, K.
  destruct (String.eqb k0 k); cbn [length]; lia.
Qed.

Lemma filter_once (k0 : string) (ks : list string) :
  NoDup ks -> In k0 ks -> length (List.filter (String.eqb k0) ks) = 1.
Proof.
  induction ks as [|k ks IH]; intros Hnd Hin; [destruct Hin|].
  apply NoDup_cons in Hnd as [Hk Hnd]. cbn [List.filter].
  destruct (String.eqb_spec k0 k) as [->|Hne].
  - cbn [length]. f_equal.
    assert (E : List.filter (String.eqb k) ks = []); [|rewrite E; reflexivity].
    clear IH Hin Hnd. induction ks as [|k' ks IH]; [reflexivity|].
    apply not_elem_of_cons in Hk as [Hne Hk]. cbn [List.filter].
    destruct (String.eqb_spec k k') as [->|_]; [now destruct Hne|]. apply IH, Hk.
  - destruct Hin as [->|Hin]; [now destruct Hne|]. apply IH; assumption.
Qed.

(** Every event is a successful query for one of the keywords, and each
    keyword has [n] answers: there are [n] events for each keyword. *)
Lemma queries_count node keywords (t : list event) n :
  NoDup keywords ->
  Forall (queries node keywords) t ->
  (forall c e, ~ In (c, Raise e) t) ->
  (forall k, In k keywords -> length (responses k t) = n) ->
  length t = length keywords * n.
Proof.
  intros Hnd HF HR HL.
  assert (E : length t = list_sum (map (fun k => length (responses k t)) keywords)).
  { clear HL. induction t as [|[c r] t IH].
    - clear. induction keywords as [|k ks IHk]; [reflexivity|exact IHk].
    - apply Forall_cons in HF as [Hq HF].
      destruct r as [x|e]; [|exfalso; apply (HR c e); left; reflexivity].
      assert (K : exists k0, In k0 keywords /\
                  forall k, response k (c, Ret x)
                            = if String.eqb k0 k then Some x else None).
      { unfold queries in Hq. simpl in Hq. destruct c; try contradiction;
          destruct Hq as [_ Hin]; eexists; (split; [exact Hin|]); intros k;
          reflexivity. }
      destruct K as (k0 & Hin & K).
      rewrite (responses_sum k0 x _ _ _ K), (filter_once k0 keywords Hnd Hin).
      cbn [length]. f_equal. apply IH; [exact HF|].
      intros c' e Hin'. apply (HR c' e). right. exact Hin'. }
  rewrite E. clear E HF HR. induction keywords as [|k ks IH]; [reflexivity|].
  rewrite map_cons, sum_cons. cbn [length Nat.mul].
  rewrite (HL k) by (left; reflexivity). f_equal.
  apply IH; [apply NoDup_cons in Hnd; tauto|].
  intros k' Hk'. apply HL. right. exact Hk'.
Qed.

End QueryTraces.

Section QueryCalls.
Context {V : Type} {cympy : Cympy V} {py : PyRuntime}.

Lemma query_device_into_calls copy value column keyword (w : world V) u w' t :
  query_device_into copy value column keyword w = (Ret u, w', t) ->
  map fst t = device_query keyword value.
Proof.
  unfold query_device_into, device_query, bind, lift, vendor, frame_read, frame_write.
  destruct (row_attr value "device_number") as [dn|e]; simpl; [|discriminate].
  destruct (row_attr value "device_type_id") as [dt|e]; simpl; [|discriminate].
  destruct (py_int dt) as [ty|e]; simpl; [|discriminate].
  destruct (respond (session w) (QueryInfoDevice keyword dn ty)) as [[x|e] v'];
    simpl; [|discriminate].
  destruct (frames w !! copy) as [f1|]; simpl; [|discriminate].
  intros [= <- <- <-]. reflexivity.
Qed.

Lemma query_node_into_calls copy value column keyword (w : world V) u w' t :
  query_node_into copy value column keyword w = (Ret u, w', t) ->
  map fst t = node_query keyword value.
Proof.
  unfold query_node_into, node_query, bind, lift, vendor, frame_read, frame_write.
  destruct (row_attr value "node_id") as [nid|e]; simpl; [|discriminate].
  destruct (respond (session w) (QueryInfoNode keyword nid)) as [[x|e] v'];
    simpl; [|discriminate].
  destruct (frames w !! copy) as [f1|]; simpl; [|discriminate].
  intros [= <- <- <-]. reflexivity.
Qed.

Lemma for_each_calls {A} (xs : list A) (body : A -> M V unit) (calls : A -> list call)
    (w : world V) u w' t :
  (forall x w1 u1 w1' t1, body x w1 = (Ret u1, w1', t1) -> map fst t1 = calls x) ->
  for_each xs body w = (Ret u, w', t) ->
  map fst t = flat_map calls xs.
Proof.
  intros Hb. revert w t. induction xs as [|x xs IH]; intros w t H; simpl in H.
  - apply ret_inv in H as (_ & _ & ->). reflexivity.
  - apply bind_ret_inv in H as (a & w1 & t1 & t2 & H1 & H & ->).
    rewrite map_app. simpl. rewrite (Hb _ _ _ _ _ H1), (IH _ _ H). reflexivity.
Qed.

Lemma reset_column_other copy name (w : world V) u w' t r :
  reset_column copy name w = (Ret u, w', t) -> r <> copy ->
  t = [] /\ frames w' !! r = frames w !! r.
Proof.
  intros H Hne. apply reset_column_inv in H as (-> & f1 & f2 & (_ & Ew & _) & _).
  split; [reflexivity|]. rewrite Ew. apply list_lookup_insert_ne. auto.
Qed.

Lemma frame_copy_other r (w : world V) copy w' t :
  frame_copy r w = (Ret copy, w', t) ->
  t = [] /\ exists f0,
    frames w !! r = Some f0 /\ frames w' !! r = Some f0 /\
    r <> copy /\ copy = length (frames w).
Proof.
  intros H. apply frame_copy_inv in H as (-> & f & Ef & -> & Ew).
  split; [reflexivity|]. exists f. split; [exact Ef|].
  pose proof (lookup_lt_Some _ _ _ Ef) as Hlt.
  split; [rewrite Ew; apply lookup_app_l_Some; exact Ef|]. split; [lia|reflexivity].
Qed.

End QueryCalls.

(** The calls of one row of a query loop [H]. *)
Ltac body_calls H :=
  repeat (lazymatch type of H with bind _ _ _ = _ => idtac end;
          let H1 := fresh "H" in
          apply bind_ret_inv in H as (? & ? & ? & ? & H1 & H & ->));
  repeat match goal with
    | Hq : query_device_into _ _ _ _ _ = (Ret _, _, _) |- _ =>
        apply query_device_into_calls in Hq
    | Hq : query_node_into _ _ _ _ _ = (Ret _, _, _) |- _ =>
        apply query_node_into_calls in Hq
    end;
  unfold row_queries; cbn [flat_map]; rewrite ?map_app, ?app_nil_r;
  repeat match goal with Hq : map fst _ = _ |- _ => rewrite Hq; clear Hq end;
  reflexivity.

(** The calls of the run [H] of an extraction function, unfolded. *)
Ltac extraction_calls H node keywords :=
  let H1 := fresh "H" in
  let f0 := fresh "f0" in
  let Ef := fresh "Ef" in
  let Hne := fresh "Hne" in
  let Er := fresh "Er" in
  apply bind_ret_inv in H as (? & ? & ? & ? & H1 & H & ->);
  apply frame_copy_other in H1 as (-> & f0 & Ef & Er & Hne & ->);
  exists f0; split; [exact Ef|];
  repeat (let Hr := fresh "Hr" in
          apply bind_ret_inv in H as (? & ? & ? & ? & Hr & H & ->);
          first
            [ eapply reset_column_other in Hr as [-> Hr]; [|eassumption];
              rewrite Er in Hr; clear Er; rename Hr into Er
            | idtac ]);
  apply ret_inv in H as (_ & _ & ->);
  match goal with
  | Hcast : for_each _ _ _ = (Ret _, _, _) |- _ =>
      simpl in Hcast;
      repeat (let Hr := fresh "Hr" in
              apply bind_ret_inv in Hcast as (? & ? & ? & ? & Hr & Hcast & ->);
              apply assign_apply_inv in Hr as (-> & _));
      apply ret_inv in Hcast as (_ & _ & ->)
  end;
  match goal with
  | Hloop : for_itertuples _ _ _ = (Ret _, _, _) |- _ =>
      unfold for_itertuples in Hloop;
      apply bind_ret_inv in Hloop as (? & ? & ? & ? & H1 & Hloop & ->);
      apply frame_read_inv in H1 as (H1 & -> & ->);
      rewrite Er in H1; injection H1 as <-;
      simpl; rewrite ?app_nil_r;
      apply (for_each_calls _ _ (row_queries node keywords) _ _ _ _) in Hloop;
      [exact Hloop|]
  end;
  let Hb := fresh "Hb" in
  intros ? ? ? ? ? Hb.

Section ExtractionCalls.
Context {V : Type} {cympy : Cympy V} {py : PyRuntime}.

Lemma get_voltage_calls frame is_node (w : world V) copy w' t :
  get_voltage frame is_node w = (Ret copy, w', t) ->
  exists f0, frames w !! frame = Some f0 /\
    map fst t
    = flat_map (row_queries is_node ["VpuA"; "VpuB"; "VpuC"]) (itertuples f0).
Proof.
  intros H. unfold get_voltage in H.
  extraction_calls H is_node ["VpuA"; "VpuB"; "VpuC"].
  destruct is_node; simpl in Hb; body_calls Hb.
Qed.

Lemma get_overload_calls devices (w : world V) copy w' t :
  get_overload devices w = (Ret copy, w', t) ->
  exists f0, frames w !! devices = Some f0 /\
    map fst t
    = flat_map (row_queries false ["OverloadAmpsA"; "OverloadAmpsB"; "OverloadAmpsC"])
        (itertuples f0).
Proof.
  intros H. unfold get_overload in H.
  extraction_calls H false ["OverloadAmpsA"; "OverloadAmpsB"; "OverloadAmpsC"].
  body_calls Hb.
Qed.

Lemma get_load_calls devices (w : world V) copy w' t :
  get_load devices w = (Ret copy, w', t) ->
  exists f0, frames w !! devices = Some f0 /\
    map fst t
    = flat_map (row_queries false
                  ["MWA"; "MWB"; "MWC"; "MWTOT"; "MVARA"; "MVARB"; "MVARC"; "MVARTOT"])
        (itertuples f0).
Proof.
  intros H. unfold get_load in H.
  extraction_calls H false
    ["MWA"; "MWB"; "MWC"; "MWTOT"; "MVARA"; "MVARB"; "MVARC"; "MVARTOT"].
  body_calls Hb.
Qed.

Lemma get_distance_calls devices (w : world V) copy w' t :
  get_distance devices w = (Ret copy, w', t) ->
  exists f0, frames w !! devices = Some f0 /\
    map fst t = flat_map (row_queries false ["Distance"]) (itertuples f0).
Proof.
  intros H. unfold get_distance in H.
  extraction_calls H false ["Distance"].
  body_calls Hb.
Qed.

End ExtractionCalls.

Section ExtractionColumns.
Context {V : Type} {cympy : Cympy V} {py : PyRuntime}.

Lemma returned_no_raise {A} (m : M V A) (w : world V) a w' t :
  propagates m -> m w = (Ret a, w', t) -> forall c e, ~ In (c, Raise e) t.
Proof. intros Hp H c e Hin. discriminate (Hp _ _ _ _ _ _ H Hin). Qed.

Lemma filled_rows cast copy column keyword t (w : world V) f' :
  filled cast copy column keyword t w -> frames w !! copy = Some f' ->
  length (responses keyword t) = length (index f').
Proof. intros (f & cells & Ef & L & _) E. rewrite Ef in E. injection E as <-. exact L. Qed.

Lemma filled_frame cast copy column keyword t (w : world V) :
  filled cast copy column keyword t w -> exists f', frames w !! copy = Some f'.
Proof. intros (f & cells & Ef & _). eauto. Qed.

Lemma get_voltage_queries frame is_node :
  emits (queries is_node ["VpuA"; "VpuB"; "VpuC"]) (get_voltage (V:=V) frame is_node).
Proof.
  unfold get_voltage. apply emits_bind; [apply emits_frame_copy|]. intros voltage.
  repeat (apply emits_bind; [apply emits_reset_column|]; intros _).
  apply emits_bind.
  { apply emits_for_itertuples. intros value. destruct is_node; simpl.
    - repeat first [ apply emits_bind; [|intros _]
                   | apply emits_query_node_into; simpl; tauto ].
    - repeat first [ apply emits_bind; [|intros _]
                   | apply emits_query_device_into; simpl; tauto ]. }
  intros _. apply emits_bind; [|intros _; apply emits_ret].
  apply emits_for_each. intros column. apply emits_assign_apply.
Qed.

Ltac device_queries :=
  repeat first
    [ apply emits_frame_copy
    | apply emits_reset_column
    | apply emits_assign_apply
    | apply emits_ret
    | apply emits_query_device_into; simpl; tauto
    | apply emits_for_itertuples; intros ?
    | apply emits_for_each; intros ?
    | apply emits_bind; [|intros ?] ].

Lemma get_overload_queries devices :
  emits (queries false ["OverloadAmpsA"; "OverloadAmpsB"; "OverloadAmpsC"])
    (get_overload (V:=V) devices).
Proof. unfold get_overload. device_queries. Qed.

Lemma get_load_queries devices :
  emits (queries false
           ["MWA"; "MWB"; "MWC"; "MWTOT"; "MVARA"; "MVARB"; "MVARC"; "MVARTOT"])
    (get_load (V:=V) devices).
Proof. unfold get_load. device_queries. Qed.

Lemma get_distance_queries devices :
  emits (queries false ["Distance"]) (get_distance (V:=V) devices).
Proof. unfold get_distance. device_queries. Qed.

Ltac nodup_strings :=
  repeat (apply NoDup_cons_2;
          [let Hin := fresh in
           intros Hin; apply list_elem_of_In in Hin; simpl in Hin;
           intuition discriminate|]);
  apply NoDup_nil_2.



End ExtractionColumns.



(** ** The frame of [list_nodes] *)

Section Kept.
Context {V : Type} {cympy : Cympy V} {py : PyRuntime}.

Lemma kept_step copy idx column cells (w w' : world V) label c kw t1 :
  query_step copy label c kw w w' t1 ->
  c <> column -> In label idx ->
  column_is copy idx column cells w -> column_is copy idx column cells w'.
Proof.
  intros (f1 & x & call & Ef & Ew & -> & Hr) Hc Hl (f' & Ef' & Ei & Eg).
  rewrite Ef in Ef'. injection Ef' as ->.
  destruct (loc_set_present label c x f' ltac:(rewrite Ei; exact Hl)) as (E1 & E2 & _).
  exists (loc_set label c x f'). split.
  - rewrite Ew. apply list_lookup_insert_eq. eapply lookup_lt_Some. exact Ef.
  - split; [congruence|]. rewrite E2 by auto. exact Eg.
Qed.

Lemma for_itertuples_keeps r copy idx column cells (body : row -> M V unit)
    (w : world V) u w' t :
  (forall value (w0 : world V) u0 w0' t1,
     body value w0 = (Ret u0, w0', t1) -> In (Index value) idx ->
     column_is copy idx column cells w0 -> column_is copy idx column cells w0') ->
  for_itertuples r body w = (Ret u, w', t) ->
  index_is r idx w ->
  column_is copy idx column cells w -> column_is copy idx column cells w'.
Proof.
  intros Hb H (f & Ef & Ei) Hc. unfold for_itertuples in H.
  apply bind_ret_inv in H as (f' & w1 & t1 & t2 & Hr & H & ->).
  apply frame_read_inv in Hr as (Ef' & -> & ->). rewrite Ef in Ef'. injection Ef' as <-.
  assert (Hrows : forall value, In value (itertuples f) -> In (Index value) idx).
  { intros value Hin. rewrite <- Ei. apply itertuples_label. exact Hin. }
  clear Ef. revert w u t2 H Hc. induction (itertuples f) as [|value rows IH];
    intros w u t2 H Hc; simpl in H.
  - apply ret_inv in H as (_ & -> & _). exact Hc.
  - apply bind_ret_inv in H as (a & w1 & ta & tb & Ha & H & ->).
    assert (Hc1 : column_is copy idx column cells w1).
    { eapply Hb; [exact Ha| |exact Hc]. apply Hrows. left. reflexivity. }
    destruct Hc1 as (f1 & Ef1 & Ei1 & Eg1).
    eapply (IH (fun v Hv => Hrows v (or_intror Hv)) w1 u tb H).
    exists f1. auto.
Qed.

Lemma apply_cells_length cast cells cells' :
  apply_cells cast cells = Ret cells' -> length cells' = length cells.
Proof.
  revert cells'. induction cells as [|x cells IH]; intros cells' H; simpl in H.
  - injection H as <-. reflexivity.
  - destruct (cast x) as [y|e]; [|discriminate].
    destruct (apply_cells cast cells) as [ys|e]; [|discriminate].
    injection H as <-. simpl. f_equal. apply IH. reflexivity.
Qed.

Lemma row_attr_at f i label name cells :
  get_column name (columns f) = Some cells ->
  row_attr (row_at f i label) name = Ret (default PyNone (cells !! i)).
Proof.
  unfold row_attr, row_at. simpl. intros H.
  induction (columns f) as [|[k vals] cols IH]; simpl in *; [discriminate|].
  destruct (String.eqb k name); [injection H as ->; reflexivity|]. apply IH, H.
Qed.

Lemma itertuples_attr f name cells :
  get_column name (columns f) = Some cells ->
  length cells = length (index f) ->
  map (fun value => row_attr value name) (itertuples f) = map Ret cells.
Proof.
  intros Hc Hl. apply list_eq. intros i.
  unfold itertuples, enumerate. rewrite !list_lookup_fmap, enumerate_from_lookup.
  destruct (index f !! i) as [label|] eqn:Ei; simpl.
  - rewrite (row_attr_at _ _ _ _ _ Hc).
    destruct (lookup_lt_is_Some_2 cells i) as [x Ex].
    { rewrite Hl. eapply lookup_lt_Some. exact Ei. }
    rewrite Ex. reflexivity.
  - rewrite (lookup_ge_None_2 cells i); [reflexivity|].
    rewrite Hl. apply lookup_ge_None_1. exact Ei.
Qed.

Lemma flat_map_through {A B C} (g : A -> B) (h : B -> list C) (l : list A) :
  flat_map (fun x => h (g x)) l = flat_map h (map g l).
Proof. induction l as [|x l IH]; simpl; [reflexivity|]. rewrite IH. reflexivity. Qed.

Lemma node_rows_calls (w : world V) copy idx f ids :
  frames w !! copy = Some f ->
  column_is copy idx "node_id" ids w ->
  length ids = length idx ->
  flat_map (row_queries true ["SectionId"; "CoordY"; "CoordX"; "Distance"])
    (itertuples f)
  = flat_map (fun id => [QueryInfoNode "SectionId" id; QueryInfoNode "CoordY" id;
                         QueryInfoNode "CoordX" id; QueryInfoNode "Distance" id])
      ids.
Proof.
  intros Ef (f1 & Ef1 & Ei & Eid) Hl. rewrite Ef in Ef1. injection Ef1 as <-.
  subst idx.
  rewrite (flat_map_through (fun value => row_attr value "node_id")
             (fun r => flat_map (fun keyword =>
                                   match r with
                                   | Ret node_id => [QueryInfoNode keyword node_id]
                                   | Raise _ => []
                                   end)
                         ["SectionId"; "CoordY"; "CoordX"; "Distance"])).
  rewrite (itertuples_attr f "node_id" ids Eid Hl).
  rewrite <- flat_map_through. reflexivity.
Qed.

Lemma list_nodes_rows copy idx column keyword node k t (w : world V) u w' t1 :
  In (column, keyword)
    [("section_id", "SectionId"); ("latitude", "CoordY"); ("longitude", "CoordX");
     ("distance", "Distance")] ->
  bind (query_node_into copy node "section_id" "SectionId") (fun _ =>
    bind (query_node_into copy node "latitude" "CoordY") (fun _ =>
      bind (query_node_into copy node "longitude" "CoordX") (fun _ =>
        query_node_into copy node "distance" "Distance"))) w = (Ret u, w', t1) ->
  idx !! k = Some (Index node) ->
  tracked copy idx column keyword k t w ->
  tracked copy idx column keyword (S k) (t ++ t1) w'.
Proof. intros Hc H Hk HT. body_tracks Hc H Hk HT. Qed.

Lemma list_nodes_keeps copy idx column cells node (w : world V) u w' t1 :
  In column ["node_object"; "node_id"] ->
  bind (query_node_into copy node "section_id" "SectionId") (fun _ =>
    bind (query_node_into copy node "latitude" "CoordY") (fun _ =>
      bind (query_node_into copy node "longitude" "CoordX") (fun _ =>
        query_node_into copy node "distance" "Distance"))) w = (Ret u, w', t1) ->
  In (Index node) idx ->
  column_is copy idx column cells w -> column_is copy idx column cells w'.
Proof.
  intros Hc H Hl HK.
  repeat (lazymatch type of H with bind _ _ _ = _ => idtac end;
          let H1 := fresh "H" in
          apply bind_ret_inv in H as (? & ? & ? & ? & H1 & H & ->)).
  to_query_steps.
  repeat match goal with
    | Hs : query_step _ _ ?c _ ?w0 _ _, HK0 : column_is _ _ _ _ ?w0 |- _ =>
        apply (kept_step _ _ _ _ _ _ _ _ _ _ Hs) in HK0;
          [clear Hs| simpl in Hc; intuition (subst; discriminate) | exact Hl]
    end.
  exact HK.
Qed.

End Kept.

Section ListNodes.
Context {V : Type} {cympy : Cympy V} {py : PyRuntime}.


End ListNodes.


(** ** Runs of the extraction functions, step by step *)

Section Work.
Context {V : Type} {cympy : Cympy V} {py : PyRuntime}.

Lemma bind_silent {A B} (m : M V A) (k : A -> M V B) (w : world V) a w1 :
  m w = (Ret a, w1, []) -> bind m k w = k a w1.
Proof. unfold bind. intros ->. destruct (k a w1) as [[? ?] ?]. reflexivity. Qed.

Lemma bind_step {A B} (m : M V A) (k : A -> M V B) (w : world V) a w1 t1 r w2 t2 :
  m w = (Ret a, w1, t1) -> k a w1 = (r, w2, t2) -> bind m k w = (r, w2, t1 ++ t2).
Proof. unfold bind. intros -> ->. reflexivity. Qed.

Lemma insert_last {A} (l : list A) (x y : A) : <[length l := x]> (l ++ [y]) = l ++ [x].
Proof. rewrite insert_app_r_alt by lia. rewrite Nat.sub_diag. reflexivity. Qed.

Lemma frame_copy_work r (w : world V) f0 :
  frames w !! r = Some f0 ->
  frame_copy r w = (Ret (length (frames w)), work w (session w) f0, []).
Proof.
  intros E. unfold frame_copy, bind, frame_read, frame_new. rewrite E. reflexivity.
Qed.

Lemma frame_read_work (w0 : world V) s f :
  frame_read (length (frames w0)) (work w0 s f) = (Ret f, work w0 s f, []).
Proof.
  unfold frame_read, work. simpl. rewrite lookup_app_r by lia.
  rewrite Nat.sub_diag. reflexivity.
Qed.

Lemma frame_read_input r (w0 : world V) s f f0 :
  frames w0 !! r = Some f0 ->
  frame_read r (work w0 s f) = (Ret f0, work w0 s f, []).
Proof.
  intros E. unfold frame_read, work. simpl.
  rewrite (lookup_app_l_Some _ _ _ _ E). reflexivity.
Qed.

Lemma frame_write_work (w0 : world V) s f f' :
  frame_write (length (frames w0)) f' (work w0 s f) = (Ret tt, work w0 s f', []).
Proof.
  unfold frame_write, with_frames, work. simpl. rewrite insert_last. reflexivity.
Qed.

Lemma reset_column_work (w0 : world V) s f name :
  reset_column (length (frames w0)) name (work w0 s f)
  = (Ret tt, work w0 s (assigned name (repeat (PyNum 0) (len f)) f), []).
Proof.
  unfold reset_column.
  rewrite (bind_silent _ _ _ _ _ (frame_read_work w0 s f)).
  unfold set_column. rewrite repeat_length, Nat.eqb_refl.
  unfold bind, lift. rewrite frame_write_work. reflexivity.
Qed.

Lemma assign_apply_work (w0 : world V) s f target source cast cells cells' :
  get_column source (columns f) = Some cells ->
  apply_cells cast cells = Ret cells' ->
  length cells = length (index f) ->
  assign_apply (length (frames w0)) target source cast (work w0 s f)
  = (Ret tt, work w0 s (assigned target cells' f), []).
Proof.
  intros Ec Ea El. unfold assign_apply.
  rewrite (bind_silent _ _ _ _ _ (frame_read_work w0 s f)).
  rewrite Ec. unfold bind, lift. rewrite Ea. unfold set_column, len.
  rewrite (apply_cells_length _ _ _ Ea), El, Nat.eqb_refl.
  rewrite frame_write_work. reflexivity.
Qed.

Lemma query_device_into_work (w0 : world V) s f value column keyword dn dt ty x s' :
  row_attr value "device_number" = Ret dn ->
  row_attr value "device_type_id" = Ret dt ->
  py_int dt = Ret ty ->
  respond s (QueryInfoDevice keyword dn ty) = (Ret x, s') ->
  query_device_into (length (frames w0)) value column keyword (work w0 s f)
  = (Ret tt, work w0 s' (loc_set (Index value) column x f),
     [(QueryInfoDevice keyword dn ty, Ret x)]).
Proof.
  intros E1 E2 E3 E4.
  unfold query_device_into, bind, lift, vendor, frame_read, frame_write, with_frames.
  rewrite E1. cbn. rewrite E2. cbn. rewrite E3. cbn. rewrite E4. cbn.
  rewrite lookup_app_r by lia. rewrite Nat.sub_diag. cbn. rewrite insert_last.
  reflexivity.
Qed.

Lemma query_node_into_work (w0 : world V) s f value column keyword nid x s' :
  row_attr value "node_id" = Ret nid ->
  respond s (QueryInfoNode keyword nid) = (Ret x, s') ->
  query_node_into (length (frames w0)) value column keyword (work w0 s f)
  = (Ret tt, work w0 s' (loc_set (Index value) column x f),
     [(QueryInfoNode keyword nid, Ret x)]).
Proof.
  intros E1 E4.
  unfold query_node_into, bind, lift, vendor, frame_read, frame_write, with_frames.
  rewrite E1. cbn. rewrite E4. cbn.
  rewrite lookup_app_r by lia. rewrite Nat.sub_diag. cbn. rewrite insert_last.
  reflexivity.
Qed.

End Work.

Section Ready.
Context {py : PyRuntime}.

Lemma castable_zero : castable (PyNum 0).
Proof. exists (PyNum 0). reflexivity. Qed.

Lemma castable_scaled scale x : castable x -> exists y, cast_scaled scale x = Ret y.
Proof.
  intros [y H]. unfold cast_float in H. unfold cast_scaled.
  destruct (is_empty_str x); [eauto|].
  destruct (py_float x); [eauto|discriminate].
Qed.

Lemma apply_cells_total (cast : pyval -> result pyval) cells :
  (forall x, castable x -> exists y, cast x = Ret y) ->
  Forall castable cells -> exists cells', apply_cells cast cells = Ret cells'.
Proof.
  intros Hc HF. induction HF as [|x cells Hx HF IH]; simpl; [eauto|].
  destruct (Hc x Hx) as [y ->]. destruct IH as [ys ->]. eauto.
Qed.

Lemma write_at_Forall (P : pyval -> Prop) label v idx vals :
  P v -> Forall P vals -> Forall P (write_at label v idx vals).
Proof.
  intros Hv HF. revert idx. induction HF as [|x vals Hx HF IH]; intros [|l idx]; simpl;
    try constructor; auto.
  destruct (Z.eqb l label); assumption.
Qed.

Lemma ready_weaken cols cols' f : incl cols' cols -> ready cols f -> ready cols' f.
Proof. intros Hi H c Hc. apply H, Hi, Hc. Qed.

Lemma ready_nil f : ready [] f.
Proof. intros c []. Qed.

Lemma ready_reset cols f name :
  ready cols f -> ready (name :: cols) (assigned name (repeat (PyNum 0) (len f)) f).
Proof.
  intros H c Hc. unfold assigned. simpl. rewrite get_column_put.
  destruct (String.eqb_spec c name) as [->|Hne].
  - eexists. split; [reflexivity|]. split; [apply repeat_length|].
    apply Forall_forall. intros x Hx. apply list_elem_of_In, repeat_spec in Hx as ->.
    apply castable_zero.
  - destruct Hc as [->|Hc]; [now destruct Hne|]. apply H, Hc.
Qed.

Lemma ready_assigned cols f name cells :
  ready cols f -> ~ In name cols -> ready cols (assigned name cells f).
Proof.
  intros H Hn c Hc. unfold assigned. simpl. rewrite get_column_put.
  destruct (String.eqb_spec c name) as [->|Hne]; [contradiction|]. apply H, Hc.
Qed.

Lemma ready_loc_set cols f label c x :
  In label (index f) -> ready cols f -> (In c cols -> castable x) ->
  ready cols (loc_set label c x f) /\ index (loc_set label c x f) = index f.
Proof.
  intros Hl H Hx.
  destruct (loc_set_present label c x f Hl) as (Ei & Eo & _).
  split; [|exact Ei]. intros c' Hc'. rewrite Ei.
  destruct (String.eqb_spec c' c) as [->|Hne].
  - destruct (H c Hc') as (cells & Ec & El & HF).
    destruct (loc_set_column label c x f Hl ltac:(rewrite Ec; eauto)) as (_ & E2).
    rewrite E2, Ec. simpl. eexists. split; [reflexivity|].
    split; [rewrite write_at_length; exact El|].
    apply write_at_Forall; [apply Hx, Hc'|exact HF].
  - rewrite Eo by exact Hne. apply H, Hc'.
Qed.

End Ready.

Section Totals.
Context {V : Type} {cympy : Cympy V} {py : PyRuntime}.

(** The casts of the columns [cols0], one after the other. *)
Lemma casts_work (w0 : world V) s (cast : pyval -> result pyval) cols0 f :
  (forall x, castable x -> exists y, cast x = Ret y) ->
  NoDup cols0 -> ready cols0 f ->
  exists f',
    for_each cols0 (fun column =>
      assign_apply (length (frames w0)) column column cast) (work w0 s f)
    = (Ret tt, work w0 s f', []) /\
    index f' = index f /\
    (forall c, ~ In c cols0 -> get_column c (columns f') = get_column c (columns f)) /\
    (forall c, In c cols0 ->
       exists cells cells', get_column c (columns f) = Some cells /\
         apply_cells cast cells = Ret cells' /\
         get_column c (columns f') = Some cells').
Proof.
  intros Hc Hnd. revert f. induction cols0 as [|c cols0 IH]; intros f Hr.
  - exists f. simpl. split; [reflexivity|]. split; [reflexivity|].
    split; [reflexivity|]. intros c [].
  - apply NoDup_cons in Hnd as [Hn Hnd].
    assert (Hn' : ~ In c cols0) by (rewrite <- list_elem_of_In; exact Hn).
    destruct (Hr c ltac:(left; reflexivity)) as (cells & Ec & El & HF).
    destruct (apply_cells_total cast cells Hc HF) as [cells' Ea].
    destruct (IH Hnd (assigned c cells' f)) as (f' & E & Ei & Eo & Es).
    { apply ready_assigned; [|exact Hn'].
      eapply ready_weaken; [|exact Hr]. intros x Hx. right. exact Hx. }
    exists f'. simpl.
    rewrite (bind_silent _ _ _ _ _ (assign_apply_work w0 s f c c cast _ _ Ec Ea El)).
    split; [exact E|]. split; [exact Ei|]. split.
    + intros c' Hc'. rewrite Eo by tauto. unfold assigned. simpl.
      rewrite get_column_put. destruct (String.eqb_spec c' c) as [->|_]; [|reflexivity].
      exfalso. apply Hc'. left. reflexivity.
    + intros c' [<-|Hc'].
      * exists cells, cells'. split; [exact Ec|]. split; [exact Ea|].
        rewrite Eo by exact Hn'. unfold assigned. simpl.
        rewrite get_column_put, String.eqb_refl. reflexivity.
      * destruct (Es c' Hc') as (cs & cs' & E1 & E2 & E3).
        exists cs, cs'. split; [|auto]. rewrite <- E1. unfold assigned. simpl.
        rewrite get_column_put. destruct (String.eqb_spec c' c) as [->|_]; [|reflexivity].
        contradiction.
Qed.

Lemma bind_ret_unit (m : M V unit) (w : world V) : bind m (fun _ => ret tt) w = m w.
Proof.
  unfold bind, ret. destruct (m w) as [[[[]|e] w1] t1]; [|reflexivity].
  rewrite app_nil_r. reflexivity.
Qed.

Variable I : V -> Prop.
Hypothesis coop : answering usable_query I.

(** The queries for one row, with answers that are usable. *)
Lemma queries_work (node : bool) (w0 : world V) value cols pairs :
  queried node value ->
  (forall column keyword,
     In (column, keyword) pairs -> In column cols -> keyword <> "SectionId") ->
  forall s f,
    I s -> In (Index value) (index f) -> ready cols f ->
    exists s' f' t,
      for_each pairs (fun p =>
        if node
        then query_node_into (length (frames w0)) value (fst p) (snd p)
        else query_device_into (length (frames w0)) value (fst p) (snd p))
        (work w0 s f)
      = (Ret tt, work w0 s' f', t) /\
      I s' /\ ready cols f' /\ index f' = index f.
Proof.
  intros Hq. induction pairs as [|[column keyword] pairs IH]; intros Hp s f HI Hl Hr.
  - exists s, f, []. simpl. auto.
  - assert (Hstep : exists x s1 c,
              (if node
               then query_node_into (length (frames w0)) value column keyword
               else query_device_into (length (frames w0)) value column keyword)
                (work w0 s f)
              = (Ret tt, work w0 s1 (loc_set (Index value) column x f), [(c, Ret x)]) /\
              I s1 /\ (keyword <> "SectionId" -> castable x)).
    { unfold queried in Hq. destruct node.
      - destruct Hq as (nid & E1).
        destruct (coop s (QueryInfoNode keyword nid) HI) as [Hu HI1].
        destruct (respond s (QueryInfoNode keyword nid)) as [r s1] eqn:Er.
        simpl in Hu, HI1. destruct Hu as (x & -> & Hx).
        exists x, s1, (QueryInfoNode keyword nid).
        split; [apply query_node_into_work; assumption|auto].
      - destruct Hq as (dn & dt & ty & E1 & E2 & E3).
        destruct (coop s (QueryInfoDevice keyword dn ty) HI) as [Hu HI1].
        destruct (respond s (QueryInfoDevice keyword dn ty)) as [r s1] eqn:Er.
        simpl in Hu, HI1. destruct Hu as (x & -> & Hx).
        exists x, s1, (QueryInfoDevice keyword dn ty).
        split; [eapply query_device_into_work; eassumption|auto]. }
    destruct Hstep as (x & s1 & c & E & HI1 & Hx).
    destruct (ready_loc_set cols f (Index value) column x Hl Hr) as [Hr1 Ei1].
    { intros Hc. apply Hx. apply (Hp column keyword); [left; reflexivity|exact Hc]. }
    destruct (IH (fun c0 k0 H0 => Hp c0 k0 (or_intror H0)) s1 _ HI1
                ltac:(rewrite Ei1; exact Hl) Hr1) as (s' & f' & t & E' & HI' & Hr' & Ei').
    exists s', f', ([(c, Ret x)] ++ t). split.
    + cbn [for_each fst snd]. exact (bind_step _ _ _ _ _ _ _ _ _ E E').
    + split; [exact HI'|]. split; [exact Hr'|]. congruence.
Qed.

(** The query loop, with answers that are usable. *)
Lemma rows_work (node : bool) (w0 : world V) cols pairs (body : row -> M V unit) rows idx :
  (forall value w, body value w
     = for_each pairs (fun p =>
         if node
         then query_node_into (length (frames w0)) value (fst p) (snd p)
         else query_device_into (length (frames w0)) value (fst p) (snd p)) w) ->
  (forall column keyword,
     In (column, keyword) pairs -> In column cols -> keyword <> "SectionId") ->
  Forall (queried node) rows ->
  Forall (fun value => In (Index value) idx) rows ->
  forall s f,
    I s -> index f = idx -> ready cols f ->
    exists s' f' t,
      for_each rows body (work w0 s f) = (Ret tt, work w0 s' f', t) /\
      I s' /\ ready cols f' /\ index f' = idx.
Proof.
  intros Hb Hp Hq Hl. induction Hq as [|value rows Hv Hq IH]; intros s f HI Hi Hr.
  - exists s, f, []. simpl. auto.
  - apply Forall_cons in Hl as [Hl0 Hl].
    destruct (queries_work node w0 value cols pairs Hv Hp s f HI
                ltac:(rewrite Hi; exact Hl0) Hr) as (s1 & f1 & t1 & E1 & HI1 & Hr1 & Ei1).
    destruct (IH Hl s1 f1 HI1 ltac:(congruence) Hr1)
      as (s' & f' & t & E' & HI' & Hr' & Ei').
    exists s', f', (t1 ++ t). split; [|auto].
    cbn [for_each]. eapply bind_step; [rewrite Hb; exact E1|exact E'].
Qed.

End Totals.

Section LoopAndCasts.
Context {V : Type} {cympy : Cympy V} {py : PyRuntime}.
Variable I : V -> Prop.
Hypothesis coop : answering usable_query I.

Lemma itertuples_labels f : Forall (fun value => In (Index value) (index f)) (itertuples f).
Proof. apply List.Forall_forall. intros value. apply itertuples_label. Qed.

(** The query loop over the input frame, then the casts. *)
Lemma loop_and_casts (node : bool) (w0 : world V) r f0 pairs cols cast
    (body : row -> M V unit) s f :
  frames w0 !! r = Some f0 ->
  (forall value w, body value w
     = for_each pairs (fun p =>
         if node
         then query_node_into (length (frames w0)) value (fst p) (snd p)
         else query_device_into (length (frames w0)) value (fst p) (snd p)) w) ->
  (forall column keyword,
     In (column, keyword) pairs -> In column cols -> keyword <> "SectionId") ->
  (forall x, castable x -> exists y, cast x = Ret y) ->
  NoDup cols ->
  Forall (queried node) (itertuples f0) ->
  I s -> index f = index f0 -> ready cols f ->
  exists s' f' t,
    bind (for_itertuples r body) (fun _ =>
      bind (for_each cols (fun column =>
              assign_apply (length (frames w0)) column column cast)) (fun _ =>
        ret (length (frames w0)))) (work w0 s f)
    = (Ret (length (frames w0)), work w0 s' f', t) /\ I s'.
Proof.
  intros Ef Hb Hp Hc Hnd Hq HI Hi Hr.
  destruct (rows_work I coop node w0 cols pairs body (itertuples f0) (index f0)
              Hb Hp Hq (itertuples_labels f0) s f HI Hi Hr)
    as (s' & f1 & t & E & HI' & Hr' & Ei').
  destruct (casts_work w0 s' cast cols f1 Hc Hnd Hr') as (f' & Ec & _).
  exists s', f', t. split; [|exact HI'].
  rewrite <- (app_nil_r t). eapply bind_step.
  - unfold for_itertuples. rewrite (bind_silent _ _ _ _ _ (frame_read_input r w0 s f f0 Ef)).
    exact E.
  - rewrite (bind_silent _ _ _ _ _ Ec). reflexivity.
Qed.

End LoopAndCasts.

Ltac chain_is_loop :=
  intros ? ?; cbn [for_each fst snd];
  repeat (apply bind_cong; [reflexivity|intros ? ?]);
  symmetry; apply bind_ret_unit.

Ltac no_section :=
  let H := fresh in
  intros ? ? H ?; simpl in H;
  repeat (destruct H as [[= <- <-]|H]; [discriminate|]); destruct H.

Ltac ready_columns :=
  eapply ready_weaken; [|repeat apply ready_reset; apply ready_nil];
  intros ? ?; simpl in *; tauto.

Ltac nodup_names :=
  repeat (apply NoDup_cons_2;
          [let Hin := fresh in
           intros Hin; apply list_elem_of_In in Hin; simpl in Hin;
           intuition discriminate|]);
  apply NoDup_nil_2.

Section ExtractionReturns.
Context {V : Type} {cympy : Cympy V} {py : PyRuntime}.
Variable I : V -> Prop.
Hypothesis coop : answering usable_query I.

(** X10. When the extraction functions return.  With a vendor whose
    queries are answered and whose answers are numbers, strings that
    [float] accepts or the empty string, an extraction function returns a
    new frame, the last of the world, when every row of its input has what
    the queries read: a device number and a device type that [int] accepts
    or, for [get_voltage] of nodes, a node identifier. *)
Theorem X10_extraction_returns r f0 (w : world V) :
  I (session w) -> frames w !! r = Some f0 ->
  (Forall (queried false) (itertuples f0) ->
     (exists s' f' t,
        get_voltage r false w = (Ret (length (frames w)), work w s' f', t) /\ I s') /\
     (exists s' f' t,
        get_overload r w = (Ret (length (frames w)), work w s' f', t) /\ I s') /\
     (exists s' f' t,
        get_load r w = (Ret (length (frames w)), work w s' f', t) /\ I s') /\
     (exists s' f' t,
        get_distance r w = (Ret (length (frames w)), work w s' f', t) /\ I s') /\
     (exists s' f' t,
        get_coordinates r w = (Ret (length (frames w)), work w s' f', t) /\ I s')) /\
  (Forall (queried true) (itertuples f0) ->
     exists s' f' t,
       get_voltage r true w = (Ret (length (frames w)), work w s' f', t) /\ I s').
Proof.
  intros HI Ef. split; [intros Hq; repeat split|intros Hq].
  - unfold get_voltage.
    rewrite (bind_silent _ _ _ _ _ (frame_copy_work r w f0 Ef)).
    rewrite !(bind_silent _ _ _ _ _ (reset_column_work _ _ _ _)).
    apply (loop_and_casts I coop false w r f0
             [("voltage_A", "VpuA"); ("voltage_B", "VpuB"); ("voltage_C", "VpuC")]);
      try assumption; try reflexivity.
    + chain_is_loop.
    + no_section.
    + intros x Hx. exact Hx.
    + nodup_names.
    + ready_columns.
  - unfold get_overload.
    rewrite (bind_silent _ _ _ _ _ (frame_copy_work r w f0 Ef)).
    rewrite !(bind_silent _ _ _ _ _ (reset_column_work _ _ _ _)).
    apply (loop_and_casts I coop false w r f0
             [("overload_A", "OverloadAmpsA"); ("overload_B", "OverloadAmpsB");
              ("overload_C", "OverloadAmpsC")]);
      try assumption; try reflexivity.
    + chain_is_loop.
    + no_section.
    + intros x Hx. exact Hx.
    + nodup_names.
    + ready_columns.
  - unfold get_load.
    rewrite (bind_silent _ _ _ _ _ (frame_copy_work r w f0 Ef)).
    rewrite !(bind_silent _ _ _ _ _ (reset_column_work _ _ _ _)).
    apply (loop_and_casts I coop false w r f0
             [("MWA", "MWA"); ("MWB", "MWB"); ("MWC", "MWC"); ("MWTOT", "MWTOT");
              ("MVARA", "MVARA"); ("MVARB", "MVARB"); ("MVARC", "MVARC");
              ("MVARTOT", "MVARTOT")]);
      try assumption; try reflexivity.
    + chain_is_loop.
    + no_section.
    + intros x Hx. exact Hx.
    + nodup_names.
    + ready_columns.
  - unfold get_distance.
    rewrite (bind_silent _ _ _ _ _ (frame_copy_work r w f0 Ef)).
    rewrite !(bind_silent _ _ _ _ _ (reset_column_work _ _ _ _)).
    apply (loop_and_casts I coop false w r f0 [("distance", "Distance")]);
      try assumption; try reflexivity.
    + intros ? ?. cbn [for_each fst snd]. symmetry. apply bind_ret_unit.
    + no_section.
    + intros x Hx. exact Hx.
    + nodup_names.
    + ready_columns.
  - unfold get_coordinates.
    rewrite (bind_silent _ _ _ _ _ (frame_copy_work r w f0 Ef)).
    rewrite !(bind_silent _ _ _ _ _ (reset_column_work _ _ _ _)).
    match goal with
    | |- context [work w (session w) ?fr] =>
        destruct (rows_work I coop false w ["latitude"; "longitude"]
                    [("latitude", "CoordY"); ("longitude", "CoordX");
                     ("section_id", "SectionId")]
                    (fun device =>
                       bind (query_device_into (length (frames w)) device
                               "latitude" "CoordY") (fun _ =>
                         bind (query_device_into (length (frames w)) device
                                 "longitude" "CoordX") (fun _ =>
                           query_device_into (length (frames w)) device
                             "section_id" "SectionId")))
                    (itertuples f0) (index f0))
          with (s := session w) (f := fr)
          as (s' & f1 & t & E & HI' & Hr' & Ei')
    end.
    + chain_is_loop.
    + intros column keyword H Hc. simpl in H, Hc.
      destruct H as [[= <- <-]|[[= <- <-]|[[= <- <-]|[]]]]; try discriminate.
      destruct Hc as [Hc|[Hc|[]]]; discriminate Hc.
    + exact Hq.
    + apply itertuples_labels.
    + exact HI.
    + reflexivity.
    + ready_columns.
    + destruct (casts_work w s' (cast_scaled (1.26 * 100000)) ["latitude"] f1)
        as (f2 & E2 & Ei2 & Eo2 & _).
      { apply castable_scaled. }
      { nodup_names. }
      { eapply ready_weaken; [|exact Hr']. intros ? ?; simpl in *; tauto. }
      destruct (casts_work w s' (cast_scaled 100000) ["longitude"] f2)
        as (f3 & E3 & _).
      { apply castable_scaled. }
      { nodup_names. }
      { intros c [<-|[]]. destruct (Hr' "longitude" ltac:(simpl; auto))
          as (cells & Ec & El & HF).
        exists cells. rewrite Eo2, Ei2 by (simpl; intuition discriminate). auto. }
      exists s', f3, t. split; [|exact HI'].
      rewrite <- (app_nil_r t). eapply bind_step.
      * unfold for_itertuples.
        rewrite (bind_silent _ _ _ _ _ (frame_read_input r w _ _ f0 Ef)). exact E.
      * rewrite (bind_silent _ _ _ _ _ E2), (bind_silent _ _ _ _ _ E3). reflexivity.
  - unfold get_voltage.
    rewrite (bind_silent _ _ _ _ _ (frame_copy_work r w f0 Ef)).
    rewrite !(bind_silent _ _ _ _ _ (reset_column_work _ _ _ _)).
    apply (loop_and_casts I coop true w r f0
             [("voltage_A", "VpuA"); ("voltage_B", "VpuB"); ("voltage_C", "VpuC")]);
      try assumption; try reflexivity.
    + chain_is_loop.
    + no_section.
    + intros x Hx. exact Hx.
    + nodup_names.
    + ready_columns.
Qed.

End ExtractionReturns.

Lemma metered_usable :
  answering (cympy := Demo.stateless metered) (usable_query (py := Demo.runtime))
    (fun _ => True).
Proof.
  intros v c _. split; [|exact Logic.I].
  change (usable_query (py := Demo.runtime) c (metered c)).
  destruct c; try exact Logic.I;
    (exists (PyStr "7"); split; [reflexivity|]; intros _;
     exists (PyNum 7); reflexivity).
Qed.

Lemma devices_queried : Forall (queried (py := Demo.runtime) false) (itertuples Demo.devices).
Proof.
  apply List.Forall_cons; [|apply List.Forall_cons; [|apply List.Forall_nil]].
  - exists (PyStr "L1"), (PyNum 10), 10%Z. repeat split; reflexivity.
  - exists (PyStr "L2"), (PyNum 10), 10%Z. repeat split; reflexivity.
Qed.

Lemma X10_extraction_returns_witness :
  Forall (queried (py := Demo.runtime) false) (itertuples Demo.devices) /\
  (exists s' f' t,
     @get_distance unit (Demo.stateless metered) Demo.runtime 0 Demo.world1
     = (Ret 1, work Demo.world1 s' f', t)) /\
  (exists s' f' t,
     @get_coordinates unit (Demo.stateless metered) Demo.runtime 0 Demo.world1
     = (Ret 1, work Demo.world1 s' f', t)).
Proof.
  split; [exact devices_queried|].
  destruct (X10_extraction_returns (cympy := Demo.stateless metered)
              (py := Demo.runtime) (fun _ => True) metered_usable
              0 Demo.devices Demo.world1 Logic.I eq_refl) as [Hd _].
  destruct (Hd devices_queried)
    as (_ & _ & _ & (s1 & f1 & t1 & E1 & _) & (s2 & f2 & t2 & E2 & _)).
  split; [exists s1, f1, t1; exact E1|exists s2, f2, t2; exact E2].
Defined.

(** ** Frames without rows, rows without attributes *)

Section Edges.
Context {V : Type} {cympy : Cympy V} {py : PyRuntime}.

Lemma row_attr_missing f i label name :
  get_column name (columns f) = None ->
  row_attr (row_at f i label) name = Raise (AttributeError name).
Proof.
  unfold row_attr, row_at. simpl. intros H.
  induction (columns f) as [|[k vals] cols IH]; simpl in *; [reflexivity|].
  destruct (String.eqb k name); [discriminate|]. apply IH, H.
Qed.

Lemma itertuples_empty f : index f = [] -> itertuples f = [].
Proof. unfold itertuples, enumerate. intros ->. reflexivity. Qed.

Lemma itertuples_first f label idx :
  index f = label :: idx -> exists rows, itertuples f = row_at f 0 label :: rows.
Proof. unfold itertuples, enumerate. intros ->. simpl. eauto. Qed.

Lemma query_device_into_attr copy value column keyword (w : world V) e :
  row_attr value "device_number" = Raise e ->
  query_device_into copy value column keyword w = (Raise e, w, []).
Proof. intros E. unfold query_device_into, bind, lift. rewrite E. reflexivity. Qed.

Lemma query_node_into_attr copy value column keyword (w : world V) e :
  row_attr value "node_id" = Raise e ->
  query_node_into copy value column keyword w = (Raise e, w, []).
Proof. intros E. unfold query_node_into, bind, lift. rewrite E. reflexivity. Qed.

(** A loop whose first row raises without a call. *)
Lemma loop_raises {B} (w0 : world V) r f0 (body : row -> M V unit) e s f
    (k : unit -> M V B) :
  frames w0 !! r = Some f0 ->
  (exists value rows, itertuples f0 = value :: rows /\
     forall w, body value w = (Raise e, w, [])) ->
  bind (for_itertuples r body) k (work w0 s f) = (Raise e, work w0 s f, []).
Proof.
  intros Ef (value & rows & Er & Hb). apply bind_raise. unfold for_itertuples.
  rewrite (bind_silent _ _ _ _ _ (frame_read_input r w0 s f f0 Ef)).
  rewrite Er. simpl. apply bind_raise. apply Hb.
Qed.

Lemma ready_no_rows cols f c :
  ready cols f -> index f = [] -> In c cols -> get_column c (columns f) = Some [].
Proof.
  intros Hr Hi Hin. destruct (Hr c Hin) as (cells & E & El & _).
  rewrite Hi in El. destruct cells; [exact E|discriminate El].
Qed.

Lemma no_rows_loop (w0 : world V) r f0 (body : row -> M V unit) s f :
  frames w0 !! r = Some f0 -> index f0 = [] ->
  for_itertuples r body (work w0 s f) = (Ret tt, work w0 s f, []).
Proof.
  intros Ef E0. unfold for_itertuples.
  rewrite (bind_silent _ _ _ _ _ (frame_read_input r w0 s f f0 Ef)).
  rewrite (itertuples_empty f0 E0). reflexivity.
Qed.

(** A loop over no row, then the casts. *)
Lemma no_rows_and_casts (w0 : world V) r f0 cols cast (body : row -> M V unit) s f :
  frames w0 !! r = Some f0 -> index f0 = [] ->
  (forall x, castable x -> exists y, cast x = Ret y) ->
  NoDup cols -> index f = [] -> ready cols f ->
  exists f',
    bind (for_itertuples r body) (fun _ =>
      bind (for_each cols (fun column =>
              assign_apply (length (frames w0)) column column cast)) (fun _ =>
        ret (length (frames w0)))) (work w0 s f)
    = (Ret (length (frames w0)), work w0 s f', []) /\
    index f' = [] /\
    forall c, In c cols -> get_column c (columns f') = Some [].
Proof.
  intros Ef E0 Hc Hnd Hi Hr.
  destruct (casts_work w0 s cast cols f Hc Hnd Hr) as (f' & Ec & Ei & _ & Es).
  exists f'. split; [|split; [congruence|]].
  - rewrite (bind_silent _ _ _ _ _ (no_rows_loop w0 r f0 body s f Ef E0)).
    rewrite (bind_silent _ _ _ _ _ Ec). reflexivity.
  - intros c Hin. destruct (Es c Hin) as (cells & cells' & E1 & E2 & E3).
    destruct (Hr c Hin) as (cells0 & E4 & El & _).
    rewrite E1 in E4. injection E4 as <-. rewrite Hi in El.
    destruct cells; [|discriminate El]. simpl in E2. injection E2 as <-. exact E3.
Qed.

End Edges.

Section EdgeCases.
Context {V : Type} {cympy : Cympy V} {py : PyRuntime}.

(** X11. A frame without rows.  On an input frame that has no row, an
    extraction function issues no vendor call and returns a new frame
    without rows in which its result columns are empty, whatever the
    columns of the input and whatever the vendor would answer. *)
Theorem X11_extraction_of_no_rows r f0 (w : world V) b :
  frames w !! r = Some f0 -> index f0 = [] ->
  (exists f',
     get_voltage r b w = (Ret (length (frames w)), work w (session w) f', []) /\
     index f' = [] /\
     forall c, In c ["voltage_A"; "voltage_B"; "voltage_C"] ->
       get_column c (columns f') = Some []) /\
  (exists f',
     get_overload r w = (Ret (length (frames w)), work w (session w) f', []) /\
     index f' = [] /\
     forall c, In c ["overload_A"; "overload_B"; "overload_C"] ->
       get_column c (columns f') = Some []) /\
  (exists f',
     get_load r w = (Ret (length (frames w)), work w (session w) f', []) /\
     index f' = [] /\
     forall c, In c ["MWA"; "MWB"; "MWC"; "MWTOT"; "MVARA"; "MVARB"; "MVARC"; "MVARTOT"] ->
       get_column c (columns f') = Some []) /\
  (exists f',
     get_distance r w = (Ret (length (frames w)), work w (session w) f', []) /\
     index f' = [] /\
     forall c, In c ["distance"] -> get_column c (columns f') = Some []) /\
  (exists f',
     get_coordinates r w = (Ret (length (frames w)), work w (session w) f', []) /\
     index f' = [] /\
     forall c, In c ["latitude"; "longitude"; "section_id"] ->
       get_column c (columns f') = Some []).
Proof.
  intros Ef E0. split; [|split; [|split; [|split]]].
  - unfold get_voltage.
    rewrite (bind_silent _ _ _ _ _ (frame_copy_work r w f0 Ef)).
    rewrite !(bind_silent _ _ _ _ _ (reset_column_work _ _ _ _)).
    apply (no_rows_and_casts w r f0); try assumption.
    + intros x Hx. exact Hx.
    + nodup_names.
    + ready_columns.
  - unfold get_overload.
    rewrite (bind_silent _ _ _ _ _ (frame_copy_work r w f0 Ef)).
    rewrite !(bind_silent _ _ _ _ _ (reset_column_work _ _ _ _)).
    apply (no_rows_and_casts w r f0); try assumption.
    + intros x Hx. exact Hx.
    + nodup_names.
    + ready_columns.
  - unfold get_load.
    rewrite (bind_silent _ _ _ _ _ (frame_copy_work r w f0 Ef)).
    rewrite !(bind_silent _ _ _ _ _ (reset_column_work _ _ _ _)).
    apply (no_rows_and_casts w r f0); try assumption.
    + intros x Hx. exact Hx.
    + nodup_names.
    + ready_columns.
  - unfold get_distance.
    rewrite (bind_silent _ _ _ _ _ (frame_copy_work r w f0 Ef)).
    rewrite !(bind_silent _ _ _ _ _ (reset_column_work _ _ _ _)).
    apply (no_rows_and_casts w r f0); try assumption.
    + intros x Hx. exact Hx.
    + nodup_names.
    + ready_columns.
  - unfold get_coordinates.
    rewrite (bind_silent _ _ _ _ _ (frame_copy_work r w f0 Ef)).
    rewrite !(bind_silent _ _ _ _ _ (reset_column_work _ _ _ _)).
    match goal with
    | |- context [work w (session w) ?fr] =>
        assert (Hr : ready ["section_id"; "longitude"; "latitude"] fr)
          by (repeat apply ready_reset; apply ready_nil);
        assert (Hi : index fr = []) by exact E0;
        generalize dependent fr; intros f1 Hr Hi
    end.
    rewrite (bind_silent _ _ _ _ _ (no_rows_loop w r f0 _ _ f1 Ef E0)).
    destruct (casts_work w (session w) (cast_scaled (1.26 * 100000)) ["latitude"] f1)
      as (f2 & E2 & Ei2 & Eo2 & Es2).
    { apply castable_scaled. }
    { nodup_names. }
    { eapply ready_weaken; [|exact Hr]. intros ? ?; simpl in *; tauto. }
    destruct (casts_work w (session w) (cast_scaled 100000) ["longitude"] f2)
      as (f3 & E3 & Ei3 & Eo3 & Es3).
    { apply castable_scaled. }
    { nodup_names. }
    { intros c [<-|[]]. destruct (Hr "longitude" ltac:(simpl; auto))
        as (cells & Ec & El & HF).
      exists cells. rewrite Eo2, Ei2 by (simpl; intuition discriminate). auto. }
    exists f3. split; [|split; [congruence|]].
    + rewrite (bind_silent _ _ _ _ _ E2), (bind_silent _ _ _ _ _ E3). reflexivity.
    + assert (H1 : get_column "latitude" (columns f1) = Some [])
        by (apply (ready_no_rows _ _ _ Hr Hi); simpl; auto).
      assert (H2 : get_column "longitude" (columns f1) = Some [])
        by (apply (ready_no_rows _ _ _ Hr Hi); simpl; auto).
      assert (H3 : get_column "section_id" (columns f1) = Some [])
        by (apply (ready_no_rows _ _ _ Hr Hi); simpl; auto).
      intros c [<-|[<-|[<-|[]]]].
      * rewrite Eo3 by (simpl; intuition discriminate).
        destruct (Es2 "latitude" ltac:(simpl; auto)) as (cells & cells' & Ea & Eb & Ec).
        rewrite H1 in Ea. injection Ea as <-. simpl in Eb. injection Eb as <-. exact Ec.
      * destruct (Es3 "longitude" ltac:(simpl; auto)) as (cells & cells' & Ea & Eb & Ec).
        rewrite Eo2, H2 in Ea by (simpl; intuition discriminate).
        injection Ea as <-. simpl in Eb. injection Eb as <-. exact Ec.
      * rewrite Eo3, Eo2 by (simpl; intuition discriminate). exact H3.
Qed.

(** X12. Rows without the attribute that the queries read.  On an input
    frame that has a row but no column [device_number], the extraction
    functions that query devices raise [AttributeError] at the first row,
    before any vendor call; so does [get_voltage] of nodes on a frame
    without a column [node_id].  The copy has been made then: the world
    has one frame more, and the frames it had are as they were. *)
Theorem X12_extraction_needs_the_attribute r f0 (w : world V) :
  frames w !! r = Some f0 -> index f0 <> [] ->
  (get_column "device_number" (columns f0) = None ->
     let e := AttributeError "device_number" in
     (exists f', get_voltage r false w = (Raise e, work w (session w) f', [])) /\
     (exists f', get_overload r w = (Raise e, work w (session w) f', [])) /\
     (exists f', get_load r w = (Raise e, work w (session w) f', [])) /\
     (exists f', get_distance r w = (Raise e, work w (session w) f', [])) /\
     (exists f', get_coordinates r w = (Raise e, work w (session w) f', []))) /\
  (get_column "node_id" (columns f0) = None ->
     exists f',
       get_voltage r true w
       = (Raise (AttributeError "node_id"), work w (session w) f', [])).
Proof.
  intros Ef Hne. destruct (index f0) as [|label idx] eqn:Ei; [contradiction|].
  destruct (itertuples_first f0 label idx Ei) as (rows & Er).
  split.
  - intros Hc e.
    pose proof (row_attr_missing f0 0 label "device_number" Hc) as Ha.
    repeat split; eexists.
    + unfold get_voltage.
      rewrite (bind_silent _ _ _ _ _ (frame_copy_work r w f0 Ef)).
      rewrite !(bind_silent _ _ _ _ _ (reset_column_work _ _ _ _)).
      apply (loop_raises w r f0); [exact Ef|].
      eexists _, _. split; [exact Er|]. intros w1. simpl.
      apply bind_raise, query_device_into_attr, Ha.
    + unfold get_overload.
      rewrite (bind_silent _ _ _ _ _ (frame_copy_work r w f0 Ef)).
      rewrite !(bind_silent _ _ _ _ _ (reset_column_work _ _ _ _)).
      apply (loop_raises w r f0); [exact Ef|].
      eexists _, _. split; [exact Er|]. intros w1.
      apply bind_raise, query_device_into_attr, Ha.
    + unfold get_load.
      rewrite (bind_silent _ _ _ _ _ (frame_copy_work r w f0 Ef)).
      rewrite !(bind_silent _ _ _ _ _ (reset_column_work _ _ _ _)).
      apply (loop_raises w r f0); [exact Ef|].
      eexists _, _. split; [exact Er|]. intros w1.
      apply bind_raise, query_device_into_attr, Ha.
    + unfold get_distance.
      rewrite (bind_silent _ _ _ _ _ (frame_copy_work r w f0 Ef)).
      rewrite !(bind_silent _ _ _ _ _ (reset_column_work _ _ _ _)).
      apply (loop_raises w r f0); [exact Ef|].
      eexists _, _. split; [exact Er|]. intros w1.
      apply query_device_into_attr, Ha.
    + unfold get_coordinates.
      rewrite (bind_silent _ _ _ _ _ (frame_copy_work r w f0 Ef)).
      rewrite !(bind_silent _ _ _ _ _ (reset_column_work _ _ _ _)).
      apply (loop_raises w r f0); [exact Ef|].
      eexists _, _. split; [exact Er|]. intros w1.
      apply bind_raise, query_device_into_attr, Ha.
  - intros Hc.
    pose proof (row_attr_missing f0 0 label "node_id" Hc) as Ha.
    eexists. unfold get_voltage.
    rewrite (bind_silent _ _ _ _ _ (frame_copy_work r w f0 Ef)).
    rewrite !(bind_silent _ _ _ _ _ (reset_column_work _ _ _ _)).
    apply (loop_raises w r f0); [exact Ef|].
    eexists _, _. split; [exact Er|]. intros w1. simpl.
    apply bind_raise, query_node_into_attr, Ha.
Qed.

End EdgeCases.

Lemma X11_extraction_of_no_rows_witness :
  (exists f',
     @get_voltage unit (Demo.stateless Demo.failing) Demo.runtime 0 false empty_world
     = (Ret 1, work empty_world tt f', []) /\
     index f' = [] /\
     forall c, In c ["voltage_A"; "voltage_B"; "voltage_C"] ->
       get_column c (columns f') = Some []).
Proof.
  exact (proj1 (X11_extraction_of_no_rows (cympy := Demo.stateless Demo.failing)
                  (py := Demo.runtime) 0 no_devices empty_world false
                  eq_refl eq_refl)).
Defined.

Lemma X12_extraction_needs_the_attribute_witness :
  (exists f',
     @get_distance unit (Demo.stateless Demo.feeder) Demo.runtime 0
       Demo.nodes_example_world
     = (Raise (AttributeError "device_number"),
        work Demo.nodes_example_world tt f', [])) /\
  (exists f',
     @get_voltage unit (Demo.stateless Demo.feeder) Demo.runtime 0 true Demo.world1
     = (Raise (AttributeError "node_id"), work Demo.world1 tt f', [])).
Proof.
  split.
  - destruct (frames Demo.nodes_example_world !! 0) as [f0|] eqn:Ef;
      [|discriminate Ef].
    refine (proj1 (proj2 (proj2 (proj2
              (proj1 (X12_extraction_needs_the_attribute
                        (cympy := Demo.stateless Demo.feeder) (py := Demo.runtime)
                        0 f0 Demo.nodes_example_world Ef _) _))))).
    + injection Ef as <-. discriminate.
    + injection Ef as <-. reflexivity.
  - exact (proj2 (X12_extraction_needs_the_attribute
                    (cympy := Demo.stateless Demo.feeder) (py := Demo.runtime)
                    0 Demo.devices Demo.world1 eq_refl ltac:(discriminate))
             eq_refl).
Defined.

(** ** The frames of the world *)

Section Grown.
Context {V : Type} {cympy : Cympy V} {py : PyRuntime}.

Lemma grown_sessionless fs : sessionless (V:=V) (grown fs).
Proof. intros w v [f E]. exists f. exact E. Qed.

Lemma grown_frame_write fs f' : inv (V:=V) (grown fs) (frame_write (length fs) f').
Proof.
  intros w [f E]. unfold frame_write, with_frames. simpl. exists f'.
  rewrite E. apply insert_last.
Qed.

Lemma grown_reset_column fs name : inv (V:=V) (grown fs) (reset_column (length fs) name).
Proof.
  unfold reset_column.
  repeat first [apply grown_frame_write | inv_step].
Qed.

Lemma grown_assign_apply fs target source cast :
  inv (V:=V) (grown fs) (assign_apply (length fs) target source cast).
Proof.
  unfold assign_apply.
  repeat first [apply grown_frame_write | inv_step].
Qed.

Lemma grown_query_device_into fs value column keyword :
  inv (V:=V) (grown fs) (query_device_into (length fs) value column keyword).
Proof.
  pose proof (grown_sessionless fs) as Hs. unfold query_device_into.
  repeat first [apply grown_frame_write | inv_step].
Qed.

Lemma grown_query_node_into fs value column keyword :
  inv (V:=V) (grown fs) (query_node_into (length fs) value column keyword).
Proof.
  pose proof (grown_sessionless fs) as Hs. unfold query_node_into.
  repeat first [apply grown_frame_write | inv_step].
Qed.

Lemma grown_for_itertuples fs r (body : row -> M V unit) :
  (forall value, inv (grown fs) (body value)) ->
  inv (V:=V) (grown fs) (for_itertuples r body).
Proof.
  intros H. unfold for_itertuples. apply inv_bind; [apply inv_frame_read|].
  intros f. apply inv_for_each. intros value _. apply H.
Qed.

Lemma hoare_after {A B} (I : world V -> Prop) (m : M V A) (k : A -> M V B) Q :
  inv I m -> (forall a, hoare I (k a) Q I) -> hoare I (bind m k) Q I.
Proof. intros Hm Hk. eapply hoare_bind; [exact Hm|exact Hk]. Qed.

Lemma extraction_allocates r f0 (w : world V) (k : nat -> M V nat) :
  frames w !! r = Some f0 ->
  hoare (grown (frames w)) (k (length (frames w)))
    (fun copy w' => copy = length (frames w) /\ grown (frames w) w')
    (grown (frames w)) ->
  adds_a_frame w (bind (frame_copy r) k w).
Proof.
  intros Ef H. rewrite (bind_silent _ _ _ _ _ (frame_copy_work r w f0 Ef)).
  specialize (H (work w (session w) f0) (ex_intro _ f0 eq_refl)).
  unfold adds_a_frame, world_after.
  destruct (k (length (frames w)) (work w (session w) f0)) as [[[a|e] w'] t]; simpl.
  - destruct H as [-> Hg]. split; [exact Hg|]. intros copy [= <-]. reflexivity.
  - split; [exact H|]. intros copy [=].
Qed.

(** A column that a later extraction does not name is carried over. *)
Lemma filled_carried cast r copy column keyword t f1 cols (w1 w2 : world V) :
  filled cast r column keyword t w1 -> frames w1 !! r = Some f1 ->
  copy_inv r copy f1 cols cols w2 -> ~ In column cols ->
  filled cast copy column keyword t w2.
Proof.
  intros (f & cells & Ef & L & Ec & Ea) E1 (_ & _ & f2 & E2 & Ei & Eo & _) Hn.
  rewrite Ef in E1. injection E1 as ->.
  exists f2, cells. rewrite Ei, (Eo column Hn). auto.
Qed.

End Grown.

Ltac grown_step :=
  first
    [ apply grown_reset_column | apply grown_assign_apply
    | apply grown_query_device_into | apply grown_query_node_into
    | apply grown_for_itertuples; intros
    | apply inv_for_each; intros
    | apply inv_bind; [|intros]
    | match goal with |- inv _ (if ?b then _ else _) => destruct b end ].

Ltac allocates_one Ef :=
  eapply extraction_allocates; [exact Ef|];
  repeat (apply hoare_after; [solve [repeat grown_step]|intros _]);
  apply hoare_ret; auto.

Section Frames.
Context {V : Type} {cympy : Cympy V} {py : PyRuntime}.

(** X13. One new frame, and no other change to the frames.  A run of an
    extraction function on a frame of the world leaves every frame the
    world had as it was, and adds one frame, whether the run returns or
    raises (the copy is made first); a returned reference is this new
    frame. *)
Theorem X13_extraction_allocates_one_frame r f0 (w : world V) b :
  frames w !! r = Some f0 ->
  adds_a_frame w (get_voltage r b w) /\
  adds_a_frame w (get_overload r w) /\
  adds_a_frame w (get_load r w) /\
  adds_a_frame w (get_distance r w) /\
  adds_a_frame w (get_coordinates r w).
Proof.
  intros Ef. split; [|split; [|split; [|split]]].
  - unfold get_voltage. allocates_one Ef.
  - unfold get_overload. allocates_one Ef.
  - unfold get_load. allocates_one Ef.
  - unfold get_distance. allocates_one Ef.
  - unfold get_coordinates. allocates_one Ef.
Qed.

(** X14. Extractions compose.  When [get_overload] is applied to the
    frame that [get_voltage] has returned, the frame it returns has the
    voltage columns filled from the answers of the first run and the
    overload columns filled from the answers of the second; the frame of
    the voltages and the frames before it are as they were. *)
Theorem X14_overload_after_voltage r (w : world V) voltage w1 t1 overload w2 t2 :
  get_voltage r false w = (Ret voltage, w1, t1) ->
  get_overload voltage w1 = (Ret overload, w2, t2) ->
  (filled cast_float overload "voltage_A" "VpuA" t1 w2 /\
   filled cast_float overload "voltage_B" "VpuB" t1 w2 /\
   filled cast_float overload "voltage_C" "VpuC" t1 w2) /\
  (filled cast_float overload "overload_A" "OverloadAmpsA" t2 w2 /\
   filled cast_float overload "overload_B" "OverloadAmpsB" t2 w2 /\
   filled cast_float overload "overload_C" "OverloadAmpsC" t2 w2) /\
  voltage = length (frames w) /\ overload = S voltage /\
  exists fv fo, frames w1 = frames w ++ [fv] /\ frames w2 = frames w ++ [fv; fo].
Proof.
  intros H1 H2.
  pose proof (get_voltage_filled _ _ _ _ _ _ H1) as (Va & Vb & Vc).
  destruct (filled_frame _ _ _ _ _ _ Va) as [fv Ev].
  assert (Hc : copy_inv voltage overload fv
                 ["overload_A"; "overload_B"; "overload_C"]
                 ["overload_A"; "overload_B"; "overload_C"] w2).
  { exact (hoare_run _ _ _ _ _ _ _ _ (get_overload_copy voltage fv) Ev H2). }
  split.
  { repeat split;
      (eapply filled_carried; [eassumption|exact Ev|exact Hc|]);
      simpl; intuition discriminate. }
  split; [exact (get_overload_filled _ _ _ _ _ H2)|].
  assert (Hr : exists f0, frames w !! r = Some f0).
  { unfold get_voltage in H1. apply bind_ret_inv in H1 as (c & w0 & ta & tb & Hf & _).
    apply frame_copy_effect in Hf as (_ & _ & f0 & Ef & _). eauto. }
  destruct Hr as [f0 Ef].
  assert (A1 : adds_a_frame w (get_voltage r false w)).
  { unfold get_voltage. allocates_one Ef. }
  rewrite H1 in A1. destruct A1 as [[fv' G1] R1]. unfold world_after in G1. simpl in G1, R1.
  specialize (R1 voltage eq_refl).
  assert (A2 : adds_a_frame w1 (get_overload voltage w1)).
  { unfold get_overload. allocates_one Ev. }
  rewrite H2 in A2. destruct A2 as [[fo G2] R2]. unfold world_after in G2. simpl in G2, R2.
  specialize (R2 overload eq_refl).
  split; [exact R1|]. split.
  { rewrite R2, G1, R1, length_app. simpl. lia. }
  exists fv', fo. split; [exact G1|]. rewrite G2, G1, <- app_assoc. reflexivity.
Qed.

End Frames.

Lemma X13_extraction_allocates_one_frame_witness :
  adds_a_frame Demo.world1
    (@get_distance unit (Demo.stateless Demo.failing) Demo.runtime 0 Demo.world1) /\
  adds_a_frame Demo.world1
    (@get_coordinates unit (Demo.stateless Demo.feeder) Demo.runtime 0 Demo.world1).
Proof.
  split.
  - exact (proj1 (proj2 (proj2 (proj2
             (X13_extraction_allocates_one_frame (cympy := Demo.stateless Demo.failing)
                (py := Demo.runtime) 0 Demo.devices Demo.world1 false eq_refl))))).
  - exact (proj2 (proj2 (proj2 (proj2
             (X13_extraction_allocates_one_frame (cympy := Demo.stateless Demo.feeder)
                (py := Demo.runtime) 0 Demo.devices Demo.world1 false eq_refl))))).
Defined.

Lemma X14_overload_after_voltage_witness :
  @get_voltage unit (Demo.stateless Demo.feeder) Demo.runtime 0 false Demo.world1
    = (Ret 1, voltage_example_world, voltage_example_trace) /\
  @get_overload unit (Demo.stateless Demo.feeder) Demo.runtime 1 voltage_example_world
    = (Ret 2, overload_example_world, overload_example_trace) /\
  filled (cast_float (py := Demo.runtime)) 2 "voltage_A" "VpuA"
    voltage_example_trace overload_example_world /\
  filled (cast_float (py := Demo.runtime)) 2 "overload_A" "OverloadAmpsA"
    overload_example_trace overload_example_world.
Proof.
  assert (E1 : @get_voltage unit (Demo.stateless Demo.feeder) Demo.runtime 0 false
                 Demo.world1
               = (Ret 1, voltage_example_world, voltage_example_trace))
    by (vm_compute; reflexivity).
  assert (E2 : @get_overload unit (Demo.stateless Demo.feeder) Demo.runtime 1
                 voltage_example_world
               = (Ret 2, overload_example_world, overload_example_trace))
    by (vm_compute; reflexivity).
  split; [exact E1|]. split; [exact E2|].
  pose proof (X14_overload_after_voltage (cympy := Demo.stateless Demo.feeder)
                (py := Demo.runtime) _ _ _ _ _ _ _ _ E1 E2) as H.
  split; [exact (proj1 (proj1 H))|exact (proj1 (proj1 (proj2 H)))].
Defined.
